(** * Race-track visualisation: a shallow embedding of the geometry and
      route-editing code, and the properties it satisfies.

    The embedded functions come from two components:
    - [race-track-visualization.tsx]: the [AlternateRoute] state and its
      updaters [addControlPoint], [updateControlPoint], [deleteControlPoint];
    - [race-track-3d.tsx]: [smoothPoints], the nearest-point search of
      [StartFinishLine], the path construction and ribbon extrusion of
      [AlternateRouteTrack], and the elevation scaling of [TrackMesh].

    JavaScript numbers are reached through the interface [JSNumber].  Two
    implementations are given: [Float64], the IEEE-754 binary64 numbers
    the engine computes with, on which the code is run; and [Exact], real
    arithmetic extended with NaN and the two infinities, on which the
    geometric facts that hold up to rounding are stated.  Array indices,
    lengths, loop counters and the smoothing level are integers.  A thrown
    [TypeError] is the result [None]. *)

From Stdlib Require Import ZArith List Reals Lra Lia Floats.
From stdpp Require Import base option list strings gmap.
Import ListNotations.

Local Open Scope Z_scope.

(** ** JavaScript numbers *)

Class JSNumber := {
  num : Type;
  (* literals *)
  zero : num;
  one : num;
  half : num;                        (* 0.5 *)
  infinity : num;                    (* Number.POSITIVE_INFINITY *)
  nan : num;
  (* conversion of an integer-valued counter *)
  of_nat : nat -> num;
  (* arithmetic *)
  neg : num -> num;
  add : num -> num -> num;
  sub : num -> num -> num;
  mul : num -> num -> num;
  div : num -> num -> num;
  Math_sqrt : num -> num;
  Math_pow2 : num -> num;            (* Math.pow(x, 2) *)
  Math_min2 : num -> num -> num;     (* Math.min(x, y) *)
  (* comparisons *)
  lt : num -> num -> bool;           (* x < y *)
  le : num -> num -> bool;           (* x <= y *)
  strict_eq : num -> num -> bool;    (* x === y *)
  isNaN : num -> bool;
}.

Section JSValues.
Context {N : JSNumber}.

(** [Math.min(...xs)]: [+Infinity] on no argument. *)
Definition Math_min (xs : list num) : num :=
  fold_left Math_min2 xs infinity.

(** Truthiness of a number: [NaN], [+0] and [-0] are falsy. *)
Definition truthy (v : num) : bool :=
  negb (isNaN v || strict_eq v zero).

(** [v || d] on numbers. *)
Definition or_else (v d : num) : num :=
  if truthy v then v else d.

(** A field that should hold a number but may be [undefined] at run
    time.  [typeof v === "number"] is [is_number]; [ToNumber] sends
    [undefined] to [NaN]. *)
Definition is_number (v : option num) : bool :=
  match v with Some _ => true | None => false end.

Definition to_number (v : option num) : num :=
  match v with Some x => x | None => nan end.
End JSValues.

(** *** IEEE-754 binary64 *)

Module Float64.
(** [Math.min(x, y)]: [NaN] when either is, and [-0] below [+0]. *)
Definition min2 (x y : float) : float :=
  if (PrimFloat.is_nan x || PrimFloat.is_nan y)%bool then PrimFloat.nan
  else if PrimFloat.ltb x y then x
  else if PrimFloat.ltb y x then y
  else if PrimFloat.get_sign x then x else y.

(** The value of a counter: exact below [2^53]. *)
Definition from_nat (n : nat) : float :=
  PrimFloat.of_uint63 (Uint63.of_Z (Z.of_nat n)).

(** [Math.sqrt] and the four operations are correctly rounded, as the
    language requires.  [Math.pow(x, 2)] is taken as [x * x]; the
    statements below do not depend on it. *)
Definition number : JSNumber := {|
  num := float;
  zero := PrimFloat.zero;
  one := PrimFloat.one;
  half := PrimFloat.div PrimFloat.one PrimFloat.two;
  infinity := PrimFloat.infinity;
  nan := PrimFloat.nan;
  of_nat := from_nat;
  neg := PrimFloat.opp;
  add := PrimFloat.add;
  sub := PrimFloat.sub;
  mul := PrimFloat.mul;
  div := PrimFloat.div;
  Math_sqrt := PrimFloat.sqrt;
  Math_pow2 := fun x => PrimFloat.mul x x;
  Math_min2 := min2;
  lt := PrimFloat.ltb;
  le := PrimFloat.leb;
  strict_eq := PrimFloat.eqb;
  isNaN := PrimFloat.is_nan;
|}.
End Float64.

(** *** Real arithmetic with NaN and infinities *)

Module Exact.
Inductive xreal : Type :=
| Fin (r : R)
| PInf
| NInf
| NaN.

Definition Rltb (a b : R) : bool := if Rlt_dec a b then true else false.
Definition Rleb (a b : R) : bool := if Rle_dec a b then true else false.
Definition Reqb (a b : R) : bool := if Req_dec_T a b then true else false.

(** The infinity with the sign of [a], [NaN] at [a = 0]. *)
Definition signed_inf (a : R) : xreal :=
  if Rltb 0 a then PInf else if Rltb a 0 then NInf else NaN.

Definition xneg (x : xreal) : xreal :=
  match x with
  | Fin a => Fin (- a)
  | PInf => NInf
  | NInf => PInf
  | NaN => NaN
  end.

Definition xadd (x y : xreal) : xreal :=
  match x, y with
  | NaN, _ | _, NaN => NaN
  | Fin a, Fin b => Fin (a + b)
  | PInf, NInf | NInf, PInf => NaN
  | PInf, _ | _, PInf => PInf
  | NInf, _ | _, NInf => NInf
  end.

Definition xsub (x y : xreal) : xreal := xadd x (xneg y).

Definition xmul (x y : xreal) : xreal :=
  match x, y with
  | NaN, _ | _, NaN => NaN
  | Fin a, Fin b => Fin (a * b)
  | Fin a, PInf | PInf, Fin a => signed_inf a
  | Fin a, NInf | NInf, Fin a => signed_inf (- a)
  | PInf, PInf | NInf, NInf => PInf
  | PInf, NInf | NInf, PInf => NInf
  end.

(** Division; a zero divisor is taken as [+0]. *)
Definition xdiv (x y : xreal) : xreal :=
  match x, y with
  | NaN, _ | _, NaN => NaN
  | Fin a, Fin b => if Reqb b 0 then signed_inf a else Fin (a / b)
  | Fin _, (PInf | NInf) => Fin 0
  | PInf, Fin b => if Rltb b 0 then NInf else PInf
  | NInf, Fin b => if Rltb b 0 then PInf else NInf
  | (PInf | NInf), (PInf | NInf) => NaN
  end.

Definition xsqrt (x : xreal) : xreal :=
  match x with
  | Fin a => if Rltb a 0 then NaN else Fin (R_sqrt.sqrt a)
  | PInf => PInf
  | NInf | NaN => NaN
  end.

Definition xlt (x y : xreal) : bool :=
  match x, y with
  | NaN, _ | _, NaN => false
  | Fin a, Fin b => Rltb a b
  | NInf, (Fin _ | PInf) => true
  | Fin _, PInf => true
  | _, _ => false
  end.

Definition xle (x y : xreal) : bool :=
  match x, y with
  | NaN, _ | _, NaN => false
  | Fin a, Fin b => Rleb a b
  | NInf, _ => true
  | _, PInf => true
  | _, _ => false
  end.

Definition xeq (x y : xreal) : bool :=
  match x, y with
  | Fin a, Fin b => Reqb a b
  | PInf, PInf | NInf, NInf => true
  | _, _ => false
  end.

Definition xisNaN (x : xreal) : bool :=
  match x with NaN => true | _ => false end.

Definition xmin2 (x y : xreal) : xreal :=
  if (xisNaN x || xisNaN y)%bool then NaN
  else if xlt y x then y else x.

Definition number : JSNumber := {|
  num := xreal;
  zero := Fin 0;
  one := Fin 1;
  half := Fin (1 / 2);
  infinity := PInf;
  nan := NaN;
  of_nat := fun n => Fin (INR n);
  neg := xneg;
  add := xadd;
  sub := xsub;
  mul := xmul;
  div := xdiv;
  Math_sqrt := xsqrt;
  Math_pow2 := fun x => xmul x x;
  Math_min2 := xmin2;
  lt := xlt;
  le := xle;
  strict_eq := xeq;
  isNaN := xisNaN;
|}.
End Exact.

(** ** three.js values used by the components *)

Module Vector3.
Section Defs.
Context {N : JSNumber}.

Record t := new { x : num; y : num; z : num }.

Definition length (v : t) : num :=
  Math_sqrt (add (add (mul (x v) (x v)) (mul (y v) (y v))) (mul (z v) (z v))).

Definition multiplyScalar (v : t) (s : num) : t :=
  new (mul (x v) s) (mul (y v) s) (mul (z v) s).

Definition divideScalar (v : t) (s : num) : t :=
  multiplyScalar v (div one s).

Definition normalize (v : t) : t :=
  divideScalar v (or_else (length v) one).

Definition subVectors (a b : t) : t :=
  new (sub (x a) (x b)) (sub (y a) (y b)) (sub (z a) (z b)).

Definition addVectors (a b : t) : t :=
  new (add (x a) (x b)) (add (y a) (y b)) (add (z a) (z b)).
End Defs.
Arguments t {N}.
Arguments new {N}.
End Vector3.

Inductive CurveType := centripetal | chordal | catmullrom.

(** The members of a [THREE.CurvePath]; a path is the list of curves in
    the order they were added. *)
Inductive Curve {N : JSNumber} :=
| LineCurve3 (v1 v2 : Vector3.t)
| CatmullRomCurve3 (points : list Vector3.t) (closed : bool)
    (curveType : CurveType) (tension : num).

(** ** Data model of [race-track-visualization.tsx] *)

Module TrackPoint.
Record t {N : JSNumber} := new {
  x : option num;
  y : option num;
  z : option num;
  distance : option num;
  sector : option num;
}.
Arguments t {N}.
Arguments new {N}.
End TrackPoint.

(** [[number, number, number]] *)
Definition Triple {N : JSNumber} : Type := num * num * num.

Inductive SegmentType := straight | curve.

(** The index type [0 | 1 | 2] of a coordinate. *)
Inductive Coordinate := coord0 | coord1 | coord2.

Module AlternateRoute.
Record t {N : JSNumber} := new {
  id : string;
  name : string;
  startPoint : Triple;
  endPoint : Triple;
  controlPoints : option (list Triple);
  segments : option (list SegmentType);
}.
Arguments t {N}.
Arguments new {N}.

(** [{ ...route, controlPoints: cps }] *)
Definition with_controlPoints {N : JSNumber} (route : t)
    (cps : option (list Triple)) : t :=
  new (id route) (name route) (startPoint route) (endPoint route)
      cps (segments route).
End AlternateRoute.

Section Arrays.
Context {A : Type}.

(** [arr.filter((_, i) => keep(i))] *)
Fixpoint filter_index_from (keep : nat -> bool) (i : nat) (arr : list A) : list A :=
  match arr with
  | [] => []
  | a :: rest =>
      if keep i then a :: filter_index_from keep (S i) rest
      else filter_index_from keep (S i) rest
  end.

Definition filter_index (keep : nat -> bool) (arr : list A) : list A :=
  filter_index_from keep 0 arr.

(** [arr[index]] for an integer [index]: [undefined] outside the array. *)
Definition lookupZ (arr : list A) (index : Z) : option A :=
  if index <? 0 then None else arr !! Z.to_nat index.
End Arrays.

(** The values [lo, lo+1, ..., hi] of [for (let j = lo; j <= hi; j++)]. *)
Definition for_range (lo hi : Z) : list Z :=
  map (fun k => lo + Z.of_nat k) (seq 0 (Z.to_nat (hi - lo + 1))).

(** ** The route updaters of [RaceTrackVisualization] *)

Section RouteEditing.
Context {N : JSNumber}.
(** [Number.parseFloat], the engine's. *)
Variable Number_parseFloat : string -> num.

Import AlternateRoute.

Definition set_coordinate (point : Triple) (coordinate : Coordinate) (value : num) : Triple :=
  match point, coordinate with
  | (_, p1, p2), coord0 => (value, p1, p2)
  | (p0, _, p2), coord1 => (p0, value, p2)
  | (p0, p1, _), coord2 => (p0, p1, value)
  end.

Definition addControlPoint (newPointX newPointY newPointZ : string)
    (routeId : string) (routes : list t) : list t :=
  map (fun route =>
    if String.eqb (id route) routeId then
      let controlPoints := default [] (controlPoints route) in
      let newPoint : Triple :=
        (or_else (Number_parseFloat newPointX) zero,
         or_else (Number_parseFloat newPointY) zero,
         or_else (Number_parseFloat newPointZ) zero) in
      with_controlPoints route (Some (controlPoints ++ [newPoint]))
    else route) routes.

(** Spreading [newControlPoints[pointIndex]] throws when there is no
    such element. *)
Definition updateControlPoint (routeId : string) (pointIndex : nat)
    (coordinate : Coordinate) (value : num) (routes : list t) : option (list t) :=
  mapM (fun route =>
    match controlPoints route with
    | Some cps =>
        if String.eqb (id route) routeId then
          let newControlPoints := cps in
          point ← newControlPoints !! pointIndex;
          let point := set_coordinate point coordinate value in
          let newControlPoints := <[pointIndex := point]> newControlPoints in
          Some (with_controlPoints route (Some newControlPoints))
        else Some route
    | None => Some route
    end) routes.

Definition deleteControlPoint (routeId : string) (pointIndex : nat)
    (routes : list t) : list t :=
  map (fun route =>
    match controlPoints route with
    | Some cps =>
        if String.eqb (id route) routeId then
          let newControlPoints :=
            filter_index (fun i => negb (Nat.eqb i pointIndex)) cps in
          with_controlPoints route
            (if (0 <? List.length newControlPoints)%nat
             then Some newControlPoints else None)
        else route
    | None => route
    end) routes.
End RouteEditing.

(** ** [race-track-3d.tsx] *)

Section RaceTrack3D.
Context {N : JSNumber}.

(** *** [smoothPoints] *)

(** The accumulators of the inner loop. *)
Record Sums := mkSums { sumX : num; sumY : num; sumZ : num; count : nat }.

Definition smooth_step (points : list TrackPoint.t) (i : Z) (acc : Sums) (j : Z) : Sums :=
  let len := Z.of_nat (length points) in
  let index := Z.rem (i + j + len) len in
  match lookupZ points index with
  | Some point =>
      match TrackPoint.x point, TrackPoint.y point, TrackPoint.z point with
      | Some px, Some py, Some pz =>
          mkSums (add (sumX acc) px) (add (sumY acc) py) (add (sumZ acc) pz)
                 (S (count acc))
      | _, _, _ => acc
      end
  | None => acc
  end.

Definition smooth_at (points : list TrackPoint.t) (halfWindow : Z)
    (smoothed : list TrackPoint.t) (i : nat) : list TrackPoint.t :=
  let s := fold_left (smooth_step points (Z.of_nat i))
             (for_range (- halfWindow) halfWindow) (mkSums zero zero zero 0%nat) in
  if (0 <? count s)%nat then
    smoothed ++ [TrackPoint.new
      (Some (div (sumX s) (of_nat (count s))))
      (Some (div (sumY s) (of_nat (count s))))
      (Some (div (sumZ s) (of_nat (count s))))
      (points !! i ≫= TrackPoint.distance)
      (points !! i ≫= TrackPoint.sector)]
  else smoothed.

Definition smoothPoints (points : list TrackPoint.t) (level : Z) : list TrackPoint.t :=
  let len := Z.of_nat (length points) in
  if (level =? 0) || (len <? 3) then points
  else
    let windowSize := Z.min (level * 2 + 1) len in
    let halfWindow := windowSize / 2 in
    let smoothed := fold_left (smooth_at points halfWindow) (seq 0 (length points)) [] in
    if (0 <? length smoothed)%nat then smoothed else points.

(** *** [StartFinishLine]: the nearest processed point *)

Definition processed_min_y (processedPoints : list TrackPoint.t) : num :=
  Math_min (map (fun p => to_number (TrackPoint.y p)) processedPoints).

(** The distance the search compares, for one processed point. *)
Definition start_finish_dist (position : Triple) (elevationMultiplier yOffset : num)
    (point : TrackPoint.t) : num :=
  let adjustedY := sub (mul (to_number (TrackPoint.y point)) elevationMultiplier) yOffset in
  Math_sqrt
    (add (add (Math_pow2 (sub (to_number (TrackPoint.x point)) position.1.1))
              (Math_pow2 (sub adjustedY position.1.2)))
         (Math_pow2 (sub (to_number (TrackPoint.z point)) position.2))).

(** One call of the [forEach] callback on the state
    [(closestIndex, minDistance)]. *)
Definition closest_step (dist : TrackPoint.t -> num) (st : nat * num)
    (entry : nat * TrackPoint.t) : nat * num :=
  let '(index, point) := entry in
  if lt (dist point) st.2 then (index, dist point) else st.

Definition indexed {A} (l : list A) : list (nat * A) := imap pair l.

Definition closest_search (dist : TrackPoint.t -> num)
    (processedPoints : list TrackPoint.t) : nat * num :=
  fold_left (closest_step dist) (indexed processedPoints) (0%nat, infinity).

Definition StartFinishLine_processedPoints (trackData : list TrackPoint.t)
    (smoothingLevel : Z) : list TrackPoint.t :=
  if 0 <? smoothingLevel then smoothPoints trackData smoothingLevel else trackData.

Definition StartFinishLine_closestIndex (position : Triple) (trackData : list TrackPoint.t)
    (elevationMultiplier : num) (smoothingLevel : Z) (groundOffset : num) : nat :=
  let processedPoints := StartFinishLine_processedPoints trackData smoothingLevel in
  let minY := processed_min_y processedPoints in
  let yOffset := sub (mul minY elevationMultiplier) groundOffset in
  (closest_search (start_finish_dist position elevationMultiplier yOffset) processedPoints).1.

(** *** [AlternateRouteTrack]: the curve path of a route *)

Definition to_Vector3 (p : Triple) : Vector3.t := Vector3.new p.1.1 p.1.2 p.2.

Definition route_allPoints (route : AlternateRoute.t) : list Vector3.t :=
  let allPoints := [to_Vector3 (AlternateRoute.startPoint route)] in
  let allPoints :=
    match AlternateRoute.controlPoints route with
    | Some cps => allPoints ++ map to_Vector3 cps
    | None => allPoints
    end in
  allPoints ++ [to_Vector3 (AlternateRoute.endPoint route)].

(** The segment loop on the state [(path, currentIndex)].  Reading a
    coordinate of a missing point throws; [curve] leaves the loop. *)
Fixpoint segment_loop (allPoints : list Vector3.t) (segs : list SegmentType)
    (path : list Curve) (currentIndex : nat) : option (list Curve) :=
  match segs with
  | [] => Some path
  | straight :: rest =>
      p1 ← allPoints !! currentIndex;
      p2 ← allPoints !! (currentIndex + 1)%nat;
      segment_loop allPoints rest (path ++ [LineCurve3 p1 p2]) (currentIndex + 1)%nat
  | curve :: _ =>
      let curvePoints := drop currentIndex allPoints in
      Some (path ++ [CatmullRomCurve3 curvePoints false centripetal zero])
  end.

Definition AlternateRouteTrack_curvePath (route : AlternateRoute.t) : option (list Curve) :=
  let allPoints := route_allPoints route in
  match AlternateRoute.segments route with
  | Some ((_ :: _) as segs) => segment_loop allPoints segs [] 0%nat
  | _ => Some [CatmullRomCurve3 allPoints false centripetal half]
  end.

(** *** Ribbon extrusion *)

(** The two vertices pushed for the sampled point [point], given the
    point the loop takes as its successor. *)
Definition ribbon_pair (halfWidth : num) (point nextPoint : Vector3.t)
    : Vector3.t * Vector3.t :=
  let direction := Vector3.normalize (Vector3.subVectors nextPoint point) in
  let perpendicular :=
    Vector3.normalize (Vector3.new (neg (Vector3.z direction)) zero (Vector3.x direction)) in
  let leftPoint :=
    Vector3.addVectors point (Vector3.multiplyScalar perpendicular halfWidth) in
  let rightPoint :=
    Vector3.addVectors point (Vector3.multiplyScalar perpendicular (neg halfWidth)) in
  (leftPoint, rightPoint).

Definition push_pair (vertices : list num) (pr : Vector3.t * Vector3.t) : list num :=
  let '(leftPoint, rightPoint) := pr in
  vertices ++ [Vector3.x leftPoint; Vector3.y leftPoint; Vector3.z leftPoint]
           ++ [Vector3.x rightPoint; Vector3.y rightPoint; Vector3.z rightPoint].

(** The ribbon loop of [TrackMesh] over the sampled [curvePoints]. *)
Definition TrackMesh_ribbon_step (curvePoints : list Vector3.t) (halfWidth : num)
    (vertices : option (list num)) (i : nat) : option (list num) :=
  vertices ← vertices;
  point ← curvePoints !! i;
  let nextIndex := ((i + 1) mod length curvePoints)%nat in
  nextPoint ← curvePoints !! nextIndex;
  Some (push_pair vertices (ribbon_pair halfWidth point nextPoint)).

Definition TrackMesh_ribbonVertices (curvePoints : list Vector3.t) (trackWidth : num)
    : option (list num) :=
  let halfWidth := mul trackWidth half in
  fold_left (TrackMesh_ribbon_step curvePoints halfWidth)
    (seq 0 (length curvePoints)) (Some []).

(** The ribbon loop of [AlternateRouteTrack] over [segmentPoints]. *)
Definition AlternateRouteTrack_ribbon_step (segmentPoints : list Vector3.t) (halfWidth : num)
    (ribbonVertices : option (list num)) (i : nat) : option (list num) :=
  ribbonVertices ← ribbonVertices;
  point ← segmentPoints !! i;
  let nextIndex := ((i + 1) mod length segmentPoints)%nat in
  nextPoint ← segmentPoints !! (Nat.min nextIndex (length segmentPoints - 1));
  Some (push_pair ribbonVertices (ribbon_pair halfWidth point nextPoint)).

Definition AlternateRouteTrack_ribbonVertices (segmentPoints : list Vector3.t)
    (trackWidth : num) : option (list num) :=
  let halfWidth := mul trackWidth half in
  fold_left (AlternateRouteTrack_ribbon_step segmentPoints halfWidth)
    (seq 0 (length segmentPoints)) (Some []).

(** *** [TrackMesh]: the elevation-scaled curve *)

Definition valid_point (p : TrackPoint.t) : bool :=
  is_number (TrackPoint.x p) && is_number (TrackPoint.y p) && is_number (TrackPoint.z p)
  && negb (isNaN (to_number (TrackPoint.x p)))
  && negb (isNaN (to_number (TrackPoint.y p)))
  && negb (isNaN (to_number (TrackPoint.z p))).

Definition TrackMesh_processedPoints (trackData : list TrackPoint.t)
    (smoothingLevel : Z) : list TrackPoint.t :=
  let validPoints := List.filter valid_point trackData in
  if 0 <? smoothingLevel then smoothPoints validPoints smoothingLevel else validPoints.

Definition elevate (elevationMultiplier yOffset : num) (p : TrackPoint.t) : Vector3.t :=
  Vector3.new (to_number (TrackPoint.x p))
              (sub (mul (to_number (TrackPoint.y p)) elevationMultiplier) yOffset)
              (to_number (TrackPoint.z p)).

Definition TrackMesh_curve (trackData : list TrackPoint.t) (elevationMultiplier : num)
    (smoothingLevel : Z) (groundOffset : num) : Curve :=
  let validPoints := List.filter valid_point trackData in
  if (length validPoints <? 2)%nat then
    CatmullRomCurve3
      [Vector3.new zero zero zero; Vector3.new (of_nat 10) zero (of_nat 10)]
      false centripetal half
  else
    let processedPoints := TrackMesh_processedPoints trackData smoothingLevel in
    let minY := processed_min_y processedPoints in
    let yOffset := sub (mul minY elevationMultiplier) groundOffset in
    let points := map (elevate elevationMultiplier yOffset) processedPoints in
    CatmullRomCurve3 points true centripetal half.
End RaceTrack3D.

(** ** Vocabulary of the statements *)

(** [point[coordinate]] *)
Definition get_coordinate {N : JSNumber} (point : Triple) (coordinate : Coordinate) : num :=
  match coordinate with
  | coord0 => point.1.1
  | coord1 => point.1.2
  | coord2 => point.2
  end.

(** The number of ["straight"] entries before the first ["curve"] entry
    (all of them when there is no ["curve"]). *)
Fixpoint straights_before_curve (segs : list SegmentType) : nat :=
  match segs with
  | straight :: rest => S (straights_before_curve rest)
  | _ => 0%nat
  end.

(** The straight lines between neighbours of a point sequence:
    [p0 p1], [p1 p2], ... *)
Definition neighbour_lines {N : JSNumber} (allPoints : list Vector3.t) : list Curve :=
  zip_with LineCurve3 allPoints (tail allPoints).

(** *** Data of the source, as binary64 numbers *)

Module Data.
#[local] Set Warnings "-inexact-float".
Local Existing Instance Float64.number.
Local Open Scope float_scope.

(** The entry ["bypass-3"] of [ALTERNATE_ROUTES]. *)
Definition bypass_3 : AlternateRoute.t :=
  AlternateRoute.new "bypass-3" "Bypass 3"
    (-92.90492607156808, 8.56801287340983, -25.419719834933602)
    (-92.87239837646484, 8.51159954071045, 26.01)
    (Some [(-77.8, 8.5, 7.1); (-77.8, 8.5, 18.5); (-80.5, 8.5, 23.0);
           (-85.0, 8.5, 25.0); (-90.0, 8.5, 26.0)])
    (Some [straight; straight; curve; curve; curve; curve]).

(** The entry ["bypass-2"] of [ALTERNATE_ROUTES]. *)
Definition bypass_2 : AlternateRoute.t :=
  AlternateRoute.new "bypass-2" "Bypass 2"
    (25.89914894104004, 4.653048515319824, 51.47089767456055)
    (-3.2729299068450928, 7.436878204345703, 6.140280246734619)
    (Some [(20.71, 6.24, 26.91)])
    None.

(** Four points on a ramp, with the [distance] and [sector] that
    [loadPreprocessedTrack] gives them. *)
Definition four_points : list TrackPoint.t :=
  [TrackPoint.new (Some 0) (Some 0) (Some 0) (Some 0) (Some 1);
   TrackPoint.new (Some 10) (Some 1) (Some 0) (Some 10) (Some 1);
   TrackPoint.new (Some 20) (Some 2) (Some 0) (Some 20) (Some 2);
   TrackPoint.new (Some 30) (Some 3) (Some 0) (Some 30) (Some 3)].

(** Three points, the height of the last one being [NaN]. *)
Definition nan_height_points : list TrackPoint.t :=
  [TrackPoint.new (Some 0) (Some 0) (Some 0) None None;
   TrackPoint.new (Some 10) (Some 1) (Some 0) None None;
   TrackPoint.new (Some 20) (Some nan) (Some 0) None None].

(** Two samples, the second straight above the first. *)
Definition vertical_step : list Vector3.t :=
  [Vector3.new 0 0 0; Vector3.new 0 1 0].
End Data.

(** *** Data in real arithmetic *)

Module RealData.
#[local] Existing Instance Exact.number.
Import Exact.

Definition two_points : list TrackPoint.t :=
  [TrackPoint.new (Some (Fin 0)) (Some (Fin 1)) (Some (Fin 0)) None None;
   TrackPoint.new (Some (Fin 1)) (Some (Fin 3)) (Some (Fin 2)) None None].
End RealData.

(** *** Vocabulary for [smoothPoints] *)

Section SmoothingVocabulary.
Context {N : JSNumber}.

(** The x, y and z fields all hold numbers. *)
Definition all_numbers (p : TrackPoint.t) : bool :=
  is_number (TrackPoint.x p) && is_number (TrackPoint.y p) && is_number (TrackPoint.z p).

(** [0 + x1 + x2 + ...], added from left to right as a loop does. *)
Definition sum_from_zero (xs : list num) : num := fold_left add xs zero.

(** The values of one coordinate over the positions
    [i - h, ..., i + h] of the circular list [points]. *)
Definition window_values (coord : TrackPoint.t -> option num)
    (points : list TrackPoint.t) (h : Z) (i : nat) : list num :=
  let len := Z.of_nat (length points) in
  map (fun j => to_number (lookupZ points (Z.rem (Z.of_nat i + j + len) len) ≫= coord))
      (for_range (- h) h).

(** The point pushed for position [i]: each coordinate is the sum of
    its window divided by the number of window positions. *)
Definition smoothed_point (points : list TrackPoint.t) (h : Z) (i : nat) : TrackPoint.t :=
  let samples := of_nat (Z.to_nat (2 * h + 1)) in
  TrackPoint.new
    (Some (div (sum_from_zero (window_values TrackPoint.x points h i)) samples))
    (Some (div (sum_from_zero (window_values TrackPoint.y points h i)) samples))
    (Some (div (sum_from_zero (window_values TrackPoint.z points h i)) samples))
    (points !! i ≫= TrackPoint.distance)
    (points !! i ≫= TrackPoint.sector).

(** The arithmetic mean [(x1 + ... + xk) / k]. *)
Definition mean (xs : list num) : num := div (sum_from_zero xs) (of_nat (length xs)).

(** [w] consecutive points of the circular list, from position [start]. *)
Definition circular_window (points : list TrackPoint.t) (start : Z) (w : nat)
    : list TrackPoint.t :=
  let len := Z.of_nat (length points) in
  omap (fun k => lookupZ points (Z.modulo (start + Z.of_nat k) len)) (seq 0 w).
End SmoothingVocabulary.

(** *** The order of JavaScript numbers

    What the nearest-point search uses of [<] and [<=]: the laws of a
    total preorder on the numbers other than [NaN], below [+Infinity].
    Every comparison with [NaN] is false. *)
Record OrderLaws (N : JSNumber) : Prop := {
  lt_irrefl : forall x : num, lt x x = false;
  lt_trans : forall x y z : num, lt x y = true -> lt y z = true -> lt x z = true;
  le_lt_trans : forall x y z : num, le x y = true -> lt y z = true -> lt x z = true;
  lt_infinity : forall x y : num, lt x y = true -> lt x infinity = true;
  not_lt_le : forall x y : num,
    isNaN x = false -> isNaN y = false -> lt x y = false -> le y x = true;
}.

(** *** Vocabulary for the statements in real arithmetic *)

Section ExactVocabulary.
Local Existing Instance Exact.number.
Import Exact.

(** The coordinates of a track point are real numbers. *)
Definition finite_point (p : TrackPoint.t) : bool :=
  match TrackPoint.x p, TrackPoint.y p, TrackPoint.z p with
  | Some (Fin _), Some (Fin _), Some (Fin _) => true
  | _, _, _ => false
  end.

(** The vector with the real coordinates [(a, b, c)]. *)
Definition real_vector (v : R * R * R) : Vector3.t :=
  Vector3.new (Fin v.1.1) (Fin v.1.2) (Fin v.2).
End ExactVocabulary.

(** The six numbers pushed for a pair of vertices. *)
Definition pair_coordinates {N : JSNumber} (pr : Vector3.t * Vector3.t) : list num :=
  [Vector3.x pr.1; Vector3.y pr.1; Vector3.z pr.1;
   Vector3.x pr.2; Vector3.y pr.2; Vector3.z pr.2].

(** The vertex pair of sample [i] in a flat vertex array. *)
Definition vertex_pair_at {N : JSNumber} (vertices : list num) (i : nat) : list num :=
  take 6 (drop (6 * i) vertices).

(** ** Proof automation *)

(** Case analysis on every comparison of real numbers in sight. *)
Ltac case_real_compare :=
  unfold Exact.Rltb, Exact.Rleb, Exact.Reqb in *;
  repeat match goal with
    | |- context [Rlt_dec ?a ?b] => destruct (Rlt_dec a b)
    | |- context [Rle_dec ?a ?b] => destruct (Rle_dec a b)
    | |- context [Req_dec_T ?a ?b] => destruct (Req_dec_T a b)
    | H : context [Rlt_dec ?a ?b] |- _ => destruct (Rlt_dec a b)
    | H : context [Rle_dec ?a ?b] |- _ => destruct (Rle_dec a b)
    | H : context [Req_dec_T ?a ?b] |- _ => destruct (Req_dec_T a b)
    end;
  try discriminate; try reflexivity; try lra.

(** Case analysis on every comparison of exponents and mantissas of
    specified binary64 numbers in sight. *)
Ltac case_spec_compare :=
  change (Pos.compare_cont Eq) with Pos.compare in *;
  repeat match goal with
    | |- context [Z.compare ?a ?b] => destruct (Z.compare_spec a b)
    | H : context [Z.compare ?a ?b] |- _ => destruct (Z.compare_spec a b)
    | |- context [Pos.compare ?a ?b] => destruct (Pos.compare_spec a b)
    | H : context [Pos.compare ?a ?b] |- _ => destruct (Pos.compare_spec a b)
    end;
  simpl in *; try discriminate; try reflexivity; try lia.

(** The kinds of a specified binary64 number, with its sign. *)
Ltac case_spec_float x :=
  let s := fresh "s" in
  destruct x as [s|s| |s ? ?]; try destruct s.

(** ** [RaceTrackVisualization]: placing points by click, route visibility *)

Section RouteSelection.
Context {N : JSNumber}.
Import AlternateRoute.

(** [handleSceneClick]: the condition [isClickToPlaceMode &&
    selectedRouteId] is falsy for [null] and for the empty string. *)
Definition handleSceneClick (isClickToPlaceMode : bool) (selectedRouteId : option string)
    (position : Triple) (routes : list t) : list t :=
  match selectedRouteId with
  | Some selected =>
      if isClickToPlaceMode && negb (String.eqb selected EmptyString) then
        map (fun route =>
          if String.eqb (id route) selected then
            let controlPoints := default [] (controlPoints route) in
            with_controlPoints route (Some (controlPoints ++ [position]))
          else route) routes
      else routes
  | None => routes
  end.

(** [toggleRouteVisibility], on a copy of the previous set. *)
Definition toggleRouteVisibility (routeId : string) (prev : gset string) : gset string :=
  let newSet := prev in
  if decide (routeId ∈ newSet) then newSet ∖ {[routeId]} else newSet ∪ {[routeId]}.

(** [alternateRoutes.filter((route) => visibleRoutes.has(route.id))] *)
Definition visibleAlternateRoutes (alternateRoutes : list t) (visibleRoutes : gset string)
    : list t :=
  List.filter (fun route => bool_decide (id route ∈ visibleRoutes)) alternateRoutes.

(** [new Set(ALTERNATE_ROUTES.map((route) => route.id))] *)
Definition initial_visibleRoutes (routes : list t) : gset string :=
  list_to_set (map id routes).
End RouteSelection.

(** No route carries an empty array of control points. *)
Definition no_empty_controlPoints {N : JSNumber} (routes : list AlternateRoute.t) : Prop :=
  Forall (fun route => AlternateRoute.controlPoints route <> Some []) routes.

(** ** [TrackScene] and [RaceTrack3D]: callouts, turn details, track information *)

Module TurnDetail.
Record t := new { name : string; type : string; speed : string; gear : string;
                  notes : string }.
End TurnDetail.

Definition TURN_DETAILS : list TurnDetail.t := [
  TurnDetail.new "Turn 1" "Medium-speed right-hander" "55-65 mph" "4th"
    "Brake early, trail brake through entry";
  TurnDetail.new "Turn 2" "Slow hairpin left" "25-35 mph" "2nd"
    "Late apex, smooth throttle application";
  TurnDetail.new "Turn 3" "Fast chicane entry" "55-65 mph" "5th"
    "Straight-line speed is crucial";
  TurnDetail.new "Turn 4" "Technical right-left combo" "45-55 mph" "3rd"
    "Weight transfer management key";
  TurnDetail.new "Turn 5" "Uphill left-hander" "55-65 mph" "4th"
    "Elevation changes affect grip";
  TurnDetail.new "Turn 6" "Blind crest into right" "55-65 mph" "5th"
    "Commit to line before crest";
  TurnDetail.new "Turn 7" "Downhill left carousel" "55-65 mph" "4th"
    "Use banking to carry speed";
  TurnDetail.new "Turn 8" "Technical S-bend" "40-50 mph" "3rd"
    "Smooth inputs, avoid sawing wheel";
  TurnDetail.new "Turn 9" "Fast right kink" "55-65 mph" "5th"
    "Minimal steering input needed";
  TurnDetail.new "Turn 10" "Medium left-hander" "55-65 mph" "4th"
    "Good passing opportunity";
  TurnDetail.new "Turn 11" "Slow right-hander" "35-45 mph" "3rd"
    "Late braking zone, patient exit";
  TurnDetail.new "Turn 12" "Fast left sweep" "55-65 mph" "5th"
    "Use all the track on exit";
  TurnDetail.new "Turn 13" "Technical right-left" "50-60 mph" "3rd"
    "Rhythm and flow important";
  TurnDetail.new "Turn 14" "Medium downhill left" "55-65 mph" "4th"
    "Elevation helps rotation";
  TurnDetail.new "Turn 15" "Fast right-hander" "55-65 mph" "5th"
    "Late apex for better exit";
  TurnDetail.new "Turn 16" "Uphill chicane" "45-55 mph" "3rd"
    "Build speed gradually";
  TurnDetail.new "Turn 17" "Final corner complex" "55-65 mph" "4th"
    "Sets up for main straight";
  TurnDetail.new "Turn 18" "Fast left kink" "55-65 mph" "5th"
    "Full throttle commitment" ].

(** [TurnDetailsHUD]: the details it displays.  [TURN_DETAILS[turnIndex]]
    is [undefined] outside the table, and reading [turnDetail.name]
    throws then. *)
Definition TurnDetailsHUD (turnIndex : option nat) : option TurnDetail.t :=
  turnIndex ≫= fun i => TURN_DETAILS !! i.

(** A prop of type [number | null] that may be left out. *)
Inductive TurnProp := turn_undefined | turn_null | turn_index (i : nat).

(** [{selectedTurn !== null && <TurnDetailsHUD turnIndex={selectedTurn} .../>}]
    of [RaceTrack3D]: [Some None] when no HUD is mounted, [None] when
    mounting it throws. *)
Definition RaceTrack3D_turnHud (selectedTurn : TurnProp) : option (option TurnDetail.t) :=
  match selectedTurn with
  | turn_null => Some None
  | turn_undefined => Some <$> TurnDetailsHUD None
  | turn_index i => Some <$> TurnDetailsHUD (Some i)
  end.

Module Callout.
Record t {N : JSNumber} := new { position : Triple; label : string }.
Arguments t {N}.
Arguments new {N}.
End Callout.

Section ArraySearch.
Context {A : Type}.

(** [arr.findIndex(p)]; [None] stands for [-1]. *)
Fixpoint findIndex_from (p : A -> bool) (i : nat) (arr : list A) : option nat :=
  match arr with
  | [] => None
  | a :: rest => if p a then Some i else findIndex_from p (S i) rest
  end.

Definition findIndex (p : A -> bool) (arr : list A) : option nat :=
  findIndex_from p 0 arr.

(** [arr.some(p)] *)
Definition some (p : A -> bool) (arr : list A) : bool := existsb p arr.
End ArraySearch.

Section Hud.
Context {N : JSNumber}.
(** [Math.abs], the engine's. *)
Variable Math_abs : num -> num.

(** The test of the three click handlers: within 5 units of [position]
    on every axis. *)
Definition within_5 (calloutPosition position : Triple) : bool :=
  lt (Math_abs (sub calloutPosition.1.1 position.1.1)) (of_nat 5)
  && lt (Math_abs (sub calloutPosition.1.2 position.1.2)) (of_nat 5)
  && lt (Math_abs (sub calloutPosition.2 position.2)) (of_nat 5).

(** The three pieces of state [TrackScene] keeps for the panels. *)
Record HudState := mkHud {
  selectedTurn : option nat;
  hudPosition : option Triple;
  showTrackInfo : bool;
}.

Definition initial_hud : HudState := mkHud None None false.

(** [TrackScene.turnCallouts] *)
Definition TrackScene_turnCallouts (ORIGINAL_TURN_CALLOUTS : list Callout.t)
    (showTurnNumbers : bool) (elevationMultiplier : num) : list Callout.t :=
  if negb showTurnNumbers then []
  else
    map (fun callout =>
      Callout.new
        ((Callout.position callout).1.1,
         add (mul (Callout.position callout).1.2 (div elevationMultiplier (of_nat 2)))
             (of_nat 8),
         (Callout.position callout).2)
        (Callout.label callout)) ORIGINAL_TURN_CALLOUTS.

(** [TrackScene.allCallouts] *)
Definition TrackScene_allCallouts (turnCallouts : list Callout.t)
    (startFinishPosition : Triple) (customCallouts : option (list Callout.t))
    : list Callout.t :=
  let startFinishCallout := Callout.new startFinishPosition "Start / Finish" in
  let callouts := turnCallouts ++ [startFinishCallout] in
  match customCallouts with
  | Some custom => callouts ++ custom
  | None => callouts
  end.

(** [TrackScene.handleTurnClick] *)
Definition handleTurnClick (turnCallouts : list Callout.t) (position : Triple)
    (st : HudState) : HudState :=
  match findIndex (fun callout => within_5 (Callout.position callout) position)
          turnCallouts with
  | Some turnIndex => mkHud (Some turnIndex) (Some position) (showTrackInfo st)
  | None => st
  end.

(** [RaceTrack3D.handleCalloutClick] with the setters of [TrackScene]
    as callbacks, after the camera animation has been requested.
    Reading [startFinishPosition[0]] throws when the prop is left out. *)
Definition handleCalloutClick (turnCallouts : list Callout.t)
    (startFinishPosition : option Triple) (position : Triple) (st : HudState)
    : option HudState :=
  startFinishPosition ← startFinishPosition;
  let isStartFinish := within_5 startFinishPosition position in
  if isStartFinish then
    Some (mkHud None None true)
  else
    match findIndex (fun callout => within_5 (Callout.position callout) position)
            turnCallouts with
    | Some turnIndex => Some (mkHud (Some turnIndex) (Some position) false)
    | None => Some st
    end.

(** [AlternateRouteTrack.handleClick]: the position handed to
    [onRouteClick], if it is called. *)
Definition AlternateRouteTrack_handleClick (isClickable : bool) (onRouteClick : bool)
    (point : Triple) : option Triple :=
  if isClickable && onRouteClick then Some point else None.

(** [TrackScene.handleSceneClick], on the panels ([onTrackClick] is the
    host's). *)
Definition TrackScene_handleSceneClick (onTurnClick : bool) (turnCallouts : list Callout.t)
    (position : Triple) (st : HudState) : HudState :=
  if onTurnClick then handleTurnClick turnCallouts position st else st.

(** What a user can do to the panels of a [TrackScene]. *)
Inductive HudEvent :=
  | click_callout (index : nat)
  | click_route (point : Triple)
  | close_turn_details
  | close_track_info.

(** The props of [TrackScene] the panels depend on. *)
Record SceneProps := mkScene {
  scene_turnCallouts : list Callout.t;
  scene_customCallouts : option (list Callout.t);
  scene_startFinishPosition : Triple;
  scene_interactive : bool;
  scene_onTurnClick : bool;
}.

(** One event on a [TrackScene].  [TrackScene] mounts [RaceTrack3D]
    without [isClickToPlaceMode], whose default [false] is the
    [isClickable] of every [AlternateRouteTrack]. *)
Definition TrackScene_step (props : SceneProps) (st : HudState) (ev : HudEvent)
    : option HudState :=
  let allCallouts :=
    TrackScene_allCallouts (scene_turnCallouts props) (scene_startFinishPosition props)
      (scene_customCallouts props) in
  match ev with
  | click_callout index =>
      match allCallouts !! index with
      | Some callout =>
          handleCalloutClick (scene_turnCallouts props)
            (Some (scene_startFinishPosition props)) (Callout.position callout) st
      | None => Some st
      end
  | click_route point =>
      let isClickToPlaceMode := false in
      match AlternateRouteTrack_handleClick isClickToPlaceMode (scene_interactive props)
              point with
      | Some position =>
          Some (TrackScene_handleSceneClick (scene_onTurnClick props)
                  (scene_turnCallouts props) position st)
      | None => Some st
      end
  | close_turn_details => Some (mkHud None None (showTrackInfo st))
  | close_track_info => Some (mkHud (selectedTurn st) (hudPosition st) false)
  end.

(** A sequence of events, from the first on. *)
Fixpoint TrackScene_run (props : SceneProps) (st : HudState) (events : list HudEvent)
    : option HudState :=
  match events with
  | [] => Some st
  | ev :: rest => st' ← TrackScene_step props st ev; TrackScene_run props st' rest
  end.

(** What [RaceTrack3D] is given as [selectedTurn] by [TrackScene]. *)
Definition turn_prop (st : HudState) : TurnProp :=
  match selectedTurn st with
  | Some i => turn_index i
  | None => turn_null
  end.

(** What every reachable state of the panels satisfies. *)
Definition hud_ok (turnCallouts : list Callout.t) (st : HudState) : Prop :=
  (showTrackInfo st = true -> selectedTurn st = None)
  /\ (selectedTurn st = None <-> hudPosition st = None)
  /\ forall i, selectedTurn st = Some i -> (i < length turnCallouts)%nat.
End Hud.

(** ** Further functions of [Math] and of [Vector3] *)

Module ExactMath.
Import Exact.

(** [Math.max] of two numbers in real arithmetic. *)
Definition xmax2 (x y : xreal) : xreal :=
  if (xisNaN x || xisNaN y)%bool then NaN
  else if xlt x y then y else x.

(** [Math.abs] in real arithmetic. *)
Definition xabs (x : xreal) : xreal :=
  match x with
  | Fin a => Fin (Rabs a)
  | PInf | NInf => PInf
  | NaN => NaN
  end.
End ExactMath.

Module Float64Math.
(** [Math.max] of two binary64 numbers. *)
Definition max2 (x y : float) : float :=
  if (PrimFloat.is_nan x || PrimFloat.is_nan y)%bool then PrimFloat.nan
  else if PrimFloat.ltb x y then y
  else if PrimFloat.ltb y x then x
  else if PrimFloat.eqb (PrimFloat.div 1%float x) PrimFloat.infinity then x else y.
End Float64Math.

(** [this.lerpVectors(v1, v2, alpha)] of three.js. *)
Definition lerpVectors {N : JSNumber} (v1 v2 : Vector3.t) (alpha : num) : Vector3.t :=
  Vector3.new (add (Vector3.x v1) (mul (sub (Vector3.x v2) (Vector3.x v1)) alpha))
              (add (Vector3.y v1) (mul (sub (Vector3.y v2) (Vector3.y v1)) alpha))
              (add (Vector3.z v1) (mul (sub (Vector3.z v2) (Vector3.z v1)) alpha)).

(** The decimal literal [0.k] for a digit [k]: the quotient [k / 10],
    which binary64 rounds to the same number as the literal. *)
Definition tenths {N : JSNumber} (k : nat) : num := div (of_nat k) (of_nat 10).

(** ** [StartFinishLine]: the track statistics *)

Section TrackStats.
Context {N : JSNumber}.
(** [Math.round] and [Math.max], the engine's. *)
Variable Math_round : num -> num.
Variable Math_max2 : num -> num -> num.

Record Stats := mkStats { stats_length : num; stats_elevation : num; stats_turns : nat }.

(** [Math.sqrt(Math.pow(a.x - b.x, 2) + Math.pow(a.y - b.y, 2) + Math.pow(a.z - b.z, 2))] *)
Definition point_distance (a b : TrackPoint.t) : num :=
  Math_sqrt
    (add (add (Math_pow2 (sub (to_number (TrackPoint.x a)) (to_number (TrackPoint.x b))))
              (Math_pow2 (sub (to_number (TrackPoint.y a)) (to_number (TrackPoint.y b)))))
         (Math_pow2 (sub (to_number (TrackPoint.z a)) (to_number (TrackPoint.z b))))).

(** One round of the loop on [(totalLength, minElevation, maxElevation)];
    [i - 1] and [i] are inside the array for every [i] the loop takes. *)
Definition stats_step (trackData : list TrackPoint.t) (st : num * num * num) (i : nat)
    : num * num * num :=
  let '(totalLength, minElevation, maxElevation) := st in
  match trackData !! (i - 1)%nat, trackData !! i with
  | Some prev, Some curr =>
      let distance := point_distance curr prev in
      (add totalLength distance,
       Math_min2 minElevation (to_number (TrackPoint.y curr)),
       Math_max2 maxElevation (to_number (TrackPoint.y curr)))
  | _, _ => st
  end.

Definition trackStats (trackData : list TrackPoint.t) : Stats :=
  if (length trackData <? 2)%nat then mkStats zero zero 0
  else
    let '(totalLength, minElevation, maxElevation) :=
      fold_left (stats_step trackData) (seq 1 (length trackData - 1))
        (zero, infinity, neg infinity) in
    let totalLength :=
      if (2 <? length trackData)%nat then
        match trackData !! 0%nat, trackData !! (length trackData - 1)%nat with
        | Some first, Some last => add totalLength (point_distance first last)
        | _, _ => totalLength
        end
      else totalLength in
    mkStats (div (Math_round (mul totalLength (of_nat 10))) (of_nat 10))
            (div (Math_round (mul (sub maxElevation minElevation) (of_nat 10))) (of_nat 10))
            18.

(** The elevation figure of the information panel of [RaceTrack3D]:
    [Math.round((Math.max(...ys) - Math.min(...ys)) * 10) / 10] over
    the heights of all points. *)
Definition panel_elevation (trackData : list TrackPoint.t) : num :=
  let ys := map (fun p => to_number (TrackPoint.y p)) trackData in
  div (Math_round (mul (sub (fold_left Math_max2 ys (neg infinity)) (Math_min ys))
                       (of_nat 10)))
      (of_nat 10).
End TrackStats.

(** ** [RaceTrack3D]: the bounds of the track and the camera *)

Section TrackBounds.
Context {N : JSNumber}.
Variable Math_max2 : num -> num -> num.

Record Bounds := mkBounds { center : Triple; size : num }.

(** [v !== undefined && !isNaN(v)] *)
Definition defined_number (v : option num) : bool :=
  is_number v && negb (isNaN (to_number v)).

(** The update of one pair [(min, max)] by a coordinate. *)
Definition extend (range : num * num) (v : option num) : num * num :=
  if defined_number v
  then (Math_min2 range.1 (to_number v), Math_max2 range.2 (to_number v))
  else range.

(** The [forEach] callback on [((minX, maxX), (minY, maxY), (minZ, maxZ))]. *)
Definition bounds_step (st : (num * num) * (num * num) * (num * num)) (p : TrackPoint.t)
    : (num * num) * (num * num) * (num * num) :=
  let '(rx, ry, rz) := st in
  (extend rx (TrackPoint.x p), extend ry (TrackPoint.y p), extend rz (TrackPoint.z p)).

Definition trackBounds (trackData : list TrackPoint.t) : Bounds :=
  if (length trackData =? 0)%nat then mkBounds (zero, zero, zero) (of_nat 100)
  else
    let '((minX, maxX), (minY, maxY), (minZ, maxZ)) :=
      fold_left bounds_step trackData
        ((infinity, neg infinity), (infinity, neg infinity), (infinity, neg infinity)) in
    let centerX := div (add minX maxX) (of_nat 2) in
    let centerY := div (add minY maxY) (of_nat 2) in
    let centerZ := div (add minZ maxZ) (of_nat 2) in
    let size := Math_max2 (sub maxX minX) (sub maxZ minZ) in
    mkBounds (centerX, centerY, centerZ) size.

Definition cameraPosition (trackBounds : Bounds) : Triple :=
  (add (center trackBounds).1.1 (mul (size trackBounds) (tenths 8)),
   mul (size trackBounds) (tenths 6),
   add (center trackBounds).2 (mul (size trackBounds) (tenths 8))).
End TrackBounds.

(** The defined coordinates with the real values [rs]. *)
Definition some_reals (rs : list R) : list (option (@num Exact.number)) :=
  map (fun r => Some (Exact.Fin r)) rs.

(** ** [CameraController] *)

Section CameraController.
Context {N : JSNumber}.
(** [Math.PI], [Math.cos] and [Math.sin], the engine's. *)
Variable Math_PI : num.
Variable Math_cos Math_sin : num -> num.

Record Animation := mkAnimation {
  active : bool;
  startTime : num;
  duration : num;
  startCameraPos : Vector3.t;
  targetCameraPos : Vector3.t;
  startTarget : Vector3.t;
  targetTarget : Vector3.t;
}.

(** The camera position, the target of the mounted orbit controls and
    [animationRef.current]. *)
Record Camera := mkCamera {
  camera_position : Vector3.t;
  controls_target : Vector3.t;
  animationRef : option Animation;
}.

(** The ease in-out of the frame callback. *)
Definition ease (progress : num) : num :=
  if lt progress half then mul (mul (of_nat 2) progress) progress
  else sub one (div (Math_pow2 (add (mul (neg (of_nat 2)) progress) (of_nat 2))) (of_nat 2)).

(** The [useFrame] callback at the time [now] of [Date.now()], up to
    the call of [controls.update()], which is the orbit controls'. *)
Definition useFrame (now : num) (st : Camera) : Camera :=
  match animationRef st with
  | None => st
  | Some animation =>
      if negb (active animation) then st
      else
        let elapsed := sub now (startTime animation) in
        let progress := Math_min2 (div elapsed (duration animation)) one in
        let eased := ease progress in
        mkCamera
          (lerpVectors (startCameraPos animation) (targetCameraPos animation) eased)
          (lerpVectors (startTarget animation) (targetTarget animation) eased)
          (Some (mkAnimation
             (if le one progress then false else active animation)
             (startTime animation) (duration animation)
             (startCameraPos animation) (targetCameraPos animation)
             (startTarget animation) (targetTarget animation)))
  end.

(** [animateToPosition(targetPosition, distance, enableRotation)] at
    the time [now], with camera and controls available. *)
Definition animateToPosition (targetPosition : Triple) (distance : num)
    (enableRotation : bool) (now : num) (st : Camera) : Camera :=
  let currentTarget := controls_target st in
  let newTarget := to_Vector3 targetPosition in
  let offset :=
    Vector3.new (mul distance (tenths 7)) (mul distance half) (mul distance (tenths 7)) in
  let newCameraPosition := Vector3.addVectors newTarget offset in
  let targetCameraPos :=
    if enableRotation then
      let radius := distance in
      let height := mul distance (tenths 6) in
      let angle := mul Math_PI (tenths 3) in
      Vector3.new (add (Vector3.x newTarget) (mul (Math_cos angle) radius))
                  (add (Vector3.y newTarget) height)
                  (add (Vector3.z newTarget) (mul (Math_sin angle) radius))
    else newCameraPosition in
  mkCamera (camera_position st) (controls_target st)
    (Some (mkAnimation true now
             (if enableRotation then of_nat 2000 else of_nat 1000)
             (camera_position st) targetCameraPos currentTarget newTarget)).

(** The animation [RaceTrack3D.handleCalloutClick] requests when the
    animation API is ready: towards the clicked position, from the
    distance [trackBounds.size * 0.3], rotating for a turn callout. *)
Definition handleCalloutClick_animation (Math_abs : num -> num)
    (turnCallouts : list Callout.t) (trackBounds : Bounds) (position : Triple)
    (now : num) (st : Camera) : Camera :=
  let isTurn :=
    some (fun callout => within_5 Math_abs (Callout.position callout) position)
      turnCallouts in
  animateToPosition position (mul (size trackBounds) (tenths 3)) isTurn now st.
End CameraController.

(** *** Vocabulary for the camera in real arithmetic *)

Section CameraVocabulary.
Local Existing Instance Exact.number.
Local Open Scope R_scope.

(** The ease in-out on real numbers. *)
Definition ease_real (p : R) : R :=
  if Rlt_dec p (1 / 2) then 2 * p * p else 1 - (-2 * p + 2) * (-2 * p + 2) / 2.

(** The point of the segment from [a] to [b] at the parameter [e]. *)
Definition real_lerp (a b : R * R * R) (e : R) : R * R * R :=
  (a.1.1 + (b.1.1 - a.1.1) * e, a.1.2 + (b.1.2 - a.1.2) * e, a.2 + (b.2 - a.2) * e).

(** An animation whose times and vectors are real. *)
Definition real_animation (running : bool) (t0 dur : R) (sc tc st tt : R * R * R)
    : Animation :=
  mkAnimation running (Exact.Fin t0) (Exact.Fin dur)
    (real_vector sc) (real_vector tc) (real_vector st) (real_vector tt).
End CameraVocabulary.

(** ** The buffers of the plane and ribbon geometries *)

Section Geometry.
Context {N : JSNumber}.

(** The arrays given to the attributes [position], [normal], [color]
    and to [setIndex]. *)
Record PlaneBuffers := mkPlane {
  plane_vertices : list num;
  plane_indices : list Z;
  plane_normals : list num;
  plane_colors : list num;
}.

(** The two triangles between the vertex pairs [i] and [i + 1]. *)
Definition strip_indices (i : nat) : list Z :=
  let baseIndex := Z.of_nat i * 2 in
  let nextBase := baseIndex + 2 in
  [baseIndex; nextBase; baseIndex + 1] ++ [baseIndex + 1; nextBase; nextBase + 1].

(** One round of a plane loop: the sample and its projection to the
    ground level 0; triangles while [i < limit].  Reading a coordinate
    of a missing sample throws. *)
Definition plane_step (points : list Vector3.t) (limit : Z) (gradientRGB : Triple)
    (buffers : option PlaneBuffers) (i : nat) : option PlaneBuffers :=
  buffers ← buffers;
  point ← points !! i;
  let groundLevel := zero in
  Some (mkPlane
    (plane_vertices buffers
       ++ [Vector3.x point; Vector3.y point; Vector3.z point]
       ++ [Vector3.x point; groundLevel; Vector3.z point])
    (if Z.of_nat i <? limit then plane_indices buffers ++ strip_indices i
     else plane_indices buffers)
    (plane_normals buffers ++ [zero; zero; one] ++ [zero; zero; one])
    (plane_colors buffers
       ++ [gradientRGB.1.1; gradientRGB.1.2; gradientRGB.2; one]
       ++ [gradientRGB.1.1; gradientRGB.1.2; gradientRGB.2; zero])).

(** The plane of [TrackMesh] over the sampled [curvePoints], closed by
    two triangles from the last vertex pair to the first. *)
Definition TrackMesh_planeGeometry (curvePoints : list Vector3.t) (gradientRGB : Triple)
    : option PlaneBuffers :=
  buffers ← fold_left
    (plane_step curvePoints (Z.of_nat (length curvePoints) - 1) gradientRGB)
    (seq 0 (length curvePoints)) (Some (mkPlane [] [] [] []));
  let lastIndex := (Z.of_nat (length curvePoints) - 1) * 2 in
  Some (mkPlane (plane_vertices buffers)
          (plane_indices buffers ++ [lastIndex; 0; lastIndex + 1]
             ++ [lastIndex + 1; 0; 1])
          (plane_normals buffers) (plane_colors buffers)).

(** [Math.max(100, allPoints.length * 20)] *)
Definition AlternateRouteTrack_numSegments (allPoints : list Vector3.t) : nat :=
  Nat.max 100 (length allPoints * 20).

(** The plane of [AlternateRouteTrack]: [i] runs from 0 to
    [numSegments] over [segmentPoints = path.getPoints(numSegments)]. *)
Definition AlternateRouteTrack_planeGeometry (segmentPoints : list Vector3.t)
    (numSegments : nat) (gradientRGB : Triple) : option PlaneBuffers :=
  fold_left (plane_step segmentPoints (Z.of_nat numSegments) gradientRGB)
    (seq 0 (numSegments + 1)) (Some (mkPlane [] [] [] [])).

(** The index part of a round of a ribbon loop. *)
Definition ribbon_index_step (limit : Z) (indices : list Z) (i : nat) : list Z :=
  if Z.of_nat i <? limit then indices ++ strip_indices i else indices.

(** The indices of the ribbon of [TrackMesh], pushed in the loop of
    [TrackMesh_ribbonVertices] and closed after it. *)
Definition TrackMesh_ribbonIndices (curvePoints : list Vector3.t) : list Z :=
  let indices :=
    fold_left (ribbon_index_step (Z.of_nat (length curvePoints) - 1))
      (seq 0 (length curvePoints)) [] in
  let lastIndex := (Z.of_nat (length curvePoints) - 1) * 2 in
  indices ++ [lastIndex; 0; lastIndex + 1] ++ [lastIndex + 1; 0; 1].

(** The indices of the ribbon of [AlternateRouteTrack], pushed in the
    loop of [AlternateRouteTrack_ribbonVertices]. *)
Definition AlternateRouteTrack_ribbonIndices (segmentPoints : list Vector3.t) : list Z :=
  fold_left (ribbon_index_step (Z.of_nat (length segmentPoints) - 1))
    (seq 0 (length segmentPoints)) [].

(** The six numbers a plane loop pushes for a sample. *)
Definition curtain (point : Vector3.t) : list num :=
  [Vector3.x point; Vector3.y point; Vector3.z point;
   Vector3.x point; zero; Vector3.z point].
End Geometry.

(** ** [StartFinishLine]: the line across the track *)

Section StartFinishLine.
Context {N : JSNumber}.

(** The end points of the line, from the neighbours of the nearest
    processed point. *)
Definition start_finish_line (position : Triple) (trackWidth : num)
    (prevPoint nextPoint : TrackPoint.t) : Vector3.t * Vector3.t :=
  let direction :=
    Vector3.normalize
      (Vector3.new
         (sub (to_number (TrackPoint.x nextPoint)) (to_number (TrackPoint.x prevPoint)))
         zero
         (sub (to_number (TrackPoint.z nextPoint)) (to_number (TrackPoint.z prevPoint)))) in
  let perpendicular :=
    Vector3.normalize (Vector3.new (neg (Vector3.z direction)) zero (Vector3.x direction)) in
  let lineWidth := mul trackWidth (div (of_nat 3) (of_nat 2)) in
  let halfWidth := mul lineWidth half in
  let leftPoint :=
    Vector3.new (add position.1.1 (mul (Vector3.x perpendicular) halfWidth))
                position.1.2
                (add position.2 (mul (Vector3.z perpendicular) halfWidth)) in
  let rightPoint :=
    Vector3.new (sub position.1.1 (mul (Vector3.x perpendicular) halfWidth))
                position.1.2
                (sub position.2 (mul (Vector3.z perpendicular) halfWidth)) in
  (leftPoint, rightPoint).

(** The two points given to [setFromPoints].  Reading a coordinate of
    a missing neighbour throws: with no points, both indices are
    [NaN]. *)
Definition StartFinishLine_lineGeometry (position : Triple) (trackWidth : num)
    (trackData : list TrackPoint.t) (elevationMultiplier : num) (smoothingLevel : Z)
    (groundOffset : num) : option (Vector3.t * Vector3.t) :=
  let processedPoints := StartFinishLine_processedPoints trackData smoothingLevel in
  let closestIndex :=
    Z.of_nat (StartFinishLine_closestIndex position trackData elevationMultiplier
                smoothingLevel groundOffset) in
  let len := Z.of_nat (length processedPoints) in
  let prevIndex := Z.rem (closestIndex - 1 + len) len in
  let nextIndex := Z.rem (closestIndex + 1) len in
  prevPoint ← lookupZ processedPoints prevIndex;
  nextPoint ← lookupZ processedPoints nextIndex;
  Some (start_finish_line position trackWidth prevPoint nextPoint).
End StartFinishLine.

(** *** Vocabulary for [smoothPoints] on points of any kind *)

Section NumericWindows.
Context {N : JSNumber}.

(** The points with three numeric coordinates among those read at the
    positions [i - h, ..., i + h] of the circular list, in the order
    read; a position read twice gives its point twice. *)
Definition numeric_window (points : list TrackPoint.t) (h : Z) (i : nat)
    : list TrackPoint.t :=
  let len := Z.of_nat (length points) in
  omap (fun j =>
          p ← lookupZ points (Z.rem (Z.of_nat i + j + len) len);
          if all_numbers p then Some p else None)
       (for_range (- h) h).

(** The point standing for position [i]: the means of the coordinates
    over the numeric points of its window, with the [distance] and the
    [sector] of point [i]; none when the window has no numeric point. *)
Definition window_mean_point (points : list TrackPoint.t) (h : Z) (i : nat)
    : option TrackPoint.t :=
  let window := numeric_window points h i in
  if (0 <? length window)%nat then
    Some (TrackPoint.new
      (Some (mean (map (fun p => to_number (TrackPoint.x p)) window)))
      (Some (mean (map (fun p => to_number (TrackPoint.y p)) window)))
      (Some (mean (map (fun p => to_number (TrackPoint.z p)) window)))
      (points !! i ≫= TrackPoint.distance)
      (points !! i ≫= TrackPoint.sector))
  else None.
End NumericWindows.

(** *** Further data of the source, as binary64 numbers *)

Module SceneData.
#[local] Set Warnings "-inexact-float".
Local Existing Instance Float64.number.
Local Open Scope float_scope.

(** [START_FINISH_POSITION] *)
Definition START_FINISH_POSITION : Triple :=
  (57.18308639526367, 5.896078109741211, 103.21224975585938).

(** [ORIGINAL_TURN_CALLOUTS] of [TrackScene] *)
Definition ORIGINAL_TURN_CALLOUTS : list Callout.t :=
  [
   Callout.new (178.0207977294922, 8.954895734786987, 94.28092956542969) "T1";
   Callout.new (180.0103302001953, 8.674322605133057, 11.850353240966797) "T2";
   Callout.new (117.51516723632812, 11.130828857421875, 60.75695037841797) "T3";
   Callout.new (163.26605224609375, 8.613812685012817, 43.413082122802734) "T4";
   Callout.new (123.90059661865234, 9.104000091552734, 86.26699829101562) "T5";
   Callout.new (32.524986267089844, 8.46538519859314, 81.4964370727539) "T6";
   Callout.new (26.847400665283203, 9.560400009155273, 52.37919998168945) "T7";
   Callout.new (-8.776745796203613, 12.088362693786621, 38.8324089050293) "T8";
   Callout.new (-2.608907461166382, 12.130964756011963, 19.58861541748047) "T9";
   Callout.new (-14.03291130065918, 12.442146301269531, -3.543109655380249) "T10";
   Callout.new (-37.10651397705078, 14.077892303466797, 81.46376037597656) "T11";
   Callout.new (-48.01011276245117, 12.387964725494385, -21.545366287231445) "T12";
   Callout.new (-59.513790130615234, 13.232219696044922, -46.048828125) "T13";
   Callout.new (-52.066287994384766, 13.795202255249023, -74.36454772949219) "T14";
   Callout.new (-80.21865853972386, 13.582037244217593, -81.83136385524084) "T15";
   Callout.new (-89.78832244873047, 13.730594635009766, 55.48883819580078) "T16";
   Callout.new (-74.608, 13.9, 66.844) "T17";
   Callout.new (-66.46492767333984, 14.277263641357422, 97.03485107421875) "T18"].

(** The props of the [TrackScene] that [Home] mounts: turn numbers
    shown, the default elevation multiplier 2, interactive, no custom
    callouts and no [onTurnClick]. *)
Definition home_scene : SceneProps :=
  mkScene (TrackScene_turnCallouts ORIGINAL_TURN_CALLOUTS true 2) None
    START_FINISH_POSITION true false.

(** The first three routes of [ALTERNATE_ROUTES] are in [Data]; this
    is a route without control points and one with an empty array. *)
Definition chicane_bypass_1 : AlternateRoute.t :=
  AlternateRoute.new "chicane-bypass-1" "Chicane Bypass 1"
    (82.92379760742188, 3.5464000701904297, 89.04920196533203)
    (119.6622314453125, 5.533458232879639, 51.2724723815918)
    None None.

(** Five points of which only the last two have their coordinates. *)
Definition gap_points : list TrackPoint.t :=
  [TrackPoint.new None (Some 1) (Some 0) (Some 0) None;
   TrackPoint.new (Some 1) None (Some 0) (Some 1) None;
   TrackPoint.new (Some 2) (Some 1) None (Some 2) None;
   TrackPoint.new (Some 3) (Some 2) (Some 0) (Some 3) None;
   TrackPoint.new (Some 4) (Some 4) (Some 0) (Some 4) None].

(** A camera at rest, looking at the origin. *)
Definition camera_at_rest : Camera :=
  mkCamera (Vector3.new 80 60 80) (Vector3.new 0 0 0) None.
End SceneData.

(** *** Further data in real arithmetic *)

Module RealSceneData.
#[local] Existing Instance Exact.number.
Import Exact.

(** Three points at the corners of a triangle on the ground. *)
Definition triangle : list TrackPoint.t :=
  [TrackPoint.new (Some (Fin 0)) (Some (Fin 0)) (Some (Fin 0)) None None;
   TrackPoint.new (Some (Fin 1)) (Some (Fin 0)) (Some (Fin 0)) None None;
   TrackPoint.new (Some (Fin 0)) (Some (Fin 0)) (Some (Fin 1)) None None].
End RealSceneData.

(** * Properties *)

(** ** Arrays and loops *)

Section ArrayFacts.
Context {A : Type}.
Implicit Types (arr : list A) (i k s : nat).

Lemma filter_index_from_keep_all (p s : nat) arr :
  (p < s)%nat ->
  filter_index_from (fun i => negb (Nat.eqb i p)) s arr = arr.
Proof.
  revert s. induction arr as [|a arr IH]; intros s Hlt; simpl; [done|].
  destruct (Nat.eqb_spec s p) as [->|_]; [lia|]. simpl.
  rewrite IH; [done | lia].
Qed.

Lemma filter_index_from_remove arr : forall s k,
  filter_index_from (fun i => negb (Nat.eqb i (s + k))) s arr
  = take k arr ++ drop (S k) arr.
Proof.
  induction arr as [|a arr IH]; intros s k; simpl.
  - by destruct k.
  - destruct k as [|k].
    + rewrite Nat.add_0_r, Nat.eqb_refl. simpl.
      rewrite drop_0. apply filter_index_from_keep_all. lia.
    + destruct (Nat.eqb_spec s (s + S k)) as [Heq|_]; [lia|]. simpl.
      replace (s + S k)%nat with (S s + k)%nat by lia.
      by rewrite IH.
Qed.

(** Filtering out one index removes exactly that element. *)
Lemma filter_index_remove arr k :
  filter_index (fun i => negb (Nat.eqb i k)) arr = take k arr ++ drop (S k) arr.
Proof. apply (filter_index_from_remove arr 0 k). Qed.

End ArrayFacts.

Lemma for_range_length lo hi : length (for_range lo hi) = Z.to_nat (hi - lo + 1).
Proof. unfold for_range. by rewrite length_map, length_seq. Qed.

Lemma for_range_bounds lo hi j : In j (for_range lo hi) -> lo <= j <= hi.
Proof.
  unfold for_range. rewrite in_map_iff. intros (k & <- & Hin).
  apply in_seq in Hin. lia.
Qed.

(** ** Route editing *)

Section RouteEditingFacts.
Context {N : JSNumber}.
Variable Number_parseFloat : string -> num.
Import AlternateRoute.

Lemma get_set_coordinate_eq (point : Triple) c v :
  get_coordinate (set_coordinate point c v) c = v.
Proof. by destruct point as [[p0 p1] p2], c. Qed.

Lemma get_set_coordinate_ne (point : Triple) c c' v :
  c' <> c -> get_coordinate (set_coordinate point c v) c' = get_coordinate point c'.
Proof. by destruct point as [[p0 p1] p2], c, c'. Qed.

Lemma with_controlPoints_fields (route : t) cps :
  id (with_controlPoints route cps) = id route
  /\ name (with_controlPoints route cps) = name route
  /\ startPoint (with_controlPoints route cps) = startPoint route
  /\ endPoint (with_controlPoints route cps) = endPoint route
  /\ segments (with_controlPoints route cps) = segments route
  /\ controlPoints (with_controlPoints route cps) = cps.
Proof. by destruct route. Qed.

(** C9: [addControlPoint] keeps the number and order of the routes; a
    route with another id is returned as it is; a route with the given
    id keeps its other fields and gets exactly one point appended to
    its control points (the empty list when it had none), whose
    coordinates are the parsed inputs, with [0] in place of a parse
    that is [NaN] or zero. *)
Theorem addControlPoint_appends_one (newPointX newPointY newPointZ routeId : string)
    (routes : list t) :
  let routes' := addControlPoint Number_parseFloat newPointX newPointY newPointZ routeId routes in
  let parsed (s : string) : num :=
    let v := Number_parseFloat s in
    if (isNaN v || strict_eq v zero)%bool then zero else v in
  length routes' = length routes
  /\ forall i route, routes !! i = Some route ->
       exists route', routes' !! i = Some route'
         /\ (id route <> routeId -> route' = route)
         /\ (id route = routeId ->
              id route' = id route /\ name route' = name route
              /\ startPoint route' = startPoint route
              /\ endPoint route' = endPoint route
              /\ segments route' = segments route
              /\ controlPoints route'
                 = Some (default [] (controlPoints route)
                         ++ [(parsed newPointX, parsed newPointY, parsed newPointZ)])).
Proof.
  intros routes' parsed. subst routes'. unfold addControlPoint. split.
  - apply length_map.
  - intros i route Hi.
    change (map ?f ?l) with (f <$> l).
    rewrite list_lookup_fmap, Hi. simpl.
    eexists; split; [reflexivity|].
    destruct (String.eqb_spec (id route) routeId) as [Heq|Hne].
    + split; [done|]. intros _.
      destruct route as [rid rname rstart rend rcps rsegs]; simpl.
      repeat split.
      subst parsed. unfold or_else, truthy. simpl.
      by destruct (isNaN _ || strict_eq _ zero)%bool,
                  (isNaN _ || strict_eq _ zero)%bool,
                  (isNaN _ || strict_eq _ zero)%bool.
    + split; [done|]. intros Heq. by destruct Hne.
Qed.

(** C6: [updateControlPoint] returns (it does not throw) when the
    index is within the control points of every route it edits, and
    whenever it returns, the result has the same routes in the same
    order, each with its id, name, start point, end point and segments;
    a route with another id or without control points is returned as
    it is; an edited route has the same number of control points, all
    but the one at [pointIndex] unchanged, and that one has [value] at
    [coordinate] and its other two coordinates unchanged. *)
Theorem updateControlPoint_frame (routeId : string) (pointIndex : nat)
    (coordinate : Coordinate) (value : num) (routes : list t) :
  ((forall route cps, route ∈ routes -> id route = routeId ->
      controlPoints route = Some cps -> (pointIndex < length cps)%nat) ->
   is_Some (updateControlPoint routeId pointIndex coordinate value routes))
  /\ forall routes',
      updateControlPoint routeId pointIndex coordinate value routes = Some routes' ->
      length routes' = length routes
      /\ forall i route, routes !! i = Some route ->
           exists route', routes' !! i = Some route'
             /\ id route' = id route /\ name route' = name route
             /\ startPoint route' = startPoint route
             /\ endPoint route' = endPoint route
             /\ segments route' = segments route
             /\ (id route <> routeId \/ controlPoints route = None -> route' = route)
             /\ forall cps, id route = routeId -> controlPoints route = Some cps ->
                  exists cps' point point',
                    controlPoints route' = Some cps'
                    /\ length cps' = length cps
                    /\ (forall k, k <> pointIndex -> cps' !! k = cps !! k)
                    /\ cps !! pointIndex = Some point
                    /\ cps' !! pointIndex = Some point'
                    /\ get_coordinate point' coordinate = value
                    /\ forall c, c <> coordinate ->
                         get_coordinate point' c = get_coordinate point c.
Proof.
  unfold updateControlPoint. split.
  - intros Hrange. apply mapM_is_Some_2, Forall_forall.
    intros route Hin. simpl.
    destruct (controlPoints route) as [cps|] eqn:Hcps; [|by eexists].
    destruct (String.eqb_spec (id route) routeId) as [Heq|Hne]; [|by eexists].
    destruct (lookup_lt_is_Some_2 cps pointIndex (Hrange route cps Hin Heq Hcps))
      as [point ->].
    by eexists.
  - intros routes' Hres. apply mapM_Some_1 in Hres. split.
    + symmetry. by eapply Forall2_length.
    + intros i route Hi.
      destruct (Forall2_lookup_l _ _ _ _ _ Hres Hi) as (route' & Hi' & Hstep).
      exists route'. split; [done|].
      destruct (controlPoints route) as [cps|] eqn:Hcps; cycle 1.
      { injection Hstep as <-. repeat split; try done; intros; by simplify_eq. }
      destruct (String.eqb_spec (id route) routeId) as [Heq|Hne]; cycle 1.
      { injection Hstep as <-. repeat split; try done; intros; by simplify_eq. }
      destruct (cps !! pointIndex) as [point|] eqn:Hpoint; [|done].
      simpl in Hstep. injection Hstep as <-.
      destruct (with_controlPoints_fields route
        (Some (<[pointIndex:=set_coordinate point coordinate value]> cps)))
        as (-> & -> & -> & -> & -> & ->).
      repeat split; try done.
      { intros [Hne|[=]]. by destruct Hne. }
      intros cps0 _ [= <-].
      exists (<[pointIndex:=set_coordinate point coordinate value]> cps),
             point, (set_coordinate point coordinate value).
      repeat split; try done.
      * apply length_insert.
      * intros k Hk. by apply list_lookup_insert_ne.
      * apply list_lookup_insert_eq. by eapply lookup_lt_Some.
      * apply get_set_coordinate_eq.
      * intros c Hc. by apply get_set_coordinate_ne.
Qed.

(** C7: [deleteControlPoint] keeps the number and order of the routes
    and returns every route with another id (or without control points)
    as it is; in a route with the given id the control points become
    the old ones without the element at [pointIndex], in the same
    order, or [undefined] when none is left, and the other fields are
    unchanged. *)
Theorem deleteControlPoint_removes_one (routeId : string) (pointIndex : nat)
    (routes : list t) :
  let routes' := deleteControlPoint routeId pointIndex routes in
  length routes' = length routes
  /\ forall i route, routes !! i = Some route ->
       exists route', routes' !! i = Some route'
         /\ (id route <> routeId \/ controlPoints route = None -> route' = route)
         /\ forall cps, id route = routeId -> controlPoints route = Some cps ->
              let remaining := take pointIndex cps ++ drop (S pointIndex) cps in
              id route' = id route /\ name route' = name route
              /\ startPoint route' = startPoint route
              /\ endPoint route' = endPoint route
              /\ segments route' = segments route
              /\ controlPoints route'
                 = match remaining with [] => None | _ :: _ => Some remaining end.
Proof.
  intros routes'. subst routes'. unfold deleteControlPoint. split.
  - apply length_map.
  - intros i route Hi.
    change (map ?f ?l) with (f <$> l).
    rewrite list_lookup_fmap, Hi. simpl.
    eexists; split; [reflexivity|].
    destruct (controlPoints route) as [cps|] eqn:Hcps; cycle 1.
    { split; [done|]. intros; by simplify_eq. }
    destruct (String.eqb_spec (id route) routeId) as [Heq|Hne]; cycle 1.
    { split; [done|]. intros; by simplify_eq. }
    split.
    { intros [Hne|[=]]. by destruct Hne. }
    intros cps0 _ [= <-].
    rewrite filter_index_remove.
    destruct route as [rid rname rstart rend rcps rsegs]; simpl.
    repeat split.
    by destruct (take pointIndex cps ++ drop (S pointIndex) cps).
Qed.
End RouteEditingFacts.

(** ** The curve path of an alternate route *)

Section CurvePathFacts.
Context {N : JSNumber}.
Implicit Types (allPoints : list Vector3.t) (path : list Curve) (segs : list SegmentType).

Lemma route_allPoints_length (route : AlternateRoute.t) :
  length (route_allPoints route)
  = (length (default [] (AlternateRoute.controlPoints route)) + 2)%nat.
Proof.
  unfold route_allPoints.
  destruct (AlternateRoute.controlPoints route) as [cps|]; simpl.
  - rewrite length_app, length_map. simpl. lia.
  - done.
Qed.

Lemma neighbour_lines_lookup allPoints i p1 p2 :
  allPoints !! i = Some p1 -> allPoints !! (i + 1)%nat = Some p2 ->
  neighbour_lines allPoints !! i = Some (LineCurve3 p1 p2).
Proof.
  intros H1 H2. unfold neighbour_lines.
  rewrite lookup_zip_with, H1. simpl.
  rewrite lookup_tail. replace (S i) with (i + 1)%nat by lia.
  by rewrite H2.
Qed.

Lemma neighbour_lines_length allPoints :
  length (neighbour_lines allPoints) = (length allPoints - 1)%nat.
Proof.
  unfold neighbour_lines. destruct allPoints as [|p l]; [done|].
  rewrite length_zip_with. simpl length.
  rewrite Nat.min_r by lia. lia.
Qed.

(** A run of [k] straight entries adds the [k] neighbour lines from
    the current index on, as long as the points last. *)
Lemma segment_loop_straights allPoints rest : forall k path currentIndex,
  (currentIndex + k < length allPoints)%nat ->
  segment_loop allPoints (replicate k straight ++ rest) path currentIndex
  = segment_loop allPoints rest
      (path ++ take k (drop currentIndex (neighbour_lines allPoints)))
      (currentIndex + k)%nat.
Proof.
  induction k as [|k IH]; intros path currentIndex Hlen; simpl.
  - by rewrite app_nil_r, Nat.add_0_r.
  - destruct (lookup_lt_is_Some_2 allPoints currentIndex) as [p1 Hp1]; [lia|].
    destruct (lookup_lt_is_Some_2 allPoints (currentIndex + 1)) as [p2 Hp2]; [lia|].
    rewrite Hp1, Hp2. simpl.
    rewrite IH by lia.
    rewrite (drop_S _ _ _ (neighbour_lines_lookup _ _ _ _ Hp1 Hp2)). simpl.
    rewrite <- app_assoc. simpl.
    replace (S currentIndex) with (currentIndex + 1)%nat by lia.
    by replace (currentIndex + 1 + k)%nat with (currentIndex + S k)%nat by lia.
Qed.

(** The run stops with a [TypeError] at the first straight entry whose
    next point is missing. *)
Lemma segment_loop_overrun allPoints rest : forall k path currentIndex,
  (length allPoints <= currentIndex + k)%nat -> (0 < k)%nat ->
  segment_loop allPoints (replicate k straight ++ rest) path currentIndex = None.
Proof.
  induction k as [|k IH]; intros path currentIndex Hlen Hk; [lia|]. simpl.
  destruct (allPoints !! currentIndex) as [p1|] eqn:Hp1; [|done]. simpl.
  destruct (allPoints !! (currentIndex + 1)%nat) as [p2|] eqn:Hp2; [|done]. simpl.
  apply IH; [lia|].
  apply lookup_lt_Some in Hp2. lia.
Qed.

Lemma straights_before_curve_split segs :
  exists rest, segs = replicate (straights_before_curve segs) straight ++ rest
    /\ match rest with straight :: _ => False | _ => True end.
Proof.
  induction segs as [|[|] segs (rest & IH & Hrest)]; simpl.
  - by exists [].
  - exists rest. by rewrite <- IH.
  - by exists (curve :: segs).
Qed.

(** Beyond that bound the construction throws. *)
Lemma curvePath_overrun (route : AlternateRoute.t) (segs : list SegmentType) :
  AlternateRoute.segments route = Some segs ->
  (length (default [] (AlternateRoute.controlPoints route)) + 1
   < straights_before_curve segs)%nat ->
  AlternateRouteTrack_curvePath route = None.
Proof.
  intros Hsegs Hbound.
  pose proof (route_allPoints_length route) as Hlen.
  unfold AlternateRouteTrack_curvePath. rewrite Hsegs.
  destruct (straights_before_curve_split segs) as (rest & Hsplit & _).
  destruct segs as [|seg segs']; [simpl in Hbound; lia|].
  change (segment_loop (route_allPoints route) (seg :: segs') [] 0 = None).
  rewrite Hsplit. apply segment_loop_overrun; lia.
Qed.

(** C2 (amended): the path of a route, over the points
    [p0, p1, ...]: the start point, the control points in order, the
    end point, each with the coordinates the route gives it.  Without
    segments (or with an empty list) it is one Catmull-Rom curve
    through all points.  With [k] straight entries followed by a curve
    entry, where [k] is at most the number of control points plus one,
    it is the [k] straight lines between neighbours [p0 p1], ...,
    [p(k-1) pk] and then one Catmull-Rom curve through the points from
    [pk] on, whatever entries follow the curve entry.  With straight
    entries only, at most as many as control points plus one, it is the
    lines alone.  With more straight entries before the first curve
    entry the construction throws and there is no path. *)
Theorem curvePath_construction (route : AlternateRoute.t) :
  let point (p : Triple) := Vector3.new p.1.1 p.1.2 p.2 in
  let controlPoints := default [] (AlternateRoute.controlPoints route) in
  let allPoints :=
    point (AlternateRoute.startPoint route)
    :: map point controlPoints ++ [point (AlternateRoute.endPoint route)] in
  let line i :=
    p1 ← allPoints !! i; p2 ← allPoints !! (i + 1)%nat; Some (LineCurve3 p1 p2) in
  route_allPoints route = allPoints
  /\ (AlternateRoute.segments route = None \/ AlternateRoute.segments route = Some [] ->
      AlternateRouteTrack_curvePath route
      = Some [CatmullRomCurve3 allPoints false centripetal half])
  /\ (forall k post,
        AlternateRoute.segments route = Some (replicate k straight ++ curve :: post) ->
        (k <= length controlPoints + 1)%nat ->
        exists lines,
          AlternateRouteTrack_curvePath route
          = Some (lines ++ [CatmullRomCurve3 (drop k allPoints) false centripetal zero])
          /\ length lines = k
          /\ forall i, (i < k)%nat -> lines !! i = line i /\ is_Some (line i))
  /\ (forall k,
        AlternateRoute.segments route = Some (replicate (S k) straight) ->
        (S k <= length controlPoints + 1)%nat ->
        exists lines,
          AlternateRouteTrack_curvePath route = Some lines
          /\ length lines = S k
          /\ forall i, (i < S k)%nat -> lines !! i = line i /\ is_Some (line i))
  /\ (forall segs,
        AlternateRoute.segments route = Some segs ->
        (length controlPoints + 1 < straights_before_curve segs)%nat ->
        AlternateRouteTrack_curvePath route = None).
Proof.
  intros point controlPoints allPoints line.
  assert (route_allPoints route = allPoints) as Hall.
  { subst allPoints controlPoints. unfold route_allPoints.
    by destruct (AlternateRoute.controlPoints route). }
  pose proof (route_allPoints_length route) as Hlen.
  rewrite Hall in Hlen. fold controlPoints in Hlen.
  assert (forall k i, (k < length allPoints)%nat -> (i < k)%nat ->
            take k (neighbour_lines allPoints) !! i = line i /\ is_Some (line i))
    as Hlines.
  { intros k i Hk Hi. subst line. cbv beta.
    destruct (lookup_lt_is_Some_2 allPoints i) as [p1 Hp1]; [lia|].
    destruct (lookup_lt_is_Some_2 allPoints (i + 1)) as [p2 Hp2]; [lia|].
    rewrite lookup_take_lt by done.
    rewrite (neighbour_lines_lookup _ _ _ _ Hp1 Hp2), Hp1, Hp2. by split. }
  assert (forall k, (k < length allPoints)%nat ->
            length (take k (neighbour_lines allPoints)) = k) as Hcount.
  { intros k Hk. rewrite length_take, neighbour_lines_length. lia. }
  split; [exact Hall|].
  split; [|split; [|split]].
  - unfold AlternateRouteTrack_curvePath. rewrite Hall. by intros [-> | ->].
  - intros k post Hsegs Hk.
    exists (take k (neighbour_lines allPoints)).
    split; [|split; [apply Hcount; lia|intros i Hi; apply Hlines; lia]].
    unfold AlternateRouteTrack_curvePath. rewrite Hall, Hsegs.
    assert (segment_loop allPoints (replicate k straight ++ curve :: post) [] 0
            = Some (take k (neighbour_lines allPoints)
                    ++ [CatmullRomCurve3 (drop k allPoints) false centripetal zero]))
      as Hloop.
    { rewrite segment_loop_straights by lia. simpl. by rewrite drop_0. }
    destruct k; exact Hloop.
  - intros k Hsegs Hk.
    exists (take (S k) (neighbour_lines allPoints)).
    split; [|split; [apply Hcount; lia|intros i Hi; apply Hlines; lia]].
    unfold AlternateRouteTrack_curvePath. rewrite Hall, Hsegs.
    assert (segment_loop allPoints (replicate (S k) straight ++ []) [] 0
            = Some (take (S k) (neighbour_lines allPoints))) as Hloop.
    { rewrite segment_loop_straights by lia. simpl. by rewrite drop_0. }
    by rewrite app_nil_r in Hloop.
  - intros segs Hsegs Hover. by apply (curvePath_overrun route segs).
Qed.

(** C10: when the straight entries before the first curve entry
    number at most the control points plus one, the construction
    returns a path, and both points read for each of those straight
    entries exist. *)
Theorem curvePath_in_range (route : AlternateRoute.t) (segs : list SegmentType) :
  AlternateRoute.segments route = Some segs ->
  (straights_before_curve segs
   <= length (default [] (AlternateRoute.controlPoints route)) + 1)%nat ->
  is_Some (AlternateRouteTrack_curvePath route)
  /\ forall currentIndex, (currentIndex < straights_before_curve segs)%nat ->
       is_Some (route_allPoints route !! currentIndex)
       /\ is_Some (route_allPoints route !! (currentIndex + 1)%nat).
Proof.
  intros Hsegs Hbound.
  pose proof (route_allPoints_length route) as Hlen.
  split.
  - unfold AlternateRouteTrack_curvePath. rewrite Hsegs.
    destruct segs as [|seg segs']; [by eexists|].
    destruct (straights_before_curve_split (seg :: segs')) as (rest & Hsplit & Hrest).
    assert (is_Some (segment_loop (route_allPoints route) (seg :: segs') [] 0)) as Hloop.
    { rewrite Hsplit, segment_loop_straights by lia.
      destruct rest as [|[|] rest']; simpl; [eexists; reflexivity | by destruct Hrest | eexists; reflexivity]. }
    exact Hloop.
  - intros currentIndex Hidx.
    split; apply lookup_lt_is_Some_2; lia.
Qed.

End CurvePathFacts.

(** ** [smoothPoints] *)

Section SmoothPointsFacts.
Context {N : JSNumber}.
Implicit Types (points : list TrackPoint.t) (p : TrackPoint.t).

Lemma all_numbers_fields p :
  all_numbers p = true ->
  exists px py pz, TrackPoint.x p = Some px /\ TrackPoint.y p = Some py
                   /\ TrackPoint.z p = Some pz.
Proof.
  unfold all_numbers.
  destruct (TrackPoint.x p) as [px|], (TrackPoint.y p) as [py|],
    (TrackPoint.z p) as [pz|]; try done.
  intros _. by exists px, py, pz.
Qed.

(** Every position the inner loop reads is inside the array. *)
Lemma window_index_in_range (len h i j : Z) :
  0 <= i < len -> 0 <= h -> 2 * h <= len -> - h <= j <= h ->
  0 <= Z.rem (i + j + len) len < len.
Proof. intros Hi Hh Hlen Hj. apply Z.rem_bound_pos; lia. Qed.

Lemma lookupZ_in_range points (index : Z) :
  0 <= index < Z.of_nat (length points) ->
  exists p, lookupZ points index = Some p /\ points !! Z.to_nat index = Some p.
Proof.
  intros Hidx. unfold lookupZ.
  destruct (Z.ltb_spec index 0); [lia|].
  destruct (lookup_lt_is_Some_2 points (Z.to_nat index)) as [p Hp]; [lia|].
  by exists p.
Qed.

(** The inner loop over positions that all hold numeric points adds
    every coordinate and counts every position. *)
Lemma smooth_window_fold points (i : nat) (js : list Z) : forall acc,
  (forall j, In j js -> exists p,
      lookupZ points (Z.rem (Z.of_nat i + j + Z.of_nat (length points))
                            (Z.of_nat (length points))) = Some p
      /\ all_numbers p = true) ->
  let value coord j :=
    to_number (lookupZ points (Z.rem (Z.of_nat i + j + Z.of_nat (length points))
                                     (Z.of_nat (length points))) ≫= coord) in
  fold_left (smooth_step points (Z.of_nat i)) js acc
  = mkSums (fold_left add (map (value TrackPoint.x) js) (sumX acc))
           (fold_left add (map (value TrackPoint.y) js) (sumY acc))
           (fold_left add (map (value TrackPoint.z) js) (sumZ acc))
           (count acc + length js).
Proof.
  induction js as [|j js IH]; intros acc Hjs value; simpl.
  - destruct acc. simpl. f_equal. lia.
  - destruct (Hjs j (or_introl eq_refl)) as (p & Hp & Hnum).
    destruct (all_numbers_fields p Hnum) as (px & py & pz & Hx & Hy & Hz).
    rewrite IH by (intros j' Hj'; apply Hjs; by right).
    subst value. unfold smooth_step at 1 2 3 4. simpl.
    rewrite Hp. simpl. rewrite Hx, Hy, Hz. simpl.
    f_equal. lia.
Qed.

Lemma smooth_at_pushes points (h : Z) (smoothed : list TrackPoint.t) (i : nat) :
  Forall (fun p => all_numbers p = true) points ->
  (i < length points)%nat -> 0 <= h -> 2 * h <= Z.of_nat (length points) ->
  smooth_at points h smoothed i = smoothed ++ [smoothed_point points h i].
Proof.
  intros Hnum Hi Hh Hlen. unfold smooth_at.
  rewrite smooth_window_fold; cycle 1.
  { intros j Hj. apply for_range_bounds in Hj.
    destruct (lookupZ_in_range points
      (Z.rem (Z.of_nat i + j + Z.of_nat (length points)) (Z.of_nat (length points))))
      as (p & Hp & Hp'); [apply window_index_in_range with (h := h); lia|].
    exists p. split; [done|].
    rewrite Forall_forall in Hnum. apply Hnum.
    by eapply list_elem_of_lookup_2. }
  simpl. rewrite for_range_length.
  replace (h - - h + 1) with (2 * h + 1) by lia.
  destruct (Nat.ltb_spec 0 (Z.to_nat (2 * h + 1))); [done | lia].
Qed.

Lemma smooth_loop points (h : Z) : forall k s (smoothed : list TrackPoint.t),
  Forall (fun p => all_numbers p = true) points ->
  (s + k <= length points)%nat -> 0 <= h -> 2 * h <= Z.of_nat (length points) ->
  fold_left (smooth_at points h) (seq s k) smoothed
  = smoothed ++ map (smoothed_point points h) (seq s k).
Proof.
  induction k as [|k IH]; intros s smoothed Hnum Hs Hh Hlen; simpl.
  - by rewrite app_nil_r.
  - rewrite smooth_at_pushes by (done || lia).
    rewrite IH by (done || lia).
    by rewrite <- app_assoc.
Qed.

Lemma halfWindow_bounds (len level : Z) :
  3 <= len -> 1 <= level ->
  1 <= Z.min (level * 2 + 1) len / 2 /\ 2 * (Z.min (level * 2 + 1) len / 2) <= len.
Proof.
  intros Hlen Hlevel.
  pose proof (Z.mul_div_le (Z.min (level * 2 + 1) len) 2 ltac:(lia)).
  split; [apply Z.div_le_lower_bound; lia | lia].
Qed.

(** The list [smoothPoints] returns, position by position. *)
Lemma smoothPoints_closed_form points (level : Z) :
  (3 <= length points)%nat -> 1 <= level ->
  Forall (fun p => all_numbers p = true) points ->
  smoothPoints points level
  = map (smoothed_point points (Z.min (level * 2 + 1) (Z.of_nat (length points)) / 2))
        (seq 0 (length points)).
Proof.
  intros Hlen Hlevel Hnum. unfold smoothPoints.
  destruct (Z.eqb_spec level 0); [lia|].
  destruct (Z.ltb_spec (Z.of_nat (length points)) 3); [lia|]. simpl.
  destruct (halfWindow_bounds (Z.of_nat (length points)) level) as [Hh1 Hh2]; [lia..|].
  rewrite smooth_loop by (done || lia). simpl.
  rewrite length_map, length_seq.
  destruct (Nat.ltb_spec 0 (length points)); [done | lia].
Qed.

Lemma smoothPoints_unchanged points (level : Z) :
  level = 0 \/ (length points < 3)%nat -> smoothPoints points level = points.
Proof.
  intros Hcase. unfold smoothPoints.
  destruct Hcase as [-> | Hshort]; [done|].
  destruct (Z.ltb_spec (Z.of_nat (length points)) 3); [|lia].
  by rewrite orb_true_r.
Qed.

Lemma smoothPoints_length points (level : Z) :
  1 <= level -> Forall (fun p => all_numbers p = true) points ->
  length (smoothPoints points level) = length points.
Proof.
  intros Hlevel Hnum.
  destruct (Nat.lt_ge_cases (length points) 3) as [Hshort|Hlong].
  - rewrite smoothPoints_unchanged; [done | by right].
  - rewrite smoothPoints_closed_form by done.
    by rewrite length_map, length_seq.
Qed.

(** Reading one coordinate off the points found at the positions
    [f k]: dropping missing values changes nothing when every position
    holds a numeric point. *)
Lemma omap_coordinate (coord : TrackPoint.t -> option num) points
    (f : nat -> Z) (ks : list nat) :
  (forall k, In k ks -> exists p v, lookupZ points (f k) = Some p /\ coord p = Some v) ->
  omap coord (omap (fun k => lookupZ points (f k)) ks)
  = map (fun k => to_number (lookupZ points (f k) ≫= coord)) ks.
Proof.
  induction ks as [|k ks IH]; intros Hks; [done|].
  destruct (Hks k (or_introl eq_refl)) as (p & v & Hp & Hv).
  cbn [omap list_omap map]. rewrite Hp. cbn [omap list_omap mbind option_bind].
  rewrite Hv. cbn [to_number]. f_equal.
  apply IH. intros k' Hk'. apply Hks. by right.
Qed.

(** The positions [i - h .. i + h] the loop reads are the [2 h + 1]
    neighbouring points of the circular list that start at [i - h]. *)
Lemma window_values_circular (coord : TrackPoint.t -> option num) points (h : Z) (i : nat) :
  (forall p, all_numbers p = true -> is_Some (coord p)) ->
  Forall (fun p => all_numbers p = true) points ->
  (i < length points)%nat -> 0 <= h -> 2 * h <= Z.of_nat (length points) ->
  window_values coord points h i
  = omap coord (circular_window points (Z.of_nat i - h) (Z.to_nat (2 * h + 1))).
Proof.
  intros Hcoord Hnum Hi Hh Hlen.
  unfold window_values, circular_window, for_range.
  replace (h - - h + 1) with (2 * h + 1) by lia.
  rewrite map_map, omap_coordinate.
  - apply map_ext_in. intros k Hk%in_seq.
    rewrite Z.rem_mod_nonneg by lia.
    replace (Z.of_nat i + (- h + Z.of_nat k) + Z.of_nat (length points))
      with (Z.of_nat i - h + Z.of_nat k + 1 * Z.of_nat (length points)) by lia.
    by rewrite Z_mod_plus_full.
  - intros k Hk%in_seq.
    destruct (lookupZ_in_range points
      ((Z.of_nat i - h + Z.of_nat k) mod Z.of_nat (length points)))
      as (p & Hp & Hp'); [apply Z.mod_pos_bound; lia|].
    rewrite Forall_forall in Hnum.
    destruct (Hcoord p (Hnum p (list_elem_of_lookup_2 _ _ _ Hp'))) as [v Hv].
    by exists p, v.
Qed.

Lemma circular_window_values_length (coord : TrackPoint.t -> option num) points (h : Z)
    (i : nat) :
  length (window_values coord points h i) = Z.to_nat (2 * h + 1).
Proof.
  unfold window_values. rewrite length_map, for_range_length. f_equal. lia.
Qed.

(** When the window size [min(2 level + 1, n)] is odd, every output
    coordinate is the arithmetic mean of that coordinate over the window
    of that many neighbouring points centred at its position. *)
Lemma smoothPoints_odd_window_mean points (level : Z) :
  (3 <= length points)%nat -> 1 <= level ->
  Forall (fun p => all_numbers p = true) points ->
  let windowSize := Z.min (level * 2 + 1) (Z.of_nat (length points)) in
  Z.odd windowSize = true ->
  forall i, (i < length points)%nat ->
    exists q, smoothPoints points level !! i = Some q
      /\ let window :=
           circular_window points (Z.of_nat i - windowSize / 2) (Z.to_nat windowSize) in
         TrackPoint.x q = Some (mean (omap TrackPoint.x window))
         /\ TrackPoint.y q = Some (mean (omap TrackPoint.y window))
         /\ TrackPoint.z q = Some (mean (omap TrackPoint.z window)).
Proof.
  intros Hlen Hlevel Hnum windowSize Hodd i Hi.
  destruct (halfWindow_bounds (Z.of_nat (length points)) level) as [Hh1 Hh2]; [lia..|].
  fold windowSize in Hh1, Hh2.
  assert (2 * (windowSize / 2) + 1 = windowSize) as Hw.
  { pose proof (Z.div_mod windowSize 2 ltac:(lia)) as Hdiv.
    rewrite Zmod_odd, Hodd in Hdiv. lia. }
  rewrite smoothPoints_closed_form by done. fold windowSize.
  eexists. split.
  { change (map ?f ?l) with (f <$> l).
    rewrite list_lookup_fmap, lookup_seq_lt by done. reflexivity. }
  assert (forall coord, (forall p, all_numbers p = true -> is_Some (coord p)) ->
    div (sum_from_zero (window_values coord points (windowSize / 2) i))
        (of_nat (Z.to_nat (2 * (windowSize / 2) + 1)))
    = mean (omap coord (circular_window points (Z.of_nat i - windowSize / 2)
                          (Z.to_nat windowSize)))) as Hmean.
  { intros coord Hcoord. unfold mean.
    replace (Z.to_nat windowSize) with (Z.to_nat (2 * (windowSize / 2) + 1))
      by (f_equal; exact Hw).
    rewrite <- window_values_circular by (done || lia).
    by rewrite circular_window_values_length. }
  unfold smoothed_point. cbn [TrackPoint.x TrackPoint.y TrackPoint.z].
  repeat split; f_equal; apply Hmean; intros p (px & py & pz & Hx & Hy & Hz)%all_numbers_fields;
    by eexists.
Qed.

(** When the window size is even (the list is shorter than
    [2 level + 1] and of even length), the loop reads one position more
    than the window size. *)
Lemma even_window_reads_one_more (len level : Z) :
  3 <= len -> 1 <= level ->
  let windowSize := Z.min (level * 2 + 1) len in
  let halfWindow := windowSize / 2 in
  Z.even windowSize = true ->
  windowSize = len
  /\ length (for_range (- halfWindow) halfWindow) = Z.to_nat (windowSize + 1).
Proof.
  intros Hlen Hlevel windowSize halfWindow Heven.
  pose proof (Z.div_mod windowSize 2 ltac:(lia)) as Hdiv.
  rewrite Zmod_even, Heven in Hdiv. fold halfWindow in Hdiv.
  split.
  - subst windowSize. destruct (Z.min_spec (level * 2 + 1) len) as [[_ Hmin]|[_ Hmin]]; [|done].
    rewrite Hmin in Heven.
    replace (level * 2 + 1) with (1 + 2 * level) in Heven by lia.
    by rewrite Z.even_add_mul_2 in Heven.
  - rewrite for_range_length. f_equal. lia.
Qed.

(** C8: on at least three numeric points and a level of at least one,
    [smoothPoints] returns as many points as it was given, and the
    point at each position carries the [distance] and [sector] of the
    input point at that position; with level zero, or fewer than three
    points, it returns its input. *)
Theorem smoothPoints_frame points (level : Z) :
  ((3 <= length points)%nat -> 1 <= level ->
   Forall (fun p => all_numbers p = true) points ->
   length (smoothPoints points level) = length points
   /\ forall i p, points !! i = Some p ->
        exists q, smoothPoints points level !! i = Some q
          /\ TrackPoint.distance q = TrackPoint.distance p
          /\ TrackPoint.sector q = TrackPoint.sector p)
  /\ (level = 0 \/ (length points < 3)%nat -> smoothPoints points level = points).
Proof.
  split.
  - intros Hlen Hlevel Hnum.
    rewrite smoothPoints_closed_form by done. split.
    + by rewrite length_map, length_seq.
    + intros i p Hi.
      pose proof (lookup_lt_Some _ _ _ Hi) as Hlt.
      eexists. split.
      * change (map ?f ?l) with (f <$> l).
        rewrite list_lookup_fmap, lookup_seq_lt by done. reflexivity.
      * simpl. by rewrite Hi.
  - apply smoothPoints_unchanged.
Qed.
End SmoothPointsFacts.

(** ** The order laws hold for both number systems *)

Module ExactFacts.
Import Exact.
Local Open Scope R_scope.

Lemma exact_order_laws : OrderLaws number.
Proof.
  split; simpl.
  - intros [a| | |]; simpl; case_real_compare.
  - intros [a| | |] [b| | |] [c| | |]; simpl; intros; case_real_compare.
  - intros [a| | |] [b| | |] [c| | |]; simpl; intros; case_real_compare.
  - intros [a| | |] [b| | |]; simpl; intros; case_real_compare.
  - intros [a| | |] [b| | |]; simpl; intros; case_real_compare.
Qed.
End ExactFacts.

Module Float64Facts.
Import SpecFloat.

Lemma SFltb_irrefl x : SFltb x x = false.
Proof. unfold SFltb, SFcompare. case_spec_float x; simpl; case_spec_compare. Qed.

Lemma SFltb_trans x y z : SFltb x y = true -> SFltb y z = true -> SFltb x z = true.
Proof.
  unfold SFltb, SFcompare.
  case_spec_float x; case_spec_float y; simpl; try discriminate;
    case_spec_float z; simpl; try discriminate; try reflexivity;
    intros; case_spec_compare.
Qed.

Lemma SFleb_ltb_trans x y z : SFleb x y = true -> SFltb y z = true -> SFltb x z = true.
Proof.
  unfold SFleb, SFltb, SFcompare.
  case_spec_float x; case_spec_float y; simpl; try discriminate;
    case_spec_float z; simpl; try discriminate; try reflexivity;
    intros; case_spec_compare.
Qed.

Lemma SFltb_infinity x y : SFltb x y = true -> SFltb x (S754_infinity false) = true.
Proof.
  unfold SFltb, SFcompare.
  case_spec_float x; case_spec_float y; simpl; try discriminate; try reflexivity.
Qed.

Lemma SFeqb_refl_not_nan x : SFeqb x x = true -> x <> S754_nan.
Proof. intros H ->. discriminate. Qed.

Lemma SF_not_ltb_leb x y :
  x <> S754_nan -> y <> S754_nan -> SFltb x y = false -> SFleb y x = true.
Proof.
  unfold SFleb, SFltb, SFcompare.
  case_spec_float x; case_spec_float y; simpl; try congruence; intros; case_spec_compare.
Qed.

Lemma is_nan_false x : PrimFloat.is_nan x = false -> Prim2SF x <> S754_nan.
Proof.
  unfold PrimFloat.is_nan. rewrite FloatAxioms.eqb_spec. intros H.
  apply SFeqb_refl_not_nan. by destruct (SFeqb _ _).
Qed.

Lemma float64_order_laws : OrderLaws Float64.number.
Proof.
  split; simpl.
  - intros x. rewrite FloatAxioms.ltb_spec. apply SFltb_irrefl.
  - intros x y z. rewrite !FloatAxioms.ltb_spec. apply SFltb_trans.
  - intros x y z. rewrite FloatAxioms.leb_spec, !FloatAxioms.ltb_spec. apply SFleb_ltb_trans.
  - intros x y. rewrite !FloatAxioms.ltb_spec. apply SFltb_infinity.
  - intros x y Hx Hy. rewrite FloatAxioms.ltb_spec, FloatAxioms.leb_spec.
    apply SF_not_ltb_leb; by apply is_nan_false.
Qed.
End Float64Facts.

(** ** The nearest-point search of [StartFinishLine] *)

Section ClosestFacts.
Context {N : JSNumber} (laws : OrderLaws N).
Implicit Types (l : list TrackPoint.t) (dist : TrackPoint.t -> num).

Lemma indexed_snoc {A} (l : list A) (a : A) :
  indexed (l ++ [a]) = indexed l ++ [(length l, a)].
Proof.
  unfold indexed. rewrite imap_app. simpl.
  by rewrite Nat.add_0_r.
Qed.

Lemma closest_search_snoc dist l p :
  closest_search dist (l ++ [p])
  = closest_step dist (closest_search dist l) (length l, p).
Proof. unfold closest_search. by rewrite indexed_snoc, fold_left_app. Qed.

(** The state of the search after the points of [l]: no point seen is
    below [minDistance], and either [closestIndex] holds the first
    point at that distance, or nothing was below [+Infinity] and the
    state is the initial one. *)
Lemma closest_search_invariant dist l :
  let st := closest_search dist l in
  (forall j p, l !! j = Some p -> lt (dist p) st.2 = false)
  /\ ((exists pc, l !! st.1 = Some pc /\ dist pc = st.2
        /\ forall j p, (j < st.1)%nat -> l !! j = Some p -> le (dist p) st.2 = false)
      \/ (st.1 = 0%nat /\ st.2 = infinity)).
Proof.
  induction l as [|p l IH] using rev_ind.
  - simpl. split; [done|]. by right.
  - rewrite closest_search_snoc.
    destruct (closest_search dist l) as [c md]. simpl in IH.
    destruct IH as [Hbelow Hfirst]. unfold closest_step. simpl.
    destruct (lt (dist p) md) eqn:Hlt; simpl.
    + (* the new point is strictly nearer *)
      assert (forall j q, l !! j = Some q -> lt (dist q) (dist p) = false) as Hl.
      { intros j q Hq. destruct (lt (dist q) (dist p)) eqn:Hqp; [|done].
        rewrite <- (Hbelow j q Hq). symmetry. eapply (lt_trans _ laws); eauto. }
      split.
      * intros j q Hq. apply lookup_app_Some in Hq as [Hq | [_ Hq]]; [by eapply Hl|].
        apply list_lookup_singleton_Some in Hq as [_ <-]. by apply (lt_irrefl _ laws).
      * left. exists p. split; [|split; [done|]].
        { rewrite lookup_app_r by done. by rewrite Nat.sub_diag. }
        intros j q Hj Hq. rewrite lookup_app_l in Hq by done.
        destruct (le (dist q) (dist p)) eqn:Hqp; [|done].
        rewrite <- (Hbelow j q Hq). symmetry. eapply (le_lt_trans _ laws); eauto.
    + (* the state is kept *)
      split.
      * intros j q Hq. apply lookup_app_Some in Hq as [Hq | [_ Hq]]; [by eapply Hbelow|].
        by apply list_lookup_singleton_Some in Hq as [_ <-].
      * destruct Hfirst as [(pc & Hpc & Hd & Hties) | Hinit]; [left | by right].
        exists pc. split; [by apply lookup_app_l_Some|]. split; [done|].
        intros j q Hj Hq. apply (Hties j q Hj).
        rewrite lookup_app_l in Hq; [done|].
        apply lookup_lt_Some in Hpc. lia.
Qed.

(** C3 (amended): on a non-empty list of processed points the selected
    index holds a nearest point.  No point has a distance below the
    selected one's, and no earlier point has a distance less than or
    equal to it; so, for distances that are numbers (not [NaN]), the
    selected distance is less than or equal to every other one, and
    among equally near points the first is selected.  The distance is
    the one the component computes: from the position to
    [(x, y * elevationMultiplier - yOffset, z)].  The laws of the order
    hold for binary64 numbers and in real arithmetic. *)
Theorem closestIndex_is_nearest (position : Triple) (trackData : list TrackPoint.t)
    (elevationMultiplier : num) (smoothingLevel : Z) (groundOffset : num) :
  let processedPoints := StartFinishLine_processedPoints trackData smoothingLevel in
  let yOffset :=
    sub (mul (processed_min_y processedPoints) elevationMultiplier) groundOffset in
  let dist := start_finish_dist position elevationMultiplier yOffset in
  let closestIndex :=
    StartFinishLine_closestIndex position trackData elevationMultiplier
      smoothingLevel groundOffset in
  processedPoints <> [] ->
  exists closest, processedPoints !! closestIndex = Some closest
    /\ forall j p, processedPoints !! j = Some p ->
         lt (dist p) (dist closest) = false
         /\ ((j < closestIndex)%nat -> le (dist p) (dist closest) = false)
         /\ (isNaN (dist p) = false -> isNaN (dist closest) = false ->
             le (dist closest) (dist p) = true
             /\ ((j < closestIndex)%nat -> lt (dist closest) (dist p) = true)).
Proof.
  intros processedPoints yOffset dist closestIndex Hne.
  subst closestIndex. unfold StartFinishLine_closestIndex.
  fold processedPoints. fold yOffset. fold dist.
  pose proof (closest_search_invariant dist processedPoints) as [Hbelow Hfirst].
  simpl in Hbelow, Hfirst.
  assert (exists closest, processedPoints !! (closest_search dist processedPoints).1
            = Some closest
          /\ (forall j p, processedPoints !! j = Some p ->
                lt (dist p) (dist closest) = false)
          /\ (forall j p, (j < (closest_search dist processedPoints).1)%nat ->
                processedPoints !! j = Some p -> le (dist p) (dist closest) = false))
    as (closest & Hsel & Hmin & Hties).
  { destruct Hfirst as [(pc & Hpc & Hd & Hties) | [Hc Hmd]].
    - exists pc. rewrite Hd. eauto.
    - rewrite Hc, Hmd in *.
      destruct processedPoints as [|p0 rest] eqn:Hpts; [done|].
      exists p0. split; [done|]. split; [|intros; lia].
      intros j p Hp. destruct (lt (dist p) (dist p0)) eqn:Hlt; [|done].
      rewrite <- (Hbelow j p Hp). symmetry. eapply (lt_infinity _ laws); eauto. }
  exists closest. split; [done|].
  intros j p Hp. split; [by eapply Hmin|]. split.
  - intros Hj. by eapply Hties.
  - intros Hnp Hnc. split.
    + apply (not_lt_le _ laws); eauto.
    + intros Hj.
      destruct (lt (dist closest) (dist p)) eqn:Hlt; [done|].
      pose proof (Hties j p Hj Hp) as Hfar.
      pose proof (not_lt_le _ laws _ _ Hnc Hnp Hlt) as Hnear.
      congruence.
Qed.
End ClosestFacts.

(** ** Elevation scaling in [TrackMesh] *)

Section ElevationFacts.
Context {N : JSNumber}.

(** Every processed point [(x, y, z)] becomes
    [(x, y * m - (minY * m - g), z)], in any number system. *)
Lemma TrackMesh_curve_points (trackData : list TrackPoint.t) (elevationMultiplier : num)
    (smoothingLevel : Z) (groundOffset : num) :
  (2 <= length (List.filter valid_point trackData))%nat ->
  let processedPoints := TrackMesh_processedPoints trackData smoothingLevel in
  let minY := processed_min_y processedPoints in
  exists points,
    TrackMesh_curve trackData elevationMultiplier smoothingLevel groundOffset
    = CatmullRomCurve3 points true centripetal half
    /\ length points = length processedPoints
    /\ forall i p, processedPoints !! i = Some p ->
         points !! i
         = Some (Vector3.new
                   (to_number (TrackPoint.x p))
                   (sub (mul (to_number (TrackPoint.y p)) elevationMultiplier)
                        (sub (mul minY elevationMultiplier) groundOffset))
                   (to_number (TrackPoint.z p))).
Proof.
  intros Hvalid processedPoints minY. unfold TrackMesh_curve.
  destruct (Nat.ltb_spec (length (List.filter valid_point trackData)) 2); [lia|].
  fold processedPoints. fold minY.
  eexists. split; [reflexivity|]. split; [apply length_map|].
  intros i p Hi.
  change (map ?f ?l) with (f <$> l).
  by rewrite list_lookup_fmap, Hi.
Qed.
End ElevationFacts.

Section ExactSmoothing.
Local Existing Instance Exact.number.
Import Exact.
Local Open Scope R_scope.
Implicit Types (points : list TrackPoint.t) (p : TrackPoint.t).

Lemma finite_point_fields p :
  finite_point p = true ->
  exists a b c, TrackPoint.x p = Some (Fin a) /\ TrackPoint.y p = Some (Fin b)
                /\ TrackPoint.z p = Some (Fin c).
Proof.
  unfold finite_point.
  destruct (TrackPoint.x p) as [[a| | |]|]; try done.
  destruct (TrackPoint.y p) as [[b| | |]|]; try done.
  destruct (TrackPoint.z p) as [[c| | |]|]; try done.
  intros _. by exists a, b, c.
Qed.

Lemma finite_point_all_numbers p : finite_point p = true -> all_numbers p = true.
Proof.
  intros (a & b & c & Hx & Hy & Hz)%finite_point_fields.
  unfold all_numbers. by rewrite Hx, Hy, Hz.
Qed.

Lemma sum_of_reals (xs : list num) : forall acc : R,
  Forall (fun x => exists r, x = Fin r) xs ->
  exists r, fold_left add xs (Fin acc) = Fin r.
Proof.
  induction xs as [|x xs IH]; intros acc Hxs; simpl; [by eexists|].
  inversion Hxs as [|? ? [r ->] Hrest]; subst. simpl. by apply IH.
Qed.

Lemma window_values_real (coord : TrackPoint.t -> option num) points (h : Z) (i : nat) :
  (forall p, finite_point p = true -> exists r, coord p = Some (Fin r)) ->
  Forall (fun p => finite_point p = true) points ->
  (i < length points)%nat -> (0 <= h)%Z -> (2 * h <= Z.of_nat (length points))%Z ->
  Forall (fun x => exists r, x = Fin r) (window_values coord points h i).
Proof.
  intros Hcoord Hfin Hi Hh Hlen. unfold window_values.
  apply Forall_forall. intros x Hx.
  apply list_elem_of_In, in_map_iff in Hx as (j & <- & Hj).
  apply for_range_bounds in Hj.
  destruct (lookupZ_in_range points
    (Z.rem (Z.of_nat i + j + Z.of_nat (length points)) (Z.of_nat (length points))))
    as (p & -> & Hp); [apply window_index_in_range with (h := h); lia|].
  rewrite Forall_forall in Hfin.
  destruct (Hcoord p (Hfin p (list_elem_of_lookup_2 _ _ _ Hp))) as [r Hr].
  simpl. rewrite Hr. by exists r.
Qed.

Lemma smoothed_point_finite points (h : Z) (i : nat) :
  Forall (fun p => finite_point p = true) points ->
  (i < length points)%nat -> (0 <= h)%Z -> (2 * h <= Z.of_nat (length points))%Z ->
  finite_point (smoothed_point points h i) = true.
Proof.
  intros Hfin Hi Hh Hlen.
  assert (INR (Z.to_nat (2 * h + 1)) <> 0) as Hsamples.
  { apply not_0_INR. lia. }
  assert (forall coord,
    (forall p, finite_point p = true -> exists r, coord p = Some (Fin r)) ->
    exists r, div (sum_from_zero (window_values coord points h i))
                  (of_nat (Z.to_nat (2 * h + 1))) = Fin r) as Hdiv.
  { intros coord Hcoord.
    destruct (sum_of_reals (window_values coord points h i) 0
                (window_values_real coord points h i Hcoord Hfin Hi Hh Hlen)) as [s Hs].
    unfold sum_from_zero. simpl in *. rewrite Hs. simpl.
    unfold Reqb. destruct (Req_dec_T _ 0); [done|]. by eexists. }
  unfold smoothed_point, finite_point.
  cbn [TrackPoint.x TrackPoint.y TrackPoint.z].
  destruct (Hdiv TrackPoint.x) as [rx ->].
  { intros p (a & b & c & Hx & Hy & Hz)%finite_point_fields. eauto. }
  destruct (Hdiv TrackPoint.y) as [ry ->].
  { intros p (a & b & c & Hx & Hy & Hz)%finite_point_fields. eauto. }
  destruct (Hdiv TrackPoint.z) as [rz ->].
  { intros p (a & b & c & Hx & Hy & Hz)%finite_point_fields. eauto. }
  done.
Qed.

(** Smoothing real points gives real points. *)
Lemma smoothPoints_finite points (level : Z) :
  (0 < level)%Z ->
  Forall (fun p => finite_point p = true) points ->
  Forall (fun p => finite_point p = true) (smoothPoints points level).
Proof.
  intros Hlevel Hfin.
  destruct (Nat.lt_ge_cases (length points) 3) as [Hshort|Hlong].
  - rewrite smoothPoints_unchanged; [done | by right].
  - rewrite smoothPoints_closed_form; [|done|lia|]; cycle 1.
    { eapply Forall_impl; [exact Hfin|]. apply finite_point_all_numbers. }
    destruct (halfWindow_bounds (Z.of_nat (length points)) level) as [Hh1 Hh2]; [lia..|].
    apply Forall_forall. intros q Hq.
    apply list_elem_of_In, in_map_iff in Hq as (i & <- & Hin).
    apply in_seq in Hin.
    apply smoothed_point_finite; (done || lia).
Qed.
End ExactSmoothing.

Section ExactElevation.
Local Existing Instance Exact.number.
Import Exact.
Local Open Scope R_scope.

Lemma min2_reals (a b : R) : Math_min2 (Fin a) (Fin b) = Fin (Rmin a b).
Proof.
  simpl. unfold xmin2, xlt, Rltb. simpl.
  destruct (Rlt_dec b a) as [Hlt|Hge]; f_equal.
  - rewrite Rmin_right; lra.
  - rewrite Rmin_left; lra.
Qed.

Lemma fold_min_reals (rs : list R) : forall a : R,
  exists b, fold_left Math_min2 (map Fin rs) (Fin a) = Fin b
    /\ b <= a /\ (forall r, In r rs -> b <= r) /\ (b = a \/ In b rs).
Proof.
  induction rs as [|r rs IH]; intros a; cbn [fold_left map].
  - exists a. repeat split; [lra | by intros r [] | by left].
  - rewrite min2_reals.
    destruct (IH (Rmin a r)) as (b & -> & Hle & Hall & Hin).
    exists b. pose proof (Rmin_l a r). pose proof (Rmin_r a r).
    repeat split; [lra | |].
    + intros r' [<- | Hr']; [lra | by apply Hall].
    + destruct Hin as [-> | Hin]; [|right; by right].
      unfold Rmin. destruct (Rle_dec a r); [by left | right; by left].
Qed.

(** [Math.min] of real numbers, at least one: the least of them. *)
Lemma Math_min_reals (rs : list R) :
  rs <> [] ->
  exists b, Math_min (map Fin rs) = Fin b /\ In b rs /\ forall r, In r rs -> b <= r.
Proof.
  destruct rs as [|r rs]; [done|]. intros _.
  unfold Math_min. cbn [fold_left map].
  change (@Math_min2 number (@infinity number) (Fin r)) with (Fin r).
  destruct (fold_min_reals rs r) as (b & Hb & Hle & Hall & Hin).
  exists b. split; [exact Hb|]. split.
  - destruct Hin as [-> | Hin]; [by left | by right].
  - intros r' [<- | Hr']; [done | by apply Hall].
Qed.

(** The y coordinates of real points. *)
Lemma finite_points_ys (points : list TrackPoint.t) :
  Forall (fun p => finite_point p = true) points ->
  exists ys : list R,
    map (fun p => to_number (TrackPoint.y p)) points = map Fin ys
    /\ length ys = length points.
Proof.
  induction 1 as [|p points Hp _ (ys & Hys & Hlen)]; [by exists []|].
  apply finite_point_fields in Hp as (a & b & c & Hx & Hy & Hz).
  exists (b :: ys). cbn [map length]. by rewrite Hy, Hys, Hlen.
Qed.

Lemma processedPoints_finite (trackData : list TrackPoint.t) (smoothingLevel : Z) :
  Forall (fun p => finite_point p = true) (List.filter valid_point trackData) ->
  Forall (fun p => finite_point p = true)
    (TrackMesh_processedPoints trackData smoothingLevel)
  /\ length (TrackMesh_processedPoints trackData smoothingLevel)
     = length (List.filter valid_point trackData).
Proof.
  intros Hfin. unfold TrackMesh_processedPoints.
  destruct (Z.ltb_spec 0 smoothingLevel) as [Hpos|Hoff]; [|done].
  split; [by apply smoothPoints_finite|].
  apply smoothPoints_length; [lia|].
  eapply Forall_impl; [exact Hfin|]. apply finite_point_all_numbers.
Qed.

(** In real arithmetic, for at least two valid points with real
    coordinates and a multiplier that is not negative, the least [y] of
    the curve points is [g]. *)
Lemma TrackMesh_least_height (trackData : list TrackPoint.t) (m g : R)
    (smoothingLevel : Z) :
  let validPoints := List.filter valid_point trackData in
  let processedPoints := TrackMesh_processedPoints trackData smoothingLevel in
  let minY := processed_min_y processedPoints in
  (2 <= length validPoints)%nat ->
  Forall (fun p => finite_point p = true) validPoints ->
  0 <= m ->
  exists points,
    TrackMesh_curve trackData (Fin m) smoothingLevel (Fin g)
    = CatmullRomCurve3 points true centripetal half
    /\ length points = length processedPoints
    /\ (forall i p, processedPoints !! i = Some p ->
          points !! i
          = Some (Vector3.new
                    (to_number (TrackPoint.x p))
                    (sub (mul (to_number (TrackPoint.y p)) (Fin m))
                         (sub (mul minY (Fin m)) (Fin g)))
                    (to_number (TrackPoint.z p))))
    /\ Math_min (map Vector3.y points) = Fin g.
Proof.
  intros validPoints processedPoints minY Hvalid Hfin Hm.
  destruct (processedPoints_finite trackData smoothingLevel Hfin) as [Hpfin Hplen].
  fold processedPoints in Hpfin, Hplen.
  destruct (finite_points_ys processedPoints Hpfin) as (ys & Hys & Hyslen).
  destruct (Math_min_reals ys) as (b & Hb & Hbin & Hble).
  { intros ->. simpl in Hyslen. subst validPoints. lia. }
  assert (minY = Fin b) as HminY.
  { subst minY. unfold processed_min_y. by rewrite Hys. }
  exists (map (@elevate number (Fin m) (@sub number (@mul number minY (Fin m)) (Fin g)))
              processedPoints).
  split; [|split; [apply length_map | split]].
  - unfold TrackMesh_curve. fold validPoints.
    destruct (Nat.ltb_spec (length validPoints) 2); [lia | done].
  - intros i p Hi.
    change (map ?f ?l) with (f <$> l).
    by rewrite list_lookup_fmap, Hi.
  - rewrite HminY.
    assert (map Vector3.y
              (map (@elevate number (Fin m) (@sub number (@mul number (Fin b) (Fin m)) (Fin g)))
                   processedPoints)
            = map Fin (map (fun y => y * m + - (b * m + - g)) ys)) as ->.
    { rewrite map_map.
      rewrite (map_map (fun y => y * m + - (b * m + - g)) Fin).
      change (map (fun y => Fin (y * m + - (b * m + - g))) ys)
        with (map (fun y => (fun v : xreal => xsub (xmul v (Fin m)) (Fin (b * m + - g)))
                              (Fin y)) ys).
      rewrite <- (map_map Fin (fun v : xreal => xsub (xmul v (Fin m)) (Fin (b * m + - g)))).
      rewrite <- Hys. by rewrite map_map. }
    destruct (Math_min_reals (map (fun y => y * m + - (b * m + - g)) ys))
      as (t & -> & Htin & Htle).
    { intros Hnil%(f_equal length). rewrite length_map in Hnil. simpl in Hnil.
      subst validPoints. lia. }
    f_equal. apply Rle_antisym.
    + assert (t <= b * m + - (b * m + - g)) as Ht; [|lra].
      apply Htle, in_map_iff. by exists b.
    + apply in_map_iff in Htin as (y & <- & Hy).
      pose proof (Hble y Hy). nra.
Qed.
End ExactElevation.

(** C4 (amended): for at least two valid points, in every number
    system and so in binary64, [TrackMesh] builds its closed curve
    through the images of the processed points, [(x, y, z)] going to
    [(x, y * m - (minY * m - g), z)] with [minY] the least processed
    [y], so that [x] and [z] are unchanged.  In real arithmetic, when
    the valid points have real coordinates and the multiplier [m] is
    not negative, the least [y] of the curve points is [g]. *)
Theorem TrackMesh_elevation :
  (forall (N : JSNumber) (trackData : list TrackPoint.t) (m : num) (smoothingLevel : Z)
          (g : num),
     (2 <= length (List.filter valid_point trackData))%nat ->
     let processedPoints := TrackMesh_processedPoints trackData smoothingLevel in
     let minY := processed_min_y processedPoints in
     exists points,
       TrackMesh_curve trackData m smoothingLevel g
       = CatmullRomCurve3 points true centripetal half
       /\ length points = length processedPoints
       /\ forall i p, processedPoints !! i = Some p ->
            points !! i
            = Some (Vector3.new
                      (to_number (TrackPoint.x p))
                      (sub (mul (to_number (TrackPoint.y p)) m) (sub (mul minY m) g))
                      (to_number (TrackPoint.z p))))
  /\ (forall (trackData : list (@TrackPoint.t Exact.number)) (m g : R) (smoothingLevel : Z),
       (2 <= length (List.filter (@valid_point Exact.number) trackData))%nat ->
       Forall (fun p => finite_point p = true)
         (List.filter (@valid_point Exact.number) trackData) ->
       (0 <= m)%R ->
       exists points,
         @TrackMesh_curve Exact.number trackData (Exact.Fin m) smoothingLevel (Exact.Fin g)
         = CatmullRomCurve3 points true centripetal (@half Exact.number)
         /\ @Math_min Exact.number (map Vector3.y points) = Exact.Fin g).
Proof.
  split.
  - intros N trackData m smoothingLevel g Hvalid. by apply TrackMesh_curve_points.
  - intros trackData m g smoothingLevel Hvalid Hfin Hm.
    destruct (TrackMesh_least_height trackData m g smoothingLevel Hvalid Hfin Hm)
      as (points & Hcurve & _ & _ & Hmin).
    by exists points.
Qed.

(** ** Ribbon extrusion *)

Section RibbonLoops.
Context {N : JSNumber}.
Implicit Types (pts : list Vector3.t) (vertices : list num).

Lemma push_pair_coordinates vertices (pr : Vector3.t * Vector3.t) :
  push_pair vertices pr = vertices ++ pair_coordinates pr.
Proof. by destruct pr. Qed.

Lemma vertex_pair_at_old vertices (six : list num) (i : nat) :
  (6 * i + 6 <= length vertices)%nat ->
  vertex_pair_at (vertices ++ six) i = vertex_pair_at vertices i.
Proof.
  intros Hlen. unfold vertex_pair_at.
  rewrite drop_app_le by lia.
  rewrite take_app_le; [done|]. rewrite length_drop. lia.
Qed.

Lemma vertex_pair_at_new vertices (six : list num) (i : nat) :
  length vertices = (6 * i)%nat -> length six = 6%nat ->
  vertex_pair_at (vertices ++ six) i = six.
Proof.
  intros Hlen Hsix. unfold vertex_pair_at.
  rewrite <- Hlen, drop_app_length. rewrite <- Hsix. apply firstn_all.
Qed.

(** What a ribbon loop has pushed after [k] samples, for a loop whose
    step pushes the pair of sample [i] and its successor. *)
Lemma ribbon_loop_invariant pts (halfWidth : num)
    (step : option (list num) -> nat -> option (list num)) :
  (forall vertices i point nextPoint,
      pts !! i = Some point -> pts !! ((i + 1) mod length pts)%nat = Some nextPoint ->
      step (Some vertices) i
      = Some (push_pair vertices (ribbon_pair halfWidth point nextPoint))) ->
  forall k, (k <= length pts)%nat ->
  exists vertices,
    fold_left step (seq 0 k) (Some []) = Some vertices
    /\ length vertices = (6 * k)%nat
    /\ forall i point nextPoint, (i < k)%nat ->
         pts !! i = Some point -> pts !! ((i + 1) mod length pts)%nat = Some nextPoint ->
         vertex_pair_at vertices i
         = pair_coordinates (ribbon_pair halfWidth point nextPoint).
Proof.
  intros Hstep. induction k as [|k IH]; intros Hk.
  - exists []. repeat split. intros; lia.
  - destruct IH as (vertices & Hfold & Hlen & Hpairs); [lia|].
    destruct (lookup_lt_is_Some_2 pts k) as [point Hpoint]; [lia|].
    destruct (lookup_lt_is_Some_2 pts ((k + 1) mod length pts)) as [nextPoint Hnext].
    { apply Nat.mod_upper_bound. lia. }
    exists (vertices ++ pair_coordinates (ribbon_pair halfWidth point nextPoint)).
    split; [|split].
    + rewrite seq_S, fold_left_app, Hfold. simpl.
      by rewrite (Hstep _ _ _ _ Hpoint Hnext), push_pair_coordinates.
    + rewrite length_app, Hlen. simpl. lia.
    + intros i p n Hi Hp Hn.
      destruct (decide (i = k)) as [->|Hne].
      * rewrite vertex_pair_at_new by done. congruence.
      * rewrite vertex_pair_at_old by lia. apply Hpairs; (done || lia).
Qed.

Lemma TrackMesh_ribbon_step_spec pts (halfWidth : num) vertices i point nextPoint :
  pts !! i = Some point -> pts !! ((i + 1) mod length pts)%nat = Some nextPoint ->
  TrackMesh_ribbon_step pts halfWidth (Some vertices) i
  = Some (push_pair vertices (ribbon_pair halfWidth point nextPoint)).
Proof. intros Hp Hn. unfold TrackMesh_ribbon_step. simpl. by rewrite Hp, Hn. Qed.

Lemma AlternateRouteTrack_ribbon_step_spec pts (halfWidth : num) vertices i point nextPoint :
  pts !! i = Some point -> pts !! ((i + 1) mod length pts)%nat = Some nextPoint ->
  AlternateRouteTrack_ribbon_step pts halfWidth (Some vertices) i
  = Some (push_pair vertices (ribbon_pair halfWidth point nextPoint)).
Proof.
  intros Hp Hn. unfold AlternateRouteTrack_ribbon_step. simpl. rewrite Hp. simpl.
  rewrite Nat.min_l, Hn; [done|].
  apply lookup_lt_Some in Hn. lia.
Qed.

Lemma ribbon_steps_agree pts (halfWidth : num) (acc : option (list num)) (i : nat) :
  (i < length pts)%nat ->
  AlternateRouteTrack_ribbon_step pts halfWidth acc i
  = TrackMesh_ribbon_step pts halfWidth acc i.
Proof.
  intros Hi. unfold AlternateRouteTrack_ribbon_step, TrackMesh_ribbon_step.
  rewrite Nat.min_l; [done|].
  pose proof (Nat.mod_upper_bound (i + 1) (length pts)). lia.
Qed.

Lemma ribbon_loops_agree pts (trackWidth : num) :
  AlternateRouteTrack_ribbonVertices pts trackWidth
  = TrackMesh_ribbonVertices pts trackWidth.
Proof.
  unfold AlternateRouteTrack_ribbonVertices, TrackMesh_ribbonVertices.
  generalize (Some (@nil num)).
  assert (forall i, In i (seq 0 (length pts)) -> (i < length pts)%nat) as Hin.
  { intros i Hi%in_seq. lia. }
  revert Hin. generalize (seq 0 (length pts)).
  induction l as [|i l IH]; intros Hin acc; simpl; [done|].
  rewrite ribbon_steps_agree by (apply Hin; by left).
  apply IH. intros j Hj. apply Hin. by right.
Qed.

(** Both ribbon loops push, for every sample, the pair computed from
    the sample and the next one (the first one after the last). *)
Lemma ribbonVertices_pairs pts (trackWidth : num) :
  exists vertices,
    TrackMesh_ribbonVertices pts trackWidth = Some vertices
    /\ AlternateRouteTrack_ribbonVertices pts trackWidth = Some vertices
    /\ length vertices = (6 * length pts)%nat
    /\ forall i point nextPoint,
         pts !! i = Some point -> pts !! ((i + 1) mod length pts)%nat = Some nextPoint ->
         vertex_pair_at vertices i
         = pair_coordinates (ribbon_pair (mul trackWidth half) point nextPoint).
Proof.
  destruct (ribbon_loop_invariant pts (mul trackWidth half)
              (TrackMesh_ribbon_step pts (mul trackWidth half))
              (TrackMesh_ribbon_step_spec pts _) (length pts) (le_n _))
    as (vertices & Hfold & Hlen & Hpairs).
  exists vertices. rewrite ribbon_loops_agree. repeat split; try done.
  intros i point nextPoint Hp Hn. apply Hpairs; [|done..].
  by eapply lookup_lt_Some.
Qed.
End RibbonLoops.

Section ExactRibbon.
Local Existing Instance Exact.number.
Import Exact.
Local Open Scope R_scope.

Lemma sum_squares_nonneg (a b c : R) : 0 <= a * a + b * b + c * c.
Proof. nra. Qed.

Lemma length_real (a b c : R) :
  Vector3.length (real_vector (a, b, c)) = Fin (R_sqrt.sqrt (a * a + b * b + c * c)).
Proof.
  unfold Vector3.length, real_vector. simpl. unfold Rltb.
  destruct (Rlt_dec _ 0) as [Hneg|_]; [|done].
  pose proof (sum_squares_nonneg a b c). lra.
Qed.

(** Normalising a non-zero real vector scales it by the inverse of
    its length. *)
Lemma normalize_real (a b c : R) :
  0 < a * a + b * b + c * c ->
  let s := 1 / R_sqrt.sqrt (a * a + b * b + c * c) in
  Vector3.normalize (real_vector (a, b, c)) = real_vector (a * s, b * s, c * s).
Proof.
  intros Hpos s. subst s.
  pose proof (sqrt_lt_R0 _ Hpos) as Hlen.
  unfold Vector3.normalize, or_else, truthy. rewrite length_real. simpl.
  unfold Reqb. destruct (Req_dec_T _ 0) as [Hz|_]; [lra|]. simpl.
  unfold Vector3.divideScalar, Vector3.multiplyScalar. simpl.
  unfold Reqb. destruct (Req_dec_T _ 0) as [Hz|_]; [lra|]. done.
Qed.

(** A zero vector is left as it is (divided by one). *)
Lemma normalize_null (a b c : R) :
  a * a + b * b + c * c = 0 ->
  Vector3.normalize (real_vector (a, b, c)) = real_vector (a * (1 / 1), b * (1 / 1), c * (1 / 1)).
Proof.
  intros Hnull.
  unfold Vector3.normalize, or_else, truthy. rewrite length_real, Hnull, sqrt_0. simpl.
  unfold Reqb. destruct (Req_dec_T 0 0) as [_|Hz]; [|done]. simpl.
  unfold Vector3.divideScalar, Vector3.multiplyScalar. simpl.
  unfold Reqb. destruct (Req_dec_T 1 0) as [Hz|_]; [lra|]. done.
Qed.

Lemma real_vector_eq (a b c a' b' c' : R) :
  a = a' -> b = b' -> c = c' -> real_vector (a, b, c) = real_vector (a', b', c').
Proof. by intros -> -> ->. Qed.

(** The length of the horizontal perpendicular of a scaled step. *)
Lemma perpendicular_length (dx dz s : R) :
  0 <= s ->
  R_sqrt.sqrt (- (dz * s) * - (dz * s) + 0 * 0 + dx * s * (dx * s))
  = R_sqrt.sqrt (dx * dx + dz * dz) * s.
Proof.
  intros Hs.
  replace (- (dz * s) * - (dz * s) + 0 * 0 + dx * s * (dx * s))
    with ((dx * dx + dz * dz) * (s * s)) by ring.
  rewrite sqrt_mult_alt by nra.
  by rewrite sqrt_square.
Qed.

(** The vertex pair of a sample whose successor differs in x or z. *)
Lemma ribbon_pair_real (p n : R * R * R) (w : R) :
  let dx := n.1.1 - p.1.1 in
  let dz := n.2 - p.2 in
  let rho := R_sqrt.sqrt (dx * dx + dz * dz) in
  dx <> 0 \/ dz <> 0 ->
  ribbon_pair (mul (Fin w) half) (real_vector p) (real_vector n)
  = (real_vector (p.1.1 + - dz / rho * (w / 2), p.1.2, p.2 + dx / rho * (w / 2)),
     real_vector (p.1.1 - - dz / rho * (w / 2), p.1.2, p.2 - dx / rho * (w / 2))).
Proof.
  destruct p as [[px py] pz], n as [[nx ny] nz]. simpl.
  intros Hstep.
  set (dx := nx - px) in *. set (dy := ny - py). set (dz := nz - pz) in *.
  assert (0 < dx * dx + dz * dz) as Hrho2.
  { destruct Hstep as [Hnz|Hnz]; apply Rsqr_pos_lt in Hnz; unfold Rsqr in Hnz; nra. }
  pose proof (sqrt_lt_R0 _ Hrho2) as Hrho.
  assert (0 < dx * dx + dy * dy + dz * dz) as Hlen2 by nra.
  pose proof (sqrt_lt_R0 _ Hlen2) as Hlen.
  set (rho := R_sqrt.sqrt (dx * dx + dz * dz)) in *.
  set (len := R_sqrt.sqrt (dx * dx + dy * dy + dz * dz)) in *.
  unfold ribbon_pair.
  change (Vector3.subVectors (real_vector (nx, ny, nz)) (real_vector (px, py, pz)))
    with (real_vector (nx + - px, ny + - py, nz + - pz)).
  replace (nx + - px) with dx by (subst dx; ring).
  replace (ny + - py) with dy by (subst dy; ring).
  replace (nz + - pz) with dz by (subst dz; ring).
  rewrite normalize_real by done. fold len.
  change (Vector3.new (neg (Vector3.z (real_vector (dx * (1 / len), dy * (1 / len), dz * (1 / len)))))
                      zero
                      (Vector3.x (real_vector (dx * (1 / len), dy * (1 / len), dz * (1 / len)))))
    with (real_vector (- (dz * (1 / len)), 0, dx * (1 / len))).
  assert (0 < 1 / len) as Hs by (apply Rdiv_lt_0_compat; lra).
  rewrite normalize_real; cycle 1.
  { replace (- (dz * (1 / len)) * - (dz * (1 / len)) + 0 * 0 + dx * (1 / len) * (dx * (1 / len)))
      with ((dx * dx + dz * dz) * ((1 / len) * (1 / len))) by ring.
    apply Rmult_lt_0_compat; nra. }
  rewrite perpendicular_length by lra. fold rho.
  unfold Vector3.addVectors, Vector3.multiplyScalar, real_vector. simpl.
  f_equal; apply real_vector_eq; field; lra.
Qed.

(** The vertex pair of a sample whose successor is straight above or
    below it, or at the same place: both vertices are the sample. *)
Lemma ribbon_pair_vertical (p n : R * R * R) (w : R) :
  n.1.1 - p.1.1 = 0 -> n.2 - p.2 = 0 ->
  ribbon_pair (mul (Fin w) half) (real_vector p) (real_vector n)
  = (real_vector p, real_vector p).
Proof.
  destruct p as [[px py] pz], n as [[nx ny] nz]. simpl.
  intros Hdx Hdz.
  set (dy := ny - py).
  unfold ribbon_pair.
  change (Vector3.subVectors (real_vector (nx, ny, nz)) (real_vector (px, py, pz)))
    with (real_vector (nx + - px, ny + - py, nz + - pz)).
  replace (nx + - px) with 0 by lra.
  replace (ny + - py) with dy by (subst dy; ring).
  replace (nz + - pz) with 0 by lra.
  assert (exists s, Vector3.normalize (real_vector (0, dy, 0))
                    = real_vector (0 * s, dy * s, 0 * s)) as [s ->].
  { destruct (Req_dec_T dy 0) as [Hdy|Hdy].
    - eexists. apply normalize_null. rewrite Hdy. ring.
    - eexists. apply normalize_real. nra. }
  change (Vector3.new (neg (Vector3.z (real_vector (0 * s, dy * s, 0 * s))))
                      zero (Vector3.x (real_vector (0 * s, dy * s, 0 * s))))
    with (real_vector (- (0 * s), 0, 0 * s)).
  rewrite normalize_null by ring.
  unfold Vector3.addVectors, Vector3.multiplyScalar, real_vector. simpl.
  f_equal; apply real_vector_eq; ring.
Qed.
End ExactRibbon.

Section ExactCrossSection.
Local Existing Instance Exact.number.
Import Exact.
Local Open Scope R_scope.

Lemma real_vector_lookup (samples : list (R * R * R)) (i : nat) :
  map real_vector samples !! i = real_vector <$> samples !! i.
Proof. change (map ?f ?l) with (f <$> l). apply list_lookup_fmap. Qed.

Lemma unit_perpendicular (dx dz : R) :
  dx <> 0 \/ dz <> 0 ->
  let rho := R_sqrt.sqrt (dx * dx + dz * dz) in
  - dz / rho * (- dz / rho) + dx / rho * (dx / rho) = 1
  /\ - dz / rho * dx + dx / rho * dz = 0.
Proof.
  intros Hstep rho.
  assert (0 < dx * dx + dz * dz) as Hrho2.
  { destruct Hstep as [Hnz|Hnz]; apply Rsqr_pos_lt in Hnz; unfold Rsqr in Hnz; nra. }
  pose proof (sqrt_lt_R0 _ Hrho2) as Hrho. fold rho in Hrho.
  assert (rho * rho = dx * dx + dz * dz) as Hsq by (apply sqrt_sqrt; lra).
  split; [|field; lra].
  replace (- dz / rho * (- dz / rho) + dx / rho * (dx / rho))
    with ((dx * dx + dz * dz) / (rho * rho)) by (field; lra).
  rewrite Hsq. field. lra.
Qed.

(** C5 (amended): in real arithmetic, both ribbon loops place exactly
    two vertices for every sample.  With [(dx, dy, dz)] the step to the
    next sample and [u = (-dz, 0, dx) / sqrt (dx^2 + dz^2)] (the
    normalised [(-d.z, 0, d.x)], a horizontal unit vector at a right
    angle to the step), a sample whose step is not vertical gets the
    vertices [point + (w/2) u] and [point - (w/2) u]: at the height of
    the sample, centred on it and [|w|] apart.  A sample whose step has
    [dx = dz = 0] gets the sample itself twice. *)
Theorem ribbon_cross_section (samples : list (R * R * R)) (w : R) :
  let pts := map real_vector samples in
  exists vertices,
    TrackMesh_ribbonVertices pts (Fin w) = Some vertices
    /\ AlternateRouteTrack_ribbonVertices pts (Fin w) = Some vertices
    /\ length vertices = (6 * length samples)%nat
    /\ forall i p n,
         samples !! i = Some p ->
         samples !! ((i + 1) mod length samples)%nat = Some n ->
         let dx := n.1.1 - p.1.1 in
         let dz := n.2 - p.2 in
         let rho := R_sqrt.sqrt (dx * dx + dz * dz) in
         let ux := - dz / rho in
         let uz := dx / rho in
         (dx <> 0 \/ dz <> 0 ->
            vertex_pair_at vertices i
            = map Fin [p.1.1 + ux * (w / 2); p.1.2; p.2 + uz * (w / 2);
                       p.1.1 - ux * (w / 2); p.1.2; p.2 - uz * (w / 2)]
            /\ ux * ux + uz * uz = 1
            /\ ux * dx + uz * dz = 0)
         /\ (dx = 0 /\ dz = 0 ->
             vertex_pair_at vertices i
             = map Fin [p.1.1; p.1.2; p.2; p.1.1; p.1.2; p.2]).
Proof.
  intros pts.
  destruct (ribbonVertices_pairs pts (Fin w)) as (vertices & Hmesh & Hroute & Hlen & Hpairs).
  exists vertices. split; [done|]. split; [done|]. split.
  { rewrite Hlen. subst pts. by rewrite length_map. }
  intros i p n Hp Hn dx dz rho ux uz.
  assert (vertex_pair_at vertices i
          = pair_coordinates
              (ribbon_pair (mul (Fin w) half) (real_vector p) (real_vector n))) as Hpair.
  { apply Hpairs; subst pts.
    - by rewrite real_vector_lookup, Hp.
    - by rewrite length_map, real_vector_lookup, Hn. }
  split.
  - intros Hstep. split; [|by apply unit_perpendicular].
    by rewrite Hpair, ribbon_pair_real.
  - intros [Hdx Hdz].
    by rewrite Hpair, ribbon_pair_vertical.
Qed.
End ExactCrossSection.

(** ** The code on concrete inputs *)

Section OnBinary64.
#[local] Set Warnings "-inexact-float".
Local Existing Instance Float64.number.
Local Open Scope float_scope.

(** C1: on the four points with x = 0, 10, 20, 30 and level 2 the
    window size is [min(5, 4) = 4], and every window of four
    neighbouring points is the whole circle, with mean x = 15 wherever
    it starts.  [smoothPoints] reads the five positions [i - 2 .. i + 2],
    so the point opposite to [i] is added twice and the sum is divided
    by five: it returns x = 16, 18, 12, 14. *)
Theorem smoothPoints_even_window_counts_twice :
  map TrackPoint.x (smoothPoints Data.four_points 2)
  = [Some 16; Some 18; Some 12; Some 14]
  /\ map (fun start =>
            mean (omap TrackPoint.x (circular_window Data.four_points start 4)))
         [-2; -1; 0; 1]%Z
     = [15; 15; 15; 15].
Proof. split; vm_compute; reflexivity. Qed.

(** With level 1 on the same points the window has three positions and
    each output is the mean of the point and its two neighbours. *)
Example smoothPoints_level_1 :
  map TrackPoint.x (smoothPoints Data.four_points 1)
  = map (fun start =>
           Some (mean (omap TrackPoint.x (circular_window Data.four_points start 3))))
        [-1; 0; 1; 2]%Z.
Proof. vm_compute. reflexivity. Qed.

(** C4, as stated, fails for a negative multiplier: with [m = -1] and
    [g = 3] the four points with y = 0, 1, 2, 3 go to the heights
    3, 2, 1, 0, whose least is 0 and not 3. *)
Lemma TrackMesh_negative_multiplier :
  exists points,
    TrackMesh_curve Data.four_points (-1) 0 3
    = CatmullRomCurve3 points true centripetal half
    /\ map Vector3.y points = [3; 2; 1; 0]
    /\ Math_min (map Vector3.y points) = 0
    /\ strict_eq (Math_min (map Vector3.y points)) 3 = false.
Proof. eexists. split; [vm_compute; reflexivity|]. repeat split. Qed.

(** The least height is not [g] either when a height is [-Infinity]
    (such a point passes the validity filter): the result is [NaN]. *)
Example TrackMesh_infinite_depth :
  exists points,
    TrackMesh_curve
      [TrackPoint.new (Some 0) (Some neg_infinity) (Some 0) None None;
       TrackPoint.new (Some 1) (Some 1) (Some 0) None None] 2 0 3
    = CatmullRomCurve3 points true centripetal half
    /\ isNaN (Math_min (map Vector3.y points)) = true.
Proof. eexists. split; vm_compute; reflexivity. Qed.

(** In binary64 the least height is [g] up to rounding only: for the
    heights 1e16 and 2e16, [m = 1] and [g = 1] it is 0. *)
Example TrackMesh_rounded_offset :
  exists points,
    TrackMesh_curve
      [TrackPoint.new (Some 0) (Some 1e16) (Some 0) None None;
       TrackPoint.new (Some 1) (Some 2e16) (Some 0) None None] 1 0 1
    = CatmullRomCurve3 points true centripetal half
    /\ Math_min (map Vector3.y points) = 0.
Proof. eexists. split; vm_compute; reflexivity. Qed.

(** C5, as stated, fails at a vertical step: the sample [(0, 0, 0)] has
    the distinct successor [(0, 1, 0)], and for the width 3 both of its
    vertices are [(0, 0, 0)]; likewise for the second sample. *)
Lemma ribbon_vertical_step_collapses :
  TrackMesh_ribbonVertices Data.vertical_step 3
  = Some [0; 0; 0; 0; 0; 0; 0; 1; 0; 0; 1; 0]
  /\ AlternateRouteTrack_ribbonVertices Data.vertical_step 3
     = Some [0; 0; 0; 0; 0; 0; 0; 1; 0; 0; 1; 0].
Proof. split; vm_compute; reflexivity. Qed.

(** At a sloping step the offset is along the normalised
    perpendicular: for the step [(3, 4, 0)], where [(-d.z, 0, d.x)] is
    [(0, 0, 0.6)], the vertices are 1.5 to either side, not 0.9. *)
Example ribbon_sloping_step :
  TrackMesh_ribbonVertices [Vector3.new 0 0 0; Vector3.new 3 4 0] 3
  = Some [0; 0; 1.5; 0; 0; -1.5; 3; 4; -1.5; 3; 4; 1.5].
Proof. vm_compute. reflexivity. Qed.

(** The path of the route ["bypass-3"]: two straight lines, then one
    curve through the last five points; the three entries after the first
    curve entry add nothing. *)
Example curvePath_bypass_3 :
  match route_allPoints Data.bypass_3 with
  | [p0; p1; p2; p3; p4; p5; p6] =>
      AlternateRouteTrack_curvePath Data.bypass_3
      = Some [LineCurve3 p0 p1; LineCurve3 p1 p2;
              CatmullRomCurve3 [p2; p3; p4; p5; p6] false centripetal 0]
  | _ => False
  end.
Proof. vm_compute. reflexivity. Qed.

(** Deleting the only control point of ["bypass-2"] leaves it without
    control points. *)
Example deleteControlPoint_bypass_2 :
  map AlternateRoute.controlPoints
      (deleteControlPoint "bypass-2" 0 [Data.bypass_3; Data.bypass_2])
  = [AlternateRoute.controlPoints Data.bypass_3; None].
Proof. vm_compute. reflexivity. Qed.

(** Editing the z coordinate of the second control point of
    ["bypass-3"] changes that number only; an index past the control
    points of the edited route throws. *)
Example updateControlPoint_bypass_3 :
  (map AlternateRoute.controlPoints
     <$> updateControlPoint "bypass-3" 1 coord2 20 [Data.bypass_2; Data.bypass_3])
  = Some [AlternateRoute.controlPoints Data.bypass_2;
          Some [(-77.8, 8.5, 7.1); (-77.8, 8.5, 20); (-80.5, 8.5, 23.0);
                (-85.0, 8.5, 25.0); (-90.0, 8.5, 26.0)]]
  /\ updateControlPoint "bypass-2" 1 coord2 20 [Data.bypass_2; Data.bypass_3] = None.
Proof. split; vm_compute; reflexivity. Qed.

(** Adding a point parsed from ["1.5"], the empty string and ["abc"],
    for a parser that gives [NaN] on the last two. *)
Example addControlPoint_bypass_2 :
  map AlternateRoute.controlPoints
      (addControlPoint (fun s => if String.eqb s "1.5" then 1.5 else nan)
         "1.5" "" "abc" "bypass-2" [Data.bypass_2])
  = [Some [(20.71, 6.24, 26.91); (1.5, 0, 0)]].
Proof. vm_compute. reflexivity. Qed.

(** Smoothing keeps the [distance] and [sector] of every position. *)
Example smoothPoints_four_points_frame :
  map TrackPoint.distance (smoothPoints Data.four_points 2)
  = map TrackPoint.distance Data.four_points
  /\ map TrackPoint.sector (smoothPoints Data.four_points 2)
     = map TrackPoint.sector Data.four_points.
Proof. split; vm_compute; reflexivity. Qed.

(** C3, as stated, fails when a distance is [NaN]: one height that is
    [NaN] makes [minY], and with it every distance, [NaN]; no comparison
    succeeds, index 0 stays selected, and its distance is not less than
    or equal to the distance at index 1. *)
Lemma closestIndex_NaN_distance :
  let position : Triple := (10, 5, 0) in
  let processedPoints := StartFinishLine_processedPoints Data.nan_height_points 0 in
  let yOffset := sub (mul (processed_min_y processedPoints) 2) 3 in
  let dist := start_finish_dist position 2 yOffset in
  StartFinishLine_closestIndex position Data.nan_height_points 2 0 3 = 0%nat
  /\ map dist processedPoints = [nan; nan; nan]
  /\ exists closest, processedPoints !! 0%nat = Some closest
       /\ map (fun p => le (dist closest) (dist p)) processedPoints = [false; false; false].
Proof.
  split; [vm_compute; reflexivity|]. split; [vm_compute; reflexivity|].
  eexists. split; [reflexivity|]. vm_compute. reflexivity.
Qed.

(** C10 at the route ["bypass-3"], which has two straight entries
    before its first curve entry and five control points. *)
Lemma curvePath_in_range_bypass_3 :
  (straights_before_curve [straight; straight; curve; curve; curve; curve] <= 5 + 1)%nat
  /\ is_Some (AlternateRouteTrack_curvePath Data.bypass_3)
  /\ forall currentIndex, (currentIndex < 2)%nat ->
       is_Some (route_allPoints Data.bypass_3 !! currentIndex)
       /\ is_Some (route_allPoints Data.bypass_3 !! (currentIndex + 1)%nat).
Proof.
  split; [simpl; lia|].
  apply (curvePath_in_range Data.bypass_3
           [straight; straight; curve; curve; curve; curve] eq_refl).
  simpl. lia.
Defined.

(** C3 at the four points, smoothed with level 2, searched from the
    position [(10, 5, 0)]. *)
Lemma closestIndex_is_nearest_four_points :
  let position : Triple := (10, 5, 0) in
  let processedPoints := StartFinishLine_processedPoints Data.four_points 2 in
  let yOffset := sub (mul (processed_min_y processedPoints) 2) 3 in
  let dist := start_finish_dist position 2 yOffset in
  let closestIndex := StartFinishLine_closestIndex position Data.four_points 2 2 3 in
  exists closest, processedPoints !! closestIndex = Some closest
    /\ forall j p, processedPoints !! j = Some p ->
         lt (dist p) (dist closest) = false
         /\ ((j < closestIndex)%nat -> le (dist p) (dist closest) = false)
         /\ (isNaN (dist p) = false -> isNaN (dist closest) = false ->
             le (dist closest) (dist p) = true
             /\ ((j < closestIndex)%nat -> lt (dist closest) (dist p) = true)).
Proof.
  apply (closestIndex_is_nearest Float64Facts.float64_order_laws
           (10, 5, 0) Data.four_points 2 2 3).
  vm_compute. discriminate.
Defined.
(** C2, as stated, fails for a route with more straight entries than
    it has points to join: the route ["chicane-bypass-1"] has no control
    points, and with the segments [["straight", "straight"]] the second
    entry reads the point after the end point, which throws; no path is
    built. *)
Lemma curvePath_straight_past_the_end :
  let route :=
    AlternateRoute.new "chicane-bypass-1" "Chicane Bypass 1"
      (82.92379760742188, 3.5464000701904297, 89.04920196533203)
      (119.6622314453125, 5.533458232879639, 51.2724723815918)
      None (Some [straight; straight]) in
  length (route_allPoints route) = 2%nat
  /\ AlternateRouteTrack_curvePath route = None.
Proof. split; vm_compute; reflexivity. Qed.

(** C2 at the route ["bypass-3"], whose two straight entries are
    followed by a curve entry: two lines, then the curve through the
    points from the third on. *)
Lemma curvePath_construction_bypass_3 :
  exists lines,
    AlternateRouteTrack_curvePath Data.bypass_3
    = Some (lines ++ [CatmullRomCurve3 (drop 2 (route_allPoints Data.bypass_3))
                        false centripetal zero])
    /\ length lines = 2%nat.
Proof.
  destruct (curvePath_construction Data.bypass_3) as (Hall & _ & Hcurve & _).
  destruct (Hcurve 2%nat [curve; curve; curve] eq_refl) as (lines & Hpath & Hlen & _).
  { simpl. lia. }
  exists lines. rewrite Hall. by split.
Defined.

(** In binary64 the least height need not be [g] for finite heights
    either: for the heights 1e308 and 1.5e308 and [m = 50] the products
    overflow and every height of the curve is [NaN]. *)
Example TrackMesh_overflow :
  exists points,
    TrackMesh_curve
      [TrackPoint.new (Some 0) (Some 1e308) (Some 0) None None;
       TrackPoint.new (Some 1) (Some 1.5e308) (Some 0) None None] 50 0 3
    = CatmullRomCurve3 points true centripetal half
    /\ map (fun v => isNaN (Vector3.y v)) points = [true; true].
Proof. eexists. split; vm_compute; reflexivity. Qed.

(** In binary64 the cross-section is not [w] wide at every step that
    is not vertical: for the step [(1e-200, 0, 0)] the length of the
    step underflows to 0, no vector is normalised, and the vertices are
    3e-200 apart for the width 3; for the step [(1e200, 0, 0)] the
    length overflows and both vertices are the sample. *)
Example ribbon_tiny_and_huge_steps :
  vertex_pair_at
    (default [] (TrackMesh_ribbonVertices [Vector3.new 0 0 0; Vector3.new 1e-200 0 0] 3)) 0
  = [0; 0; 1.5e-200; 0; 0; -1.5e-200]
  /\ vertex_pair_at
       (default [] (TrackMesh_ribbonVertices [Vector3.new 0 0 0; Vector3.new 1e200 0 0] 3)) 0
     = [0; 0; 0; 0; 0; 0].
Proof. split; vm_compute; reflexivity. Qed.
End OnBinary64.

Section OnReals.
Local Existing Instance Exact.number.
Import Exact.
Local Open Scope R_scope.

(** C4 at two real points, with [m = 2], [g = 3] and no smoothing:
    the heights 1 and 3 go to 3 and 7. *)
Lemma TrackMesh_elevation_two_points :
  (2 <= length (List.filter valid_point RealData.two_points))%nat
  /\ 0 <= 2
  /\ exists points,
       TrackMesh_curve RealData.two_points (Fin 2) 0 (Fin 3)
       = CatmullRomCurve3 points true centripetal half
       /\ Math_min (map Vector3.y points) = Fin 3.
Proof.
  split; [simpl; lia|]. split; [lra|].
  apply (proj2 TrackMesh_elevation RealData.two_points 2 3 0%Z).
  - simpl. lia.
  - repeat constructor.
  - lra.
Defined.

(** C5 at the step from [(0, 0, 0)] to [(3, 1, 4)], for the width 2:
    the horizontal unit vector at a right angle to the step is
    [(-4/5, 0, 3/5)], and the two vertices of the first sample are the
    sample moved by it and against it. *)
Lemma ribbon_cross_section_sloping_step :
  exists vertices,
    TrackMesh_ribbonVertices (map real_vector [(0, 0, 0); (3, 1, 4)]) (Fin 2) = Some vertices
    /\ AlternateRouteTrack_ribbonVertices (map real_vector [(0, 0, 0); (3, 1, 4)]) (Fin 2)
       = Some vertices
    /\ vertex_pair_at vertices 0 = map Fin [- 4 / 5; 0; 3 / 5; 4 / 5; 0; - 3 / 5].
Proof.
  destruct (ribbon_cross_section [(0, 0, 0); (3, 1, 4)] 2)
    as (vertices & Hmesh & Hroute & _ & Hpairs).
  exists vertices. split; [exact Hmesh|]. split; [exact Hroute|].
  destruct (Hpairs 0%nat (0, 0, 0) (3, 1, 4) eq_refl eq_refl) as [Hstep _].
  destruct Hstep as (Hpair & _ & _); [left; simpl; lra|].
  rewrite Hpair. simpl.
  replace ((3 - 0) * (3 - 0) + (4 - 0) * (4 - 0)) with (5 * 5) by lra.
  rewrite sqrt_square by lra.
  repeat f_equal; lra.
Defined.
End OnReals.

(** ** Placing points by click, editing in sequence, visibility *)

Section RouteSelectionFacts.
Context {N : JSNumber}.
Variable Number_parseFloat : string -> num.
Import AlternateRoute.

Lemma with_controlPoints_same (route : t) :
  with_controlPoints route (controlPoints route) = route.
Proof. by destruct route. Qed.

Lemma with_controlPoints_twice (route : t) cps cps' :
  with_controlPoints (with_controlPoints route cps) cps' = with_controlPoints route cps'.
Proof. by destruct route. Qed.

Lemma filter_index_out_of_range {A} (arr : list A) k :
  (length arr <= k)%nat ->
  filter_index (fun i => negb (Nat.eqb i k)) arr = arr.
Proof.
  intros Hk. rewrite filter_index_remove.
  rewrite take_ge by lia. rewrite drop_ge by lia. by rewrite app_nil_r.
Qed.

Lemma filter_index_last {A} (arr : list A) a :
  filter_index (fun i => negb (Nat.eqb i (length arr))) (arr ++ [a]) = arr.
Proof.
  rewrite filter_index_remove.
  rewrite take_app_length. rewrite drop_ge; [by rewrite app_nil_r|].
  rewrite length_app. simpl. lia.
Qed.

(** X1: placing a point by a scene click and then deleting the point
    at the position it was given restores every route that had that
    many control points; a route without points stays without. *)
Theorem handleSceneClick_then_delete (isClickToPlaceMode : bool) (selected : string)
    (position : Triple) (routes : list t) (i : nat) (route : t) :
  routes !! i = Some route ->
  controlPoints route <> Some [] ->
  deleteControlPoint selected (length (default [] (controlPoints route)))
    (handleSceneClick isClickToPlaceMode (Some selected) position routes) !! i
  = Some route.
Proof.
  intros Hi Hne. unfold deleteControlPoint, handleSceneClick.
  change (map ?f ?l) with (f <$> l).
  destruct (isClickToPlaceMode && negb (String.eqb selected EmptyString)) eqn:Hmode.
  - rewrite !list_lookup_fmap, Hi. simpl. f_equal.
    destruct (String.eqb_spec (id route) selected) as [Heq|Hneq].
    + destruct route as [rid rname rstart rend rcps rsegs]; simpl in *.
      rewrite (proj2 (String.eqb_eq rid selected) Heq).
      rewrite filter_index_last.
      destruct rcps as [[|p cps]|]; simpl; [done|done|done].
    + destruct (controlPoints route); [|done].
      by rewrite (proj2 (String.eqb_neq _ _) Hneq).
  - rewrite list_lookup_fmap, Hi. simpl. f_equal.
    destruct (controlPoints route) as [cps|] eqn:Hcps; [|done].
    destruct (String.eqb (id route) selected); [|done].
    simpl. rewrite filter_index_out_of_range by lia.
    destruct cps as [|p cps]; [done|]. simpl.
    rewrite <- Hcps. apply with_controlPoints_same.
Qed.

(** The two ways of adding a point agree: the form's [addControlPoint]
    is a click at the parsed coordinates. *)
Lemma addControlPoint_as_click (newPointX newPointY newPointZ routeId : string)
    (routes : list t) :
  routeId <> EmptyString ->
  addControlPoint Number_parseFloat newPointX newPointY newPointZ routeId routes
  = handleSceneClick true (Some routeId)
      (or_else (Number_parseFloat newPointX) zero,
       or_else (Number_parseFloat newPointY) zero,
       or_else (Number_parseFloat newPointZ) zero) routes.
Proof.
  intros Hne. unfold addControlPoint, handleSceneClick.
  by rewrite (proj2 (String.eqb_neq _ _) Hne).
Qed.

Lemma mapM_bind {A B C} (f : A -> option B) (g : B -> option C) (l : list A) :
  mapM f l ≫= mapM g = mapM (fun a => f a ≫= g) l.
Proof.
  induction l as [|a l IH]; [done|]. simpl.
  destruct (f a) as [b|]; simpl; [|done].
  rewrite <- IH. destruct (mapM f l) as [k|]; simpl; [|by destruct (g b)].
  done.
Qed.

Lemma mapM_ext_eq {A B} (f g : A -> option B) (l : list A) :
  (forall a, f a = g a) -> mapM f l = mapM g l.
Proof. intros Hfg. induction l as [|a l IH]; [done|]. simpl. by rewrite Hfg, IH. Qed.

Lemma set_coordinate_overwrite (point : Triple) c v v' :
  set_coordinate (set_coordinate point c v) c v' = set_coordinate point c v'.
Proof. by destruct point as [[p0 p1] p2], c. Qed.

Lemma set_coordinate_commute (point : Triple) c c' v v' :
  c <> c' ->
  set_coordinate (set_coordinate point c v) c' v'
  = set_coordinate (set_coordinate point c' v') c v.
Proof. by destruct point as [[p0 p1] p2], c, c'. Qed.

(** X2: a later [updateControlPoint] of the same coordinate of the
    same control point overwrites the earlier one: the two edits in
    sequence give what the later one gives alone, and throw exactly
    when it throws. *)
Theorem updateControlPoint_last_write_wins (routeId : string) (pointIndex : nat)
    (coordinate : Coordinate) (value value' : num) (routes : list t) :
  updateControlPoint routeId pointIndex coordinate value routes
    ≫= updateControlPoint routeId pointIndex coordinate value'
  = updateControlPoint routeId pointIndex coordinate value' routes.
Proof.
  unfold updateControlPoint. rewrite mapM_bind. apply mapM_ext_eq. intros route.
  destruct route as [rid rname rstart rend [cps|] rsegs]; simpl; [|done].
  destruct (String.eqb rid routeId) eqn:Hid; simpl; [|by rewrite Hid].
  destruct (cps !! pointIndex) as [point|] eqn:Hp; simpl; [|done].
  rewrite Hid. rewrite list_lookup_insert_eq by (by eapply lookup_lt_Some).
  simpl. by rewrite list_insert_insert_eq, set_coordinate_overwrite.
Qed.

(** X3: edits of different coordinates, of different control points
    or of routes with different ids commute: in either order they give
    the same routes, or both orders throw. *)
Theorem updateControlPoint_commute (routeId routeId' : string) (pointIndex pointIndex' : nat)
    (coordinate coordinate' : Coordinate) (value value' : num) (routes : list t) :
  (routeId, pointIndex, coordinate) <> (routeId', pointIndex', coordinate') ->
  updateControlPoint routeId pointIndex coordinate value routes
    ≫= updateControlPoint routeId' pointIndex' coordinate' value'
  = updateControlPoint routeId' pointIndex' coordinate' value' routes
    ≫= updateControlPoint routeId pointIndex coordinate value.
Proof.
  intros Hne. unfold updateControlPoint. rewrite !mapM_bind. apply mapM_ext_eq. intros route.
  destruct route as [rid rname rstart rend [cps|] rsegs]; simpl; [|done].
  destruct (String.eqb rid routeId) eqn:Hid, (String.eqb rid routeId') eqn:Hid'; simpl;
    rewrite ?Hid, ?Hid'; simpl; try done.
  - assert (routeId = routeId') as Hids.
    { apply String.eqb_eq in Hid, Hid'. congruence. }
    destruct (decide (pointIndex = pointIndex')) as [<-|Hk].
    + destruct (cps !! pointIndex) as [point|] eqn:Hp; simpl; [|done].
      rewrite Hid, Hid'.
      rewrite !list_lookup_insert_eq by (by eapply lookup_lt_Some). simpl.
      rewrite !list_insert_insert_eq.
      rewrite (set_coordinate_commute point coordinate coordinate'); [done|congruence].
    + destruct (cps !! pointIndex) as [point|] eqn:Hp,
               (cps !! pointIndex') as [point'|] eqn:Hp'; simpl;
        rewrite ?Hid, ?Hid'; simpl;
        rewrite ?list_lookup_insert_ne by done; rewrite ?Hp, ?Hp'; simpl; try done.
      by rewrite list_insert_insert_ne.
  - destruct (cps !! pointIndex); simpl; [|done]. by rewrite ?Hid, ?Hid'.
  - destruct (cps !! pointIndex'); simpl; [|done]. by rewrite ?Hid, ?Hid'.
Qed.

Lemma toggleRouteVisibility_elem (routeId : string) (prev : gset string) (x : string) :
  x ∈ toggleRouteVisibility routeId prev
  <-> (x = routeId /\ routeId ∉ prev) \/ (x <> routeId /\ x ∈ prev).
Proof.
  unfold toggleRouteVisibility.
  destruct (decide (routeId ∈ prev)) as [Hin|Hout].
  - rewrite elem_of_difference, elem_of_singleton. split.
    + intros [Hx Hne]. by right.
    + intros [[-> Hout]|[Hne Hx]]; [done|by split].
  - rewrite elem_of_union, elem_of_singleton. split.
    + intros [Hx| ->]; [|by left]. right. split; [|done]. by intros ->.
    + intros [[-> _]|[_ Hx]]; [by right|by left].
Qed.

(** X4: toggling the visibility of a route twice restores the set of
    visible routes; one toggle flips the membership of that id and of
    no other id. *)
Theorem toggleRouteVisibility_flips_one (routeId : string) (prev : gset string) :
  toggleRouteVisibility routeId (toggleRouteVisibility routeId prev) = prev
  /\ (routeId ∈ toggleRouteVisibility routeId prev <-> routeId ∉ prev)
  /\ forall other, other <> routeId ->
       (other ∈ toggleRouteVisibility routeId prev <-> other ∈ prev).
Proof.
  split; [|split].
  - apply set_eq. intros x. rewrite !toggleRouteVisibility_elem.
    destruct (decide (x = routeId)) as [->|Hne], (decide (routeId ∈ prev)) as [Hin|Hout];
      split; try tauto.
  - rewrite toggleRouteVisibility_elem. tauto.
  - intros other Hother. rewrite toggleRouteVisibility_elem. tauto.
Qed.

Lemma filter_ext_eq {A} (f g : A -> bool) (l : list A) :
  (forall a, a ∈ l -> f a = g a) -> List.filter f l = List.filter g l.
Proof.
  intros Hfg. apply List.filter_ext_in. intros a Ha. apply Hfg.
  by apply list_elem_of_In.
Qed.

(** X5: every alternate route is drawn at first, and after the first
    toggle of an id exactly the routes with another id are drawn, in
    their order. *)
Theorem visibleAlternateRoutes_first_toggle (routeId : string) (routes : list t) :
  visibleAlternateRoutes routes (initial_visibleRoutes routes) = routes
  /\ visibleAlternateRoutes routes
       (toggleRouteVisibility routeId (initial_visibleRoutes routes))
     = List.filter (fun route => negb (String.eqb (id route) routeId)) routes.
Proof.
  assert (forall route, route ∈ routes -> id route ∈ initial_visibleRoutes routes) as Hall.
  { intros route Hin. unfold initial_visibleRoutes. apply elem_of_list_to_set.
    change (map id routes) with (id <$> routes). apply list_elem_of_fmap. eauto. }
  unfold visibleAlternateRoutes. split.
  - rewrite (filter_ext_eq _ (fun _ => true)).
    + clear Hall. induction routes as [|r l IH]; [done|]. simpl. by rewrite IH.
    + intros route Hin. apply bool_decide_eq_true. by apply Hall.
  - apply filter_ext_eq. intros route Hin.
    specialize (Hall route Hin).
    destruct (String.eqb_spec (id route) routeId) as [Heq|Hneq]; simpl.
    + apply bool_decide_eq_false. rewrite toggleRouteVisibility_elem.
      rewrite Heq in *. tauto.
    + apply bool_decide_eq_true. rewrite toggleRouteVisibility_elem. tauto.
Qed.

(** X6: the editing operations never leave a route with an empty
    array of control points: adding, placing by click, editing and
    deleting keep that property, and [deleteControlPoint] turns the
    array of a route it empties into [undefined]. *)
Theorem route_edits_keep_points_nonempty (routes : list t) :
  no_empty_controlPoints routes ->
  (forall x y z routeId,
     no_empty_controlPoints (addControlPoint Number_parseFloat x y z routeId routes))
  /\ (forall mode selected position,
        no_empty_controlPoints (handleSceneClick mode selected position routes))
  /\ (forall routeId k, no_empty_controlPoints (deleteControlPoint routeId k routes))
  /\ (forall routeId k c v routes',
        updateControlPoint routeId k c v routes = Some routes' ->
        no_empty_controlPoints routes').
Proof.
  unfold no_empty_controlPoints. intros Hinv.
  assert (forall x y z routeId,
    Forall (fun route => controlPoints route <> Some [])
      (addControlPoint Number_parseFloat x y z routeId routes)) as Hadd.
  { intros x y z routeId. unfold addControlPoint.
    change (map ?f ?l) with (f <$> l). apply Forall_fmap.
    eapply Forall_impl; [exact Hinv|]. intros route Hr. simpl.
    destruct (String.eqb (id route) routeId); [|done].
    destruct route as [rid rname rstart rend rcps rsegs]; simpl.
    intros [=Hnil]. by destruct (app_cons_not_nil _ _ _ (eq_sym Hnil)). }
  split; [exact Hadd|]. split; [|split].
  - intros mode [selected|] position; simpl; [|done].
    destruct (mode && negb (String.eqb selected EmptyString)); [|done].
    change (map ?f ?l) with (f <$> l). apply Forall_fmap.
    eapply Forall_impl; [exact Hinv|]. intros route Hr. simpl.
    destruct (String.eqb (id route) selected); [|done].
    destruct route as [rid rname rstart rend rcps rsegs]; simpl.
    intros [=Hnil]. by destruct (app_cons_not_nil _ _ _ (eq_sym Hnil)).
  - intros routeId k. unfold deleteControlPoint.
    change (map ?f ?l) with (f <$> l). apply Forall_fmap.
    eapply Forall_impl; [exact Hinv|]. intros route Hr. simpl.
    destruct (controlPoints route) as [cps|] eqn:Hcps; [|by rewrite Hcps].
    destruct (String.eqb (id route) routeId); [|done].
    destruct route as [rid rname rstart rend rcps rsegs]; simpl.
    destruct (filter_index _ cps) as [|p l]; simpl; done.
  - intros routeId k c v routes' Hupd. unfold updateControlPoint in Hupd.
    apply mapM_Some_1 in Hupd.
    apply Forall_lookup. intros i route' Hi.
    destruct (Forall2_lookup_r _ _ _ _ _ Hupd Hi) as (route & Hroute & Hstep).
    pose proof (Forall_lookup_1 _ _ _ _ Hinv Hroute) as Hr. simpl in Hr.
    destruct (controlPoints route) as [cps|] eqn:Hcps; [|simplify_eq; congruence].
    destruct (String.eqb (id route) routeId); [|simplify_eq; congruence].
    destruct (cps !! k) as [point|] eqn:Hp; simpl in Hstep; [|done].
    simplify_eq. destruct route as [rid rname rstart rend rcps rsegs]; simpl in *.
    intros [=Hnil]. apply (f_equal length) in Hnil.
    rewrite length_insert in Hnil. apply lookup_lt_Some in Hp. simpl in Hnil. lia.
Qed.

End RouteSelectionFacts.

(** ** The panels of [TrackScene] *)

Section ArraySearchFacts.
Context {A : Type}.

Lemma findIndex_from_Some (p : A -> bool) (arr : list A) : forall s i,
  findIndex_from p s arr = Some i ->
  exists k a, i = (s + k)%nat /\ arr !! k = Some a /\ p a = true
    /\ forall j b, (j < k)%nat -> arr !! j = Some b -> p b = false.
Proof.
  induction arr as [|a arr IH]; intros s i Hfind; simpl in Hfind; [done|].
  destruct (p a) eqn:Hpa.
  - simplify_eq. exists 0%nat, a. repeat split; [lia|done|lia].
  - destruct (IH _ _ Hfind) as (k & b & -> & Hk & Hpb & Hfirst).
    exists (S k), b. repeat split; [lia|done|done|].
    intros [|j] c Hj Hc; simpl in Hc; [by simplify_eq|].
    apply (Hfirst j); [lia|done].
Qed.

Lemma findIndex_from_None (p : A -> bool) (arr : list A) : forall s,
  findIndex_from p s arr = None -> forall a, a ∈ arr -> p a = false.
Proof.
  induction arr as [|a arr IH]; intros s Hfind b Hb; [by apply elem_of_nil in Hb|].
  simpl in Hfind. destruct (p a) eqn:Hpa; [done|].
  apply elem_of_cons in Hb as [->|Hb]; [done|]. by apply (IH (S s)).
Qed.

(** [findIndex] returns the first index whose element passes the test,
    and [-1] exactly when no element passes. *)
Lemma findIndex_first (p : A -> bool) (arr : list A) :
  match findIndex p arr with
  | Some i =>
      (exists a, arr !! i = Some a /\ p a = true)
      /\ forall j b, (j < i)%nat -> arr !! j = Some b -> p b = false
  | None => forall a, a ∈ arr -> p a = false
  end.
Proof.
  unfold findIndex. destruct (findIndex_from p 0 arr) as [i|] eqn:Hfind.
  - destruct (findIndex_from_Some _ _ _ _ Hfind) as (k & a & -> & Hk & Hpa & Hfirst).
    simpl. split; [by exists a|done].
  - by apply findIndex_from_None with 0%nat.
Qed.

Lemma findIndex_lt (p : A -> bool) (arr : list A) i :
  findIndex p arr = Some i -> (i < length arr)%nat.
Proof.
  intros Hfind. pose proof (findIndex_first p arr) as Hspec. rewrite Hfind in Hspec.
  destruct Hspec as [(a & Ha & _) _]. by eapply lookup_lt_Some.
Qed.
End ArraySearchFacts.

Section HudFacts.
Context {N : JSNumber}.
Variable Math_abs : num -> num.

Lemma handleCalloutClick_ok turnCallouts startFinishPosition position st :
  hud_ok turnCallouts st ->
  exists st',
    handleCalloutClick Math_abs turnCallouts (Some startFinishPosition) position st = Some st'
    /\ hud_ok turnCallouts st'.
Proof.
  intros Hok. unfold handleCalloutClick. simpl.
  destruct (within_5 Math_abs startFinishPosition position).
  - eexists; split; [done|]. by repeat split.
  - destruct (findIndex _ turnCallouts) as [turnIndex|] eqn:Hfind.
    + eexists; split; [done|]. repeat split; simpl; try done.
      intros i [= <-]. by eapply findIndex_lt.
    + by eexists.
Qed.

Lemma TrackScene_step_ok props st ev :
  hud_ok (scene_turnCallouts props) st ->
  exists st', TrackScene_step Math_abs props st ev = Some st'
    /\ hud_ok (scene_turnCallouts props) st'.
Proof.
  intros Hok. destruct ev as [index|point| |]; simpl.
  - destruct (_ !! index) as [callout|]; [|by eexists].
    by apply handleCalloutClick_ok.
  - by eexists.
  - eexists; split; [done|]. unfold hud_ok. simpl. by repeat split.
  - eexists; split; [done|]. destruct Hok as (Hinfo & Hpos & Hlt).
    unfold hud_ok. simpl. split; [done|]. by split.
Qed.

Lemma TrackScene_run_ok props events : forall st,
  hud_ok (scene_turnCallouts props) st ->
  exists st', TrackScene_run Math_abs props st events = Some st'
    /\ hud_ok (scene_turnCallouts props) st'.
Proof.
  induction events as [|ev events IH]; intros st Hok; simpl; [by eexists|].
  destruct (TrackScene_step_ok props st ev Hok) as (st1 & -> & Hok1). simpl.
  by apply IH.
Qed.

Lemma initial_hud_ok turnCallouts : hud_ok turnCallouts initial_hud.
Proof. by repeat split. Qed.

(** X7: whatever the user clicks in a [TrackScene], no handler throws,
    the track-information panel and the turn details are never open
    together, the HUD position is set exactly while a turn is
    selected, and the selected turn is an index of the turn callouts.
    A click on an alternate route changes nothing: it does not reach
    the click handler of the scene. *)
Theorem TrackScene_panels_exclusive (props : SceneProps) (events : list HudEvent) :
  (exists st,
     TrackScene_run Math_abs props initial_hud events = Some st
     /\ (showTrackInfo st = true -> selectedTurn st = None)
     /\ (selectedTurn st = None <-> hudPosition st = None)
     /\ forall i, selectedTurn st = Some i -> (i < length (scene_turnCallouts props))%nat)
  /\ forall st point, TrackScene_step Math_abs props st (click_route point) = Some st.
Proof.
  split; [|done].
  destruct (TrackScene_run_ok props events initial_hud (initial_hud_ok _))
    as (st & Hrun & Hok).
  by exists st.
Qed.

(** X23: a click on a callout opens the track information when the
    position is within 5 units of the start/finish position on every
    axis, whatever turn callouts are near; otherwise it selects the
    first turn callout, in the order of the array, that is within 5
    units of the position on every axis, and closes the track
    information; when there is none it changes nothing.  Without a
    start/finish position the handler throws. *)
Theorem handleCalloutClick_first_match (turnCallouts : list Callout.t)
    (startFinishPosition position : Triple) (st : HudState) :
  handleCalloutClick Math_abs turnCallouts None position st = None
  /\ (within_5 Math_abs startFinishPosition position = true ->
      handleCalloutClick Math_abs turnCallouts (Some startFinishPosition) position st
      = Some (mkHud None None true))
  /\ (within_5 Math_abs startFinishPosition position = false ->
      (forall i callout,
         turnCallouts !! i = Some callout ->
         within_5 Math_abs (Callout.position callout) position = true ->
         (forall j earlier, (j < i)%nat -> turnCallouts !! j = Some earlier ->
            within_5 Math_abs (Callout.position earlier) position = false) ->
         handleCalloutClick Math_abs turnCallouts (Some startFinishPosition) position st
         = Some (mkHud (Some i) (Some position) false))
      /\ ((forall callout, callout ∈ turnCallouts ->
             within_5 Math_abs (Callout.position callout) position = false) ->
          handleCalloutClick Math_abs turnCallouts (Some startFinishPosition) position st
          = Some st)).
Proof.
  split; [done|]. unfold handleCalloutClick. simpl. split.
  - by intros ->.
  - intros ->.
    pose proof (findIndex_first
      (fun callout => within_5 Math_abs (Callout.position callout) position)
      turnCallouts) as Hfind.
    destruct (findIndex _ turnCallouts) as [k|]; simpl in Hfind.
    + destruct Hfind as [(found & Hk & Hnear) Hfirst]. split.
      * intros i callout Hi Hcallout Hearlier.
        destruct (Nat.lt_trichotomy k i) as [Hlt|[->|Hgt]]; [|done|].
        -- rewrite (Hearlier k found Hlt Hk) in Hnear. done.
        -- rewrite (Hfirst i callout Hgt Hi) in Hcallout. done.
      * intros Hnone. rewrite Hnone in Hnear; [done|].
        by eapply list_elem_of_lookup_2.
    + split; [|done].
      intros i callout Hi Hcallout _. rewrite Hfind in Hcallout; [done|].
      by eapply list_elem_of_lookup_2.
Qed.

Lemma TURN_DETAILS_length : length TURN_DETAILS = 18%nat.
Proof. reflexivity. Qed.

(** X8: [RaceTrack3D] mounts the turn HUD whenever [selectedTurn] is
    not [null], and mounting it throws exactly when [selectedTurn] is
    left out ([undefined]) or is an index without an entry in the
    table of 18 turns. *)
Theorem RaceTrack3D_turnHud_throws (selectedTurn : TurnProp) :
  RaceTrack3D_turnHud selectedTurn = None
  <-> selectedTurn = turn_undefined
      \/ exists i, selectedTurn = turn_index i /\ (18 <= i)%nat.
Proof.
  destruct selectedTurn as [| |i]; simpl.
  - split; [by left|done].
  - split; [done|]. by intros [?|(i & ? & _)].
  - rewrite fmap_None. rewrite lookup_ge_None, TURN_DETAILS_length. split.
    + intros Hi. right. by exists i.
    + by intros [?|(j & [= <-] & Hj)].
Qed.

(** X9: with at most 18 turn callouts, as [TrackScene] builds them, the
    turn HUD of a [TrackScene] always finds its details: after any
    clicks it is either not mounted, when no turn is selected, or
    shows the entry of the selected turn. *)
Theorem TrackScene_turnHud_defined (props : SceneProps) (events : list HudEvent) :
  (length (scene_turnCallouts props) <= 18)%nat ->
  exists st hud,
    TrackScene_run Math_abs props initial_hud events = Some st
    /\ RaceTrack3D_turnHud (turn_prop st) = Some hud
    /\ match selectedTurn st with
       | Some i => exists detail, TURN_DETAILS !! i = Some detail /\ hud = Some detail
       | None => hud = None
       end.
Proof.
  intros Hlen.
  destruct (TrackScene_run_ok props events initial_hud (initial_hud_ok _))
    as (st & Hrun & _ & _ & Hlt).
  exists st. unfold turn_prop. destruct (selectedTurn st) as [i|] eqn:Hsel; simpl.
  - specialize (Hlt i eq_refl).
    destruct (lookup_lt_is_Some_2 TURN_DETAILS i) as [detail Hdetail].
    { rewrite TURN_DETAILS_length. lia. }
    exists (Some detail). rewrite Hdetail. simpl. split; [done|]. split; [done|].
    by exists detail.
  - by exists None.
Qed.

Lemma TrackScene_turnCallouts_length (ORIGINAL_TURN_CALLOUTS : list Callout.t)
    (showTurnNumbers : bool) (elevationMultiplier : num) :
  length (TrackScene_turnCallouts ORIGINAL_TURN_CALLOUTS showTurnNumbers elevationMultiplier)
  = if showTurnNumbers then length ORIGINAL_TURN_CALLOUTS else 0%nat.
Proof.
  unfold TrackScene_turnCallouts. destruct showTurnNumbers; simpl; [|done].
  apply length_map.
Qed.
End HudFacts.

(** ** [smoothPoints] on any input *)

Section SmoothPointsEdges.
Context {N : JSNumber}.
Implicit Types (points smoothed : list TrackPoint.t).

Lemma smooth_at_cases points (h : Z) smoothed (i : nat) :
  smooth_at points h smoothed i = smoothed
  \/ exists p, smooth_at points h smoothed i = smoothed ++ [p] /\ all_numbers p = true.
Proof.
  unfold smooth_at. destruct (0 <? count _)%nat; [|by left].
  right. by eexists.
Qed.

Lemma smooth_fold_bounds points (h : Z) (idxs : list nat) : forall smoothed,
  Forall (fun p => all_numbers p = true) smoothed ->
  let result := fold_left (smooth_at points h) idxs smoothed in
  Forall (fun p => all_numbers p = true) result
  /\ (length smoothed <= length result <= length smoothed + length idxs)%nat.
Proof.
  induction idxs as [|i idxs IH]; intros smoothed Hnum; simpl; [split; [done|lia]|].
  destruct (smooth_at_cases points h smoothed i) as [->|(p & -> & Hp)].
  - destruct (IH smoothed Hnum) as [Hall Hlen]. split; [done|]. simpl in Hlen. lia.
  - destruct (IH (smoothed ++ [p])) as [Hall Hlen].
    { apply Forall_app. split; [done|]. by constructor. }
    split; [done|]. simpl in Hlen. rewrite length_app in Hlen. simpl in Hlen. lia.
Qed.

Lemma smooth_at_empty_window points (h : Z) smoothed (i : nat) :
  h < 0 -> smooth_at points h smoothed i = smoothed.
Proof.
  intros Hh. unfold smooth_at, for_range.
  replace (Z.to_nat (h - - h + 1)) with 0%nat by lia. done.
Qed.

(** X10: an integer smoothing level that is not positive changes
    nothing: [smoothPoints] returns its input for level 0 and for
    every negative integer level, where the window loop from
    [-halfWindow] to [halfWindow] is empty. *)
Theorem smoothPoints_nonpositive_level points (level : Z) :
  level <= 0 -> smoothPoints points level = points.
Proof.
  intros Hlevel. unfold smoothPoints.
  destruct (Z.eqb_spec level 0) as [|Hne]; [done|].
  destruct (Z.ltb_spec (Z.of_nat (length points)) 3); [done|]. simpl.
  assert (Z.min (level * 2 + 1) (Z.of_nat (length points)) / 2 < 0) as Hh.
  { apply Z.div_lt_upper_bound; lia. }
  assert (forall idxs smoothed,
    fold_left (smooth_at points
      (Z.min (level * 2 + 1) (Z.of_nat (length points)) / 2)) idxs smoothed = smoothed)
    as Hfold.
  { induction idxs as [|i idxs IH]; intros smoothed; simpl; [done|].
    by rewrite smooth_at_empty_window, IH. }
  by rewrite Hfold.
Qed.

(** One step of the inner loop on a point of any kind: a point that
    lacks a coordinate adds nothing and is not counted. *)
Lemma smooth_step_numeric points (i j : Z) acc :
  smooth_step points i acc j
  = match lookupZ points (Z.rem (i + j + Z.of_nat (length points))
                                (Z.of_nat (length points)))
          ≫= (fun p => if all_numbers p then Some p else None) with
    | Some p => mkSums (add (sumX acc) (to_number (TrackPoint.x p)))
                       (add (sumY acc) (to_number (TrackPoint.y p)))
                       (add (sumZ acc) (to_number (TrackPoint.z p)))
                       (S (count acc))
    | None => acc
    end.
Proof.
  unfold smooth_step.
  destruct (lookupZ points _) as [p|]; cbn [mbind option_bind]; [|done].
  unfold all_numbers, is_number.
  by destruct p as [[px|] [py|] [pz|] d s].
Qed.

Lemma smooth_window_numeric points (i : nat) (js : list Z) : forall acc,
  let window :=
    omap (fun j =>
            lookupZ points (Z.rem (Z.of_nat i + j + Z.of_nat (length points))
                                  (Z.of_nat (length points)))
            ≫= (fun p => if all_numbers p then Some p else None)) js in
  fold_left (smooth_step points (Z.of_nat i)) js acc
  = mkSums
      (fold_left add (map (fun p => to_number (TrackPoint.x p)) window) (sumX acc))
      (fold_left add (map (fun p => to_number (TrackPoint.y p)) window) (sumY acc))
      (fold_left add (map (fun p => to_number (TrackPoint.z p)) window) (sumZ acc))
      (count acc + length window).
Proof.
  induction js as [|j js IH]; intros acc; cbn [fold_left omap list_omap].
  - destruct acc. simpl. f_equal. lia.
  - rewrite IH, smooth_step_numeric.
    destruct (lookupZ points _ ≫= _) as [p|]; [|done].
    cbn [map fold_left length sumX sumY sumZ count]. f_equal. lia.
Qed.

Lemma smooth_at_window_mean points (h : Z) smoothed (i : nat) :
  smooth_at points h smoothed i
  = smoothed ++ option_list (window_mean_point points h i).
Proof.
  unfold smooth_at, window_mean_point, numeric_window, mean, sum_from_zero.
  rewrite smooth_window_numeric. cbn [sumX sumY sumZ count Nat.add].
  rewrite !length_map.
  destruct (0 <? length _)%nat; [done|]. by rewrite app_nil_r.
Qed.

Lemma smooth_loop_window_means points (h : Z) (idxs : list nat) : forall smoothed,
  fold_left (smooth_at points h) idxs smoothed
  = smoothed ++ omap (window_mean_point points h) idxs.
Proof.
  induction idxs as [|i idxs IH]; intros smoothed; cbn [fold_left omap list_omap].
  - by rewrite app_nil_r.
  - rewrite IH, smooth_at_window_mean, <- app_assoc.
    by destruct (window_mean_point points h i).
Qed.

(** X11: whatever the points hold, [smoothPoints] with an integer
    level other than 0 on three or more points goes through the
    positions in order and leaves out exactly those whose window holds no point
    with three numeric coordinates; every other position gives one
    point: the means of x, y and z over the numeric points its window
    reads, with the [distance] and [sector] of the point at that
    position.  When every position is left out, and for level 0 or
    fewer than three points, the input is returned. *)
Theorem smoothPoints_keeps_numeric_windows points (level : Z) :
  let n := length points in
  let halfWindow := Z.min (level * 2 + 1) (Z.of_nat n) / 2 in
  let smoothed := omap (window_mean_point points halfWindow) (seq 0 n) in
  smoothPoints points level
  = if (level =? 0) || (n <? 3)%nat then points
    else if (0 <? length smoothed)%nat then smoothed else points.
Proof.
  intros n halfWindow smoothed. unfold smoothPoints. fold n.
  replace (Z.of_nat n <? 3) with (n <? 3)%nat; cycle 1.
  { destruct (Nat.ltb_spec n 3), (Z.ltb_spec (Z.of_nat n) 3); (done || lia). }
  destruct ((level =? 0) || (n <? 3)%nat); [done|].
  fold halfWindow. by rewrite smooth_loop_window_means.
Qed.

Lemma smoothPoints_empty points (level : Z) :
  smoothPoints points level = [] <-> points = [].
Proof.
  split.
  - unfold smoothPoints.
    destruct ((level =? 0) || (Z.of_nat (length points) <? 3)); [done|].
    destruct (Nat.ltb_spec 0 (length (fold_left
      (smooth_at points (Z.min (level * 2 + 1) (Z.of_nat (length points)) / 2))
      (seq 0 (length points)) []))) as [Hpos|_]; [|done].
    intros Hnil. rewrite Hnil in Hpos. simpl in Hpos. lia.
  - intros ->. apply smoothPoints_unchanged. right. simpl. lia.
Qed.
End SmoothPointsEdges.

(** ** [StartFinishLine] and [TrackMesh] on the same points *)

Section MarkerOnMesh.
Context {N : JSNumber}.

Lemma filter_all_valid (trackData : list TrackPoint.t) :
  Forall (fun p => valid_point p = true) trackData ->
  List.filter valid_point trackData = trackData.
Proof.
  induction 1 as [|p l Hp _ IH]; simpl; [done|]. by rewrite Hp, IH.
Qed.

(** X12: when every track point is valid, [StartFinishLine] searches
    among exactly the control points of the curve of [TrackMesh]: both
    process the same points with the same vertical offset, and the
    distance compared for a point is the distance between
    the start/finish position and the control point of that index. *)
Theorem StartFinishLine_measures_mesh_points (position : Triple)
    (trackData : list TrackPoint.t) (elevationMultiplier : num) (smoothingLevel : Z)
    (groundOffset : num) :
  Forall (fun p => valid_point p = true) trackData ->
  (2 <= length trackData)%nat ->
  let processedPoints := StartFinishLine_processedPoints trackData smoothingLevel in
  let yOffset := sub (mul (processed_min_y processedPoints) elevationMultiplier) groundOffset in
  exists points,
    TrackMesh_curve trackData elevationMultiplier smoothingLevel groundOffset
    = CatmullRomCurve3 points true centripetal half
    /\ length points = length processedPoints
    /\ forall i point, processedPoints !! i = Some point ->
         exists V, points !! i = Some V
           /\ start_finish_dist position elevationMultiplier yOffset point
              = Math_sqrt
                  (add (add (Math_pow2 (sub (Vector3.x V) position.1.1))
                            (Math_pow2 (sub (Vector3.y V) position.1.2)))
                       (Math_pow2 (sub (Vector3.z V) position.2))).
Proof.
  intros Hvalid Hlen processedPoints yOffset.
  assert (TrackMesh_processedPoints trackData smoothingLevel = processedPoints) as Hsame.
  { unfold TrackMesh_processedPoints. by rewrite filter_all_valid. }
  exists (map (elevate elevationMultiplier yOffset) processedPoints).
  split; [|split].
  - unfold TrackMesh_curve. rewrite filter_all_valid by done.
    destruct (Nat.ltb_spec (length trackData) 2); [lia|].
    by rewrite Hsame.
  - apply length_map.
  - intros i point Hi. exists (elevate elevationMultiplier yOffset point). split.
    + change (map ?f ?l) with (f <$> l). by rewrite list_lookup_fmap, Hi.
    + done.
Qed.
End MarkerOnMesh.

(** ** The track statistics of [StartFinishLine] *)

Section TrackStatsFacts.
Context {N : JSNumber}.
Variable Math_round : num -> num.
Variable Math_max2 : num -> num -> num.

Lemma stats_fold_elevation (trackData : list TrackPoint.t) : forall k s st,
  (1 <= s)%nat -> (s + k <= length trackData)%nat ->
  let ys := map (fun p => to_number (TrackPoint.y p)) (take k (drop s trackData)) in
  let result := fold_left (stats_step Math_max2 trackData) (seq s k) st in
  result.1.2 = fold_left Math_min2 ys st.1.2
  /\ result.2 = fold_left Math_max2 ys st.2.
Proof.
  induction k as [|k IH]; intros s st Hs Hlen; simpl; [done|].
  destruct (lookup_lt_is_Some_2 trackData (s - 1)) as [prev Hprev]; [lia|].
  destruct (lookup_lt_is_Some_2 trackData s) as [curr Hcurr]; [lia|].
  rewrite (drop_S _ _ _ Hcurr). simpl.
  destruct (IH (S s) (stats_step Math_max2 trackData st s)) as [Hmin Hmax]; [lia..|].
  simpl in Hmin, Hmax. rewrite Hmin, Hmax.
  unfold stats_step. destruct st as [[totalLength minElevation] maxElevation].
  by rewrite Hprev, Hcurr.
Qed.

(** X13: for two or more points, the elevation figure of [trackStats]
    is the rounded range of heights that the information panel of
    [RaceTrack3D] shows, but taken over all points except the first:
    the height of the first track point never counts. *)
Theorem trackStats_elevation_skips_first (trackData : list TrackPoint.t) :
  (2 <= length trackData)%nat ->
  stats_elevation (trackStats Math_round Math_max2 trackData)
  = panel_elevation Math_round Math_max2 (tail trackData).
Proof.
  intros Hlen. unfold trackStats, panel_elevation.
  destruct (Nat.ltb_spec (length trackData) 2); [lia|].
  destruct (stats_fold_elevation trackData (length trackData - 1) 1
              (zero, infinity, neg infinity)) as [Hmin Hmax]; [lia..|].
  simpl in Hmin, Hmax.
  destruct (fold_left _ _ _) as [[totalLength minElevation] maxElevation].
  simpl in Hmin, Hmax. simpl.
  replace (take (length trackData - 1) (drop 1 trackData)) with (tail trackData)
    in Hmin, Hmax.
  - unfold Math_min. by rewrite Hmin, Hmax.
  - destruct trackData as [|p rest]; [done|]. simpl.
    rewrite drop_0, take_ge; [done|lia].
Qed.
End TrackStatsFacts.

(** ** The bounds of the track *)

Section TrackBoundsFacts.
Context {N : JSNumber}.
Variable Math_max2 : num -> num -> num.

(** The three ranges are extended independently. *)
Lemma bounds_fold_axes (trackData : list TrackPoint.t) : forall rx ry rz,
  fold_left (bounds_step Math_max2) trackData (rx, ry, rz)
  = (fold_left (extend Math_max2) (map TrackPoint.x trackData) rx,
     fold_left (extend Math_max2) (map TrackPoint.y trackData) ry,
     fold_left (extend Math_max2) (map TrackPoint.z trackData) rz).
Proof.
  induction trackData as [|p l IH]; intros rx ry rz; simpl; [done|]. by rewrite IH.
Qed.
End TrackBoundsFacts.

Section ExactBounds.
Local Existing Instance Exact.number.
Import Exact ExactMath.
Local Open Scope R_scope.

Lemma max2_reals (a b : R) : xmax2 (Fin a) (Fin b) = Fin (Rmax a b).
Proof.
  unfold xmax2, Rmax. simpl.
  case_real_compare; destruct (Rle_dec a b); try lra; f_equal; lra.
Qed.

Lemma extend_real (lo hi v : R) :
  extend xmax2 (Fin lo, Fin hi) (Some (Fin v)) = (Fin (Rmin lo v), Fin (Rmax hi v)).
Proof.
  unfold extend, defined_number. simpl.
  change (xmin2 (Fin lo) (Fin v)) with (@Math_min2 number (Fin lo) (Fin v)).
  by rewrite min2_reals, max2_reals.
Qed.

Lemma extend_first (v : R) :
  extend xmax2 (PInf, NInf) (Some (Fin v)) = (Fin v, Fin v).
Proof. reflexivity. Qed.

(** A range extended by real coordinates encloses them, and its ends
    are old ends or coordinates. *)
Lemma axis_fold_real (rs : list R) : forall lo hi : R,
  exists lo' hi',
    fold_left (extend xmax2) (some_reals rs) (Fin lo, Fin hi)
    = (Fin lo', Fin hi')
    /\ lo' <= lo /\ hi <= hi'
    /\ (forall r, In r rs -> lo' <= r <= hi')
    /\ (lo' = lo \/ In lo' rs) /\ (hi' = hi \/ In hi' rs).
Proof.
  induction rs as [|r rs IH]; intros lo hi; unfold some_reals; cbn [map fold_left].
  - exists lo, hi. split; [done|]. split; [lra|]. split; [lra|].
    split; [by intros r []|]. split; by left.
  - rewrite extend_real. fold (some_reals rs).
    destruct (IH (Rmin lo r) (Rmax hi r)) as (lo' & hi' & Heq & Hlo & Hhi & Hin & Hlo' & Hhi').
    exists lo', hi'.
    pose proof (Rmin_l lo r). pose proof (Rmin_r lo r).
    pose proof (Rmax_l hi r). pose proof (Rmax_r hi r).
    split; [exact Heq|]. split; [lra|]. split; [lra|]. split; [|split].
    + intros r' [<-|Hr']; [lra|by apply Hin].
    + destruct Hlo' as [->|Hlo']; [|right; by right].
      unfold Rmin. destruct (Rle_dec lo r); [by left|right; by left].
    + destruct Hhi' as [->|Hhi']; [|right; by right].
      unfold Rmax. destruct (Rle_dec hi r); [right; by left|by left].
Qed.

(** The range of a non-empty list of real coordinates: both ends are
    coordinates of the list. *)
Lemma axis_range_real (r : R) (rs : list R) :
  exists lo hi,
    fold_left (extend xmax2) (some_reals (r :: rs)) (infinity, neg infinity)
    = (Fin lo, Fin hi)
    /\ (forall r', In r' (r :: rs) -> lo <= r' <= hi)
    /\ In lo (r :: rs) /\ In hi (r :: rs).
Proof.
  change (infinity, neg infinity) with (PInf, NInf).
  unfold some_reals. cbn [map fold_left]. rewrite extend_first.
  fold (some_reals rs).
  destruct (axis_fold_real rs r r) as (lo & hi & Heq & Hlo & Hhi & Hin & Hlo' & Hhi').
  exists lo, hi. split; [exact Heq|]. split; [|split].
  - intros r' [<-|Hr']; [lra|by apply Hin].
  - destruct Hlo' as [->|?]; [by left|by right].
  - destruct Hhi' as [->|?]; [by left|by right].
Qed.

(** One coordinate of finite points, as real numbers. *)
Lemma finite_points_axis (coord : TrackPoint.t -> option num)
    (points : list TrackPoint.t) :
  (forall p, p ∈ points -> exists v, coord p = Some (Fin v)) ->
  exists rs : list R,
    map coord points = some_reals rs
    /\ length rs = length points
    /\ (forall p v, p ∈ points -> coord p = Some (Fin v) -> In v rs)
    /\ (forall v, In v rs -> exists p, p ∈ points /\ coord p = Some (Fin v)).
Proof.
  induction points as [|p points IH]; intros Hfin.
  - exists []. repeat split; try done. intros p v Hp. by apply elem_of_nil in Hp.
  - destruct IH as (rs & Hmap & Hlen & Hin & Hex).
    { intros q Hq. apply Hfin. by right. }
    destruct (Hfin p) as [v Hv]; [by left|].
    exists (v :: rs). unfold some_reals in *. cbn [map length]. rewrite Hv, Hmap, Hlen.
    split; [done|]. split; [done|]. split.
    + intros q w [->|Hq]%elem_of_cons Hw.
      * left. congruence.
      * right. by eapply Hin.
    + intros w [<-|Hw].
      * exists p. split; [by left|done].
      * destruct (Hex w Hw) as (q & Hq & Hqw). exists q. split; [by right|done].
Qed.

Lemma half_sum_real (a b : R) :
  div (add (Fin a) (Fin b)) (of_nat 2) = Fin ((a + b) / 2).
Proof. simpl. unfold Reqb. destruct (Req_dec_T (1 + 1) 0); [lra|]. done. Qed.

(** The bounds of finite points, from the ranges of their
    coordinates: each range is attained at both ends. *)
Lemma trackBounds_real (trackData : list TrackPoint.t) :
  trackData <> [] ->
  Forall (fun p => finite_point p = true) trackData ->
  exists xlo xhi ylo yhi zlo zhi : R,
    trackBounds xmax2 trackData
    = mkBounds (Fin ((xlo + xhi) / 2), Fin ((ylo + yhi) / 2), Fin ((zlo + zhi) / 2))
        (Fin (Rmax (xhi - xlo) (zhi - zlo)))
    /\ (forall p x y z, p ∈ trackData ->
          TrackPoint.x p = Some (Fin x) -> TrackPoint.y p = Some (Fin y) ->
          TrackPoint.z p = Some (Fin z) ->
          xlo <= x <= xhi /\ ylo <= y <= yhi /\ zlo <= z <= zhi)
    /\ (exists p q, p ∈ trackData /\ q ∈ trackData
          /\ TrackPoint.x p = Some (Fin xlo) /\ TrackPoint.x q = Some (Fin xhi))
    /\ (exists p q, p ∈ trackData /\ q ∈ trackData
          /\ TrackPoint.z p = Some (Fin zlo) /\ TrackPoint.z q = Some (Fin zhi))
    /\ (exists p q, p ∈ trackData /\ q ∈ trackData
          /\ TrackPoint.y p = Some (Fin ylo) /\ TrackPoint.y q = Some (Fin yhi)).
Proof.
  intros Hne Hfin. rewrite Forall_forall in Hfin.
  destruct (finite_points_axis TrackPoint.x trackData) as (xs & Hxs & Hxlen & Hxin & Hxex).
  { intros p Hp. destruct (finite_point_fields p (Hfin p Hp)) as (a & b & c & Ha & _).
    by exists a. }
  destruct (finite_points_axis TrackPoint.y trackData) as (ys & Hys & Hylen & Hyin & Hyex).
  { intros p Hp. destruct (finite_point_fields p (Hfin p Hp)) as (a & b & c & _ & Hb & _).
    by exists b. }
  destruct (finite_points_axis TrackPoint.z trackData) as (zs & Hzs & Hzlen & Hzin & Hzex).
  { intros p Hp. destruct (finite_point_fields p (Hfin p Hp)) as (a & b & c & _ & _ & Hc).
    by exists c. }
  unfold trackBounds. destruct trackData as [|p0 rest]; [done|].
  cbn [length Nat.eqb]. rewrite bounds_fold_axes, Hxs, Hys, Hzs.
  destruct xs as [|x0 xs]; [done|]. destruct ys as [|y0 ys]; [done|].
  destruct zs as [|z0 zs]; [done|].
  destruct (axis_range_real x0 xs) as (xlo & xhi & -> & Hxb & Hxlo & Hxhi).
  destruct (axis_range_real y0 ys) as (ylo & yhi & -> & Hyb & Hylo & Hyhi).
  destruct (axis_range_real z0 zs) as (zlo & zhi & -> & Hzb & Hzlo & Hzhi).
  rewrite !half_sum_real.
  change (@sub number (Fin xhi) (Fin xlo)) with (Fin (xhi - xlo)).
  change (@sub number (Fin zhi) (Fin zlo)) with (Fin (zhi - zlo)).
  rewrite max2_reals.
  exists xlo, xhi, ylo, yhi, zlo, zhi. split; [done|]. split; [|split; [|split]].
  - intros p x y z Hp Hx Hy Hz.
    pose proof (Hxb x (Hxin p x Hp Hx)). pose proof (Hyb y (Hyin p y Hp Hy)).
    pose proof (Hzb z (Hzin p z Hp Hz)). done.
  - destruct (Hxex xlo Hxlo) as (p & Hp & Hplo).
    destruct (Hxex xhi Hxhi) as (q & Hq & Hqhi). by exists p, q.
  - destruct (Hzex zlo Hzlo) as (p & Hp & Hplo).
    destruct (Hzex zhi Hzhi) as (q & Hq & Hqhi). by exists p, q.
  - destruct (Hyex ylo Hylo) as (p & Hp & Hplo).
    destruct (Hyex yhi Hyhi) as (q & Hq & Hqhi). by exists p, q.
Qed.

(** X14: for a non-empty list of points with real coordinates,
    [trackBounds] gives the centre and the side of a square on the
    ground plane that contains every point: each point lies within
    half the size of the centre in x and in z, the size is the larger
    of the two extents and is the distance in x or in z between two
    track points, and the centre height is the mean of the least and
    the greatest height of the track points, both of which are
    attained. *)
Theorem trackBounds_encloses (trackData : list TrackPoint.t) :
  trackData <> [] ->
  Forall (fun p => finite_point p = true) trackData ->
  exists cx cy cz s ylo yhi : R,
    trackBounds xmax2 trackData = mkBounds (Fin cx, Fin cy, Fin cz) (Fin s)
    /\ 0 <= s /\ cy = (ylo + yhi) / 2
    /\ (forall p x y z, p ∈ trackData ->
          TrackPoint.x p = Some (Fin x) -> TrackPoint.y p = Some (Fin y) ->
          TrackPoint.z p = Some (Fin z) ->
          Rabs (x - cx) <= s / 2 /\ Rabs (z - cz) <= s / 2 /\ ylo <= y <= yhi)
    /\ (exists p q a b, p ∈ trackData /\ q ∈ trackData /\ b - a = s
         /\ ((TrackPoint.x p = Some (Fin a) /\ TrackPoint.x q = Some (Fin b))
             \/ (TrackPoint.z p = Some (Fin a) /\ TrackPoint.z q = Some (Fin b))))
    /\ exists p q, p ∈ trackData /\ q ∈ trackData
         /\ TrackPoint.y p = Some (Fin ylo) /\ TrackPoint.y q = Some (Fin yhi).
Proof.
  intros Hne Hfin.
  destruct (trackBounds_real trackData Hne Hfin)
    as (xlo & xhi & ylo & yhi & zlo & zhi & Hbounds & Hin & Hxends & Hzends & Hyends).
  exists ((xlo + xhi) / 2), ((ylo + yhi) / 2), ((zlo + zhi) / 2),
    (Rmax (xhi - xlo) (zhi - zlo)), ylo, yhi.
  pose proof (Rmax_l (xhi - xlo) (zhi - zlo)) as Hml.
  pose proof (Rmax_r (xhi - xlo) (zhi - zlo)) as Hmr.
  destruct Hxends as (pxlo & pxhi & Hpxlo & Hpxhi & Hxlo & Hxhi).
  destruct Hzends as (pzlo & pzhi & Hpzlo & Hpzhi & Hzlo & Hzhi).
  assert (xlo <= xhi) as Hxrange.
  { rewrite Forall_forall in Hfin.
    destruct (finite_point_fields pxlo (Hfin pxlo Hpxlo)) as (a & b & c & Ha & Hb & Hc).
    destruct (Hin pxlo a b c Hpxlo Ha Hb Hc) as (Hx & _).
    rewrite Ha in Hxlo. injection Hxlo as ->. lra. }
  split; [done|]. split; [lra|]. split; [done|]. split; [|split; [|exact Hyends]].
  - intros p x y z Hp Hx Hy Hz.
    destruct (Hin p x y z Hp Hx Hy Hz) as (Hxr & Hyr & Hzr).
    split; [|split; [|done]]; apply Rabs_le; lra.
  - unfold Rmax. destruct (Rle_dec (xhi - xlo) (zhi - zlo)).
    + exists pzlo, pzhi, zlo, zhi. split; [done|]. split; [done|]. split; [done|]. by right.
    + exists pxlo, pxhi, xlo, xhi. split; [done|]. split; [done|]. split; [done|]. by left.
Qed.

(** The bounds of the two real points of [RealData.two_points]. *)
Lemma trackBounds_two_points :
  trackBounds xmax2 RealData.two_points = mkBounds (Fin (1 / 2), Fin 2, Fin 1) (Fin 2).
Proof.
  unfold trackBounds, RealData.two_points. cbn [length Nat.eqb].
  rewrite bounds_fold_axes. cbn [map TrackPoint.x TrackPoint.y TrackPoint.z].
  change [Some (Fin 0); Some (Fin 1)] with (some_reals [0; 1]).
  change [Some (Fin 1); Some (Fin 3)] with (some_reals [1; 3]).
  change [Some (Fin 0); Some (Fin 2)] with (some_reals [0; 2]).
  destruct (axis_range_real 0 [1]) as (xlo & xhi & -> & Hxb & Hxlo & Hxhi).
  destruct (axis_range_real 1 [3]) as (ylo & yhi & -> & Hyb & Hylo & Hyhi).
  destruct (axis_range_real 0 [2]) as (zlo & zhi & -> & Hzb & Hzlo & Hzhi).
  pose proof (Hxb 0 ltac:(simpl; tauto)). pose proof (Hxb 1 ltac:(simpl; tauto)).
  pose proof (Hyb 1 ltac:(simpl; tauto)). pose proof (Hyb 3 ltac:(simpl; tauto)).
  pose proof (Hzb 0 ltac:(simpl; tauto)). pose proof (Hzb 2 ltac:(simpl; tauto)).
  assert (xlo = 0 /\ xhi = 1 /\ ylo = 1 /\ yhi = 3 /\ zlo = 0 /\ zhi = 2)
    as (-> & -> & -> & -> & -> & ->).
  { simpl in Hxlo, Hxhi, Hylo, Hyhi, Hzlo, Hzhi. lra. }
  rewrite !half_sum_real.
  change (@sub number (Fin 1) (Fin 0)) with (Fin (1 + - 0)).
  change (@sub number (Fin 2) (Fin 0)) with (Fin (2 + - 0)).
  rewrite max2_reals. rewrite Rmax_right by lra.
  f_equal; [|f_equal; lra]. do 2 f_equal; f_equal; lra.
Qed.

Lemma tenths_real (k : nat) : tenths k = Fin (INR k / 10).
Proof.
  unfold tenths. simpl. unfold Reqb.
  destruct (Req_dec_T (1 + 1 + 1 + 1 + 1 + 1 + 1 + 1 + 1 + 1) 0); [lra|].
  do 2 f_equal. lra.
Qed.

(** X15: the camera starts outside that square: for a non-empty list
    of points with real coordinates, the initial camera position is at
    height 0.6 times the size and lies, in x and in z, at least 0.3
    times the size beyond every track point. *)
Theorem cameraPosition_beyond_track (trackData : list TrackPoint.t) :
  trackData <> [] ->
  Forall (fun p => finite_point p = true) trackData ->
  exists camX camY camZ s : R,
    cameraPosition (trackBounds xmax2 trackData) = (Fin camX, Fin camY, Fin camZ)
    /\ size (trackBounds xmax2 trackData) = Fin s
    /\ 0 <= s /\ camY = s * (6 / 10)
    /\ forall p x z, p ∈ trackData ->
         TrackPoint.x p = Some (Fin x) -> TrackPoint.z p = Some (Fin z) ->
         x + s * (3 / 10) <= camX /\ z + s * (3 / 10) <= camZ.
Proof.
  intros Hne Hfin.
  destruct (trackBounds_real trackData Hne Hfin)
    as (xlo & xhi & ylo & yhi & zlo & zhi & -> & Hin & Hxends & _).
  unfold cameraPosition. rewrite !tenths_real. simpl.
  pose proof (Rmax_l (xhi - xlo) (zhi - zlo)) as Hml.
  pose proof (Rmax_r (xhi - xlo) (zhi - zlo)) as Hmr.
  set (s := Rmax (xhi - xlo) (zhi - zlo)) in *.
  rewrite Forall_forall in Hfin.
  assert (xlo <= xhi) as Hxrange.
  { destruct Hxends as (pxlo & pxhi & Hpxlo & Hpxhi & Hxlo & Hxhi).
    destruct (finite_point_fields pxlo (Hfin pxlo Hpxlo)) as (a & b & c & Ha & Hb & Hc).
    destruct (Hin pxlo a b c Hpxlo Ha Hb Hc) as (Hx & _).
    rewrite Ha in Hxlo. injection Hxlo as ->. lra. }
  exists ((xlo + xhi) / 2 + s * (8 / 10)), (s * (6 / 10)), ((zlo + zhi) / 2 + s * (8 / 10)), s.
  split; [repeat f_equal; lra|]. split; [done|]. split; [lra|]. split; [lra|].
  intros p x z Hp Hx Hz.
  destruct (finite_point_fields p (Hfin p Hp)) as (a & y & c & _ & Hy & _).
  destruct (Hin p x y z Hp Hx Hy Hz) as (Hxr & _ & Hzr). lra.
Qed.
End ExactBounds.

(** ** The camera animation *)

Section ExactCamera.
Local Existing Instance Exact.number.
Import Exact ExactMath.
Local Open Scope R_scope.
Variable Math_PI : num.
Variable Math_cos Math_sin : num -> num.

Lemma ease_on_reals (p : R) : ease (Fin p) = Fin (ease_real p).
Proof.
  unfold ease, ease_real. simpl. unfold Rltb, Reqb.
  destruct (Rlt_dec p (1 / 2)); [f_equal; lra|].
  destruct (Req_dec_T (1 + 1) 0); [lra|]. simpl; f_equal; lra.
Qed.

Lemma ease_real_bounds (p : R) : 0 <= p <= 1 -> 0 <= ease_real p <= 1.
Proof. intros Hp. unfold ease_real. destruct (Rlt_dec p (1 / 2)); nra. Qed.

Lemma ease_real_monotone (p q : R) : 0 <= p <= q -> q <= 1 -> ease_real p <= ease_real q.
Proof.
  intros Hpq Hq. unfold ease_real.
  destruct (Rlt_dec p (1 / 2)), (Rlt_dec q (1 / 2)); nra.
Qed.

Lemma lerp_on_reals (a b : R * R * R) (e : R) :
  lerpVectors (real_vector a) (real_vector b) (Fin e) = real_vector (real_lerp a b e).
Proof.
  destruct a as [[a0 a1] a2], b as [[b0 b1] b2].
  unfold lerpVectors, real_vector, real_lerp. simpl. repeat f_equal; lra.
Qed.

Lemma progress_on_reals (now t0 dur : R) :
  0 < dur ->
  Math_min2 (div (sub (Fin now) (Fin t0)) (Fin dur)) one = Fin (Rmin ((now - t0) / dur) 1).
Proof.
  intros Hdur. simpl. unfold Reqb. destruct (Req_dec_T dur 0); [lra|].
  change (xmin2 (Fin ?a) (Fin ?b)) with (@Math_min2 number (Fin a) (Fin b)).
  rewrite min2_reals. f_equal; f_equal; lra.
Qed.

(** A frame of a running animation with real times and vectors. *)
Lemma useFrame_real (cam tgt sc tc st tt : R * R * R) (t0 dur now : R) :
  0 < dur ->
  let progress := Rmin ((now - t0) / dur) 1 in
  useFrame (Fin now)
    (mkCamera (real_vector cam) (real_vector tgt)
       (Some (real_animation true t0 dur sc tc st tt)))
  = mkCamera (real_vector (real_lerp sc tc (ease_real progress)))
      (real_vector (real_lerp st tt (ease_real progress)))
      (Some (real_animation (if Rle_dec 1 progress then false else true)
               t0 dur sc tc st tt)).
Proof.
  intros Hdur progress. unfold useFrame, real_animation. cbn [animationRef active negb
    startTime duration startCameraPos targetCameraPos startTarget targetTarget].
  rewrite progress_on_reals by done. fold progress.
  rewrite ease_on_reals, !lerp_on_reals.
  do 3 f_equal. simpl. unfold Rleb. by destruct (Rle_dec 1 progress).
Qed.

(** X16: while an animation with real times and vectors runs, every
    frame puts the camera on the segment from its start position to
    its target position, and the controls target on the segment between
    the two targets, at one common parameter between 0 and 1 that is
    0 at the start time and does not decrease with time; the animation
    stays active exactly until its duration has elapsed. *)
Theorem useFrame_on_segment (cam tgt sc tc st tt : R * R * R) (t0 dur : R) :
  0 < dur ->
  let frame t :=
    useFrame (Fin t)
      (mkCamera (real_vector cam) (real_vector tgt)
         (Some (real_animation true t0 dur sc tc st tt))) in
  exists e : R -> R,
    e t0 = 0
    /\ (forall t t', t0 <= t <= t' -> 0 <= e t <= e t' /\ e t' <= 1)
    /\ forall t, t0 <= t ->
         frame t
         = mkCamera (real_vector (real_lerp sc tc (e t)))
             (real_vector (real_lerp st tt (e t)))
             (Some (real_animation (if Rlt_dec t (t0 + dur) then true else false)
                      t0 dur sc tc st tt)).
Proof.
  intros Hdur frame.
  exists (fun t => ease_real (Rmin ((t - t0) / dur) 1)).
  assert (forall t, t0 <= t -> 0 <= Rmin ((t - t0) / dur) 1 <= 1) as Hprogress.
  { intros t Ht. split; [|apply Rmin_r].
    apply Rmin_glb; [|lra]. apply Rmult_le_pos; [lra|].
    apply Rlt_le, Rinv_0_lt_compat, Hdur. }
  split; [|split].
  - replace ((t0 - t0) / dur) with 0 by (field; lra).
    rewrite Rmin_left by lra. unfold ease_real. destruct (Rlt_dec 0 (1 / 2)); lra.
  - intros t t' [Ht Htt'].
    assert (Rmin ((t - t0) / dur) 1 <= Rmin ((t' - t0) / dur) 1) as Hmono.
    { apply Rle_min_compat_r. apply Rmult_le_compat_r; [|lra].
      apply Rlt_le, Rinv_0_lt_compat, Hdur. }
    pose proof (Hprogress t Ht). pose proof (Hprogress t' ltac:(lra)).
    pose proof (ease_real_bounds (Rmin ((t - t0) / dur) 1) ltac:(lra)).
    pose proof (ease_real_bounds (Rmin ((t' - t0) / dur) 1) ltac:(lra)).
    pose proof (ease_real_monotone (Rmin ((t - t0) / dur) 1) (Rmin ((t' - t0) / dur) 1)
                  ltac:(lra) ltac:(lra)).
    lra.
  - intros t Ht. subst frame. cbv beta. rewrite useFrame_real by done.
    do 3 f_equal.
    assert ((t - t0) / dur < 1 <-> t < t0 + dur) as Hlt.
    { split; intros H.
      - apply (Rmult_lt_compat_r dur) in H; [|done].
        replace ((t - t0) / dur * dur) with (t - t0) in H by (field; lra). lra.
      - apply (Rmult_lt_reg_r dur); [done|].
        replace ((t - t0) / dur * dur) with (t - t0) by (field; lra). lra. }
    destruct (Rle_dec 1 (Rmin ((t - t0) / dur) 1)) as [Hle|Hnle],
             (Rlt_dec t (t0 + dur)) as [Hrun|Hdone]; try done.
    + apply Hlt in Hrun. pose proof (Rmin_l ((t - t0) / dur) 1). lra.
    + exfalso. apply Hnle. apply Rmin_glb; [|lra].
      destruct (Rle_lt_dec 1 ((t - t0) / dur)); [done|]. exfalso. apply Hdone. by apply Hlt.
Qed.

Lemma ease_real_1 : ease_real 1 = 1.
Proof. unfold ease_real. destruct (Rlt_dec 1 (1 / 2)); lra. Qed.

Lemma real_lerp_1 (a b : R * R * R) : real_lerp a b 1 = b.
Proof.
  destruct a as [[a0 a1] a2], b as [[b0 b1] b2]. unfold real_lerp. simpl.
  repeat f_equal; lra.
Qed.

(** The frame at or after the end of a running animation. *)
Lemma useFrame_landing (cam tgt sc tc st tt : R * R * R) (t0 dur now : R) :
  0 < dur -> t0 + dur <= now ->
  useFrame (Fin now)
    (mkCamera (real_vector cam) (real_vector tgt)
       (Some (real_animation true t0 dur sc tc st tt)))
  = mkCamera (real_vector tc) (real_vector tt)
      (Some (real_animation false t0 dur sc tc st tt)).
Proof.
  intros Hdur Hnow. rewrite useFrame_real by done.
  assert (1 <= (now - t0) / dur) as Hfull.
  { apply (Rmult_le_reg_r dur); [done|].
    replace ((now - t0) / dur * dur) with (now - t0) by (field; lra). lra. }
  rewrite Rmin_right by done. rewrite ease_real_1, !real_lerp_1.
  destruct (Rle_dec 1 1); [done|lra].
Qed.

(** X17: the frame callback of [CameraController] up to its call of
    [controls.update()], which is the orbit controls' and is not
    modelled: the first frame at or after the end of an animation with
    real times and vectors assigns exactly the target position to the
    camera position and the target to the controls target, which are
    the values [controls.update()] is then called on, and ends the
    animation; on every later frame the callback returns at once, with
    no assignment and no call of [controls.update()]. *)
Theorem useFrame_lands_and_stops (cam tgt sc tc st tt : R * R * R) (t0 dur now : R) :
  0 < dur -> t0 + dur <= now ->
  let landed :=
    mkCamera (real_vector tc) (real_vector tt)
      (Some (real_animation false t0 dur sc tc st tt)) in
  useFrame (Fin now)
    (mkCamera (real_vector cam) (real_vector tgt)
       (Some (real_animation true t0 dur sc tc st tt))) = landed
  /\ forall later : num, useFrame later landed = landed.
Proof.
  intros Hdur Hnow landed. split; [by apply useFrame_landing|done].
Qed.

(** A position is within 5 units of itself. *)
Lemma within_5_same (a b c : R) :
  @within_5 number xabs (Fin a, Fin b, Fin c) (Fin a, Fin b, Fin c) = true.
Proof.
  assert (forall r, @lt number (xabs (@sub number (Fin r) (Fin r))) (@of_nat number 5) = true)
    as Hnear.
  { intros r. change (@sub number (Fin r) (Fin r)) with (Fin (r + - r)).
    cbn [xabs]. replace (r + - r) with 0 by lra. rewrite Rabs_R0.
    change (@lt number (Fin 0) (@of_nat number 5)) with (Rltb 0 (INR 5)).
    unfold Rltb. destruct (Rlt_dec 0 (INR 5)) as [|Hn]; [done|].
    exfalso. apply Hn. apply (lt_INR 0 5). lia. }
  unfold within_5. cbn [fst snd]. by rewrite !Hnear.
Qed.

Lemma INR_1000 : INR 1000 = 1000.
Proof. rewrite INR_IZR_INZ. reflexivity. Qed.

Lemma INR_2000 : INR 2000 = 2000.
Proof. rewrite INR_IZR_INZ. reflexivity. Qed.

(** X18: the frame callback up to its call of [controls.update()],
    which is the orbit controls' and is not modelled, after a click on
    a callout at a real position: a frame 1000 ms or more after the
    click (2000 ms when the position is within 5 units of a turn
    callout) assigns the clicked position to the controls target and
    to the camera position the point at the offset
    (0.7 d, 0.5 d, 0.7 d) from it, or at (cos a * d, 0.6 d, sin a * d)
    for a turn callout, with d = 0.3 times the size of the track
    bounds and a = 0.3 pi; these are the values [controls.update()]
    is then called on, and the animation is left inactive. *)
Theorem handleCalloutClick_camera_rest (Math_abs : num -> num)
    (turnCallouts : list Callout.t) (trackBounds : Bounds)
    (cam tgt : R * R * R) (animation : option Animation)
    (px py pz s c sn t0 now : R) :
  size trackBounds = Fin s ->
  Math_cos (mul Math_PI (tenths 3)) = Fin c ->
  Math_sin (mul Math_PI (tenths 3)) = Fin sn ->
  let position : Triple := (Fin px, Fin py, Fin pz) in
  let isTurn :=
    some (fun callout => within_5 Math_abs (Callout.position callout) position)
      turnCallouts in
  let d := s * (3 / 10) in
  t0 + (if isTurn then 2000 else 1000) <= now ->
  exists resting,
    useFrame (Fin now)
      (handleCalloutClick_animation Math_PI Math_cos Math_sin Math_abs turnCallouts
         trackBounds position (Fin t0)
         (mkCamera (real_vector cam) (real_vector tgt) animation))
    = mkCamera
        (real_vector
           (if isTurn then (px + c * d, py + d * (6 / 10), pz + sn * d)
            else (px + d * (7 / 10), py + d * (1 / 2), pz + d * (7 / 10))))
        (real_vector (px, py, pz))
        (Some resting)
    /\ active resting = false.
Proof.
  intros Hsize Hcos Hsin position isTurn d Hnow.
  unfold handleCalloutClick_animation, animateToPosition. fold position isTurn.
  cbn [controls_target camera_position].
  rewrite Hsize, Hcos, Hsin, !tenths_real.
  set (target := if isTurn then (px + c * d, py + d * (6 / 10), pz + sn * d)
                 else (px + d * (7 / 10), py + d * (1 / 2), pz + d * (7 / 10))).
  set (dur := if isTurn then 2000 else 1000) in *.
  exists (real_animation false t0 dur cam target tgt (px, py, pz)).
  split; [|done].
  rewrite <- (useFrame_landing cam tgt cam target tgt (px, py, pz) t0 dur now);
    [|subst dur; destruct isTurn; lra|done].
  assert (forall k, @of_nat number k = Fin (INR k)) as Hnat by done.
  assert ((if isTurn then of_nat 2000 else of_nat 1000) = Fin dur) as ->.
  { subst dur. destruct isTurn; rewrite Hnat; [by rewrite INR_2000|by rewrite INR_1000]. }
  unfold real_animation. do 3 f_equal.
  subst target d. unfold real_vector, position.
  destruct isTurn; simpl.
  - f_equal; f_equal; f_equal; field.
  - unfold Vector3.addVectors, to_Vector3. simpl. f_equal; f_equal; f_equal; field.
Qed.
End ExactCamera.

(** ** The buffers of the geometries *)

Section GeometryFacts.
Context {N : JSNumber}.
Implicit Types (points : list Vector3.t).

Lemma strip_indices_range (i m : nat) (k : Z) :
  (i < m)%nat -> k ∈ strip_indices i -> 0 <= k < 2 * Z.of_nat m + 2.
Proof.
  intros Hi Hk. unfold strip_indices in Hk. simpl in Hk.
  repeat (apply elem_of_cons in Hk as [->|Hk]; [lia|]).
  by apply elem_of_nil in Hk.
Qed.

Lemma strips_range (m : nat) (k : Z) :
  k ∈ flat_map strip_indices (seq 0 m) -> 0 <= k < 2 * Z.of_nat m + 2.
Proof.
  intros Hk. apply list_elem_of_In, in_flat_map in Hk as (i & Hi & Hk).
  apply in_seq in Hi. apply list_elem_of_In in Hk.
  apply (strip_indices_range i m); [lia|done].
Qed.

Lemma strips_length (m : nat) : length (flat_map strip_indices (seq 0 m)) = (6 * m)%nat.
Proof.
  induction m as [|m IH]; [done|].
  rewrite seq_S, flat_map_app, length_app, IH. simpl. lia.
Qed.

Lemma flat_map_snoc {A B} (f : A -> list B) (l : list A) (a : A) :
  flat_map f (l ++ [a]) = flat_map f l ++ f a.
Proof. rewrite flat_map_app. simpl. by rewrite app_nil_r. Qed.

(** The index part of a loop with triangles while [i < limit]. *)
Lemma ribbon_index_loop (limit : Z) : forall k,
  fold_left (ribbon_index_step limit) (seq 0 k) []
  = flat_map strip_indices (seq 0 (Nat.min k (Z.to_nat limit))).
Proof.
  induction k as [|k IH]; [done|].
  rewrite seq_S, fold_left_app, IH. cbn [fold_left Nat.add]. unfold ribbon_index_step.
  destruct (Z.ltb_spec (Z.of_nat k) limit).
  - rewrite !Nat.min_l by lia. by rewrite seq_S, flat_map_snoc.
  - by rewrite !Nat.min_r by lia.
Qed.

Lemma plane_step_Some points (limit : Z) (gradientRGB : Triple) buffers (i : nat) point :
  points !! i = Some point ->
  plane_step points limit gradientRGB (Some buffers) i
  = Some (mkPlane
      (plane_vertices buffers ++ curtain point)
      (if Z.of_nat i <? limit then plane_indices buffers ++ strip_indices i
       else plane_indices buffers)
      (plane_normals buffers ++ [zero; zero; one; zero; zero; one])
      (plane_colors buffers
         ++ [gradientRGB.1.1; gradientRGB.1.2; gradientRGB.2; one;
             gradientRGB.1.1; gradientRGB.1.2; gradientRGB.2; zero])).
Proof. intros Hpoint. unfold plane_step. simpl. by rewrite Hpoint. Qed.

(** What a plane loop has pushed after [k] rounds, when the samples
    last. *)
Lemma plane_loop points (limit : Z) (gradientRGB : Triple) : forall k,
  (k <= length points)%nat ->
  fold_left (plane_step points limit gradientRGB) (seq 0 k)
    (Some (mkPlane [] [] [] []))
  = Some (mkPlane
      (flat_map curtain (take k points))
      (flat_map strip_indices (seq 0 (Nat.min k (Z.to_nat limit))))
      (flat_map (fun _ => [zero; zero; one; zero; zero; one]) (seq 0 k))
      (flat_map (fun _ => [gradientRGB.1.1; gradientRGB.1.2; gradientRGB.2; one;
                           gradientRGB.1.1; gradientRGB.1.2; gradientRGB.2; zero])
         (seq 0 k))).
Proof.
  induction k as [|k IH]; intros Hk; [done|].
  rewrite seq_S, fold_left_app, IH by lia. cbn [fold_left Nat.add].
  destruct (lookup_lt_is_Some_2 points k) as [point Hpoint]; [lia|].
  rewrite (plane_step_Some _ _ _ _ _ _ Hpoint).
  cbn [plane_vertices plane_indices plane_normals plane_colors].
  rewrite (take_S_r _ _ _ Hpoint), !flat_map_snoc.
  f_equal. f_equal.
  destruct (Z.ltb_spec (Z.of_nat k) limit).
  - rewrite !Nat.min_l by lia. by rewrite seq_S, flat_map_snoc.
  - by rewrite !Nat.min_r by lia.
Qed.

(** A plane loop throws at the first missing sample. *)
Lemma plane_loop_overrun points (limit : Z) (gradientRGB : Triple) (count : nat) :
  (length points < count)%nat ->
  fold_left (plane_step points limit gradientRGB) (seq 0 count)
    (Some (mkPlane [] [] [] [])) = None.
Proof.
  intros Hcount.
  assert (forall l, fold_left (plane_step points limit gradientRGB) l None = None) as Hnone.
  { induction l as [|i l IH]; [done|]. simpl. apply IH. }
  replace count with (length points + S (count - length points - 1))%nat by lia.
  rewrite seq_app, fold_left_app. simpl.
  destruct (fold_left _ (seq 0 (length points)) _) as [buffers|]; simpl; [|apply Hnone].
  rewrite (proj2 (lookup_ge_None points (length points))) by lia. simpl. apply Hnone.
Qed.

Lemma curtains_length points : length (flat_map curtain points) = (6 * length points)%nat.
Proof. induction points as [|p l IH]; [done|]. simpl. rewrite IH. lia. Qed.

Lemma flat_map_const_length {A B} (l : list A) (c : list B) :
  length (flat_map (fun _ => c) l) = (length c * length l)%nat.
Proof. induction l as [|a l IH]; simpl; [lia|]. rewrite length_app, IH. lia. Qed.

Lemma curtains_vertex_pair points (i : nat) (point : Vector3.t) :
  points !! i = Some point ->
  vertex_pair_at (flat_map curtain points) i = curtain point.
Proof.
  revert i. induction points as [|p l IH]; intros i Hi; [done|].
  destruct i as [|i]; simpl in Hi.
  - by simplify_eq.
  - unfold vertex_pair_at in *. cbn [flat_map curtain app].
    replace (6 * S i)%nat with (S (S (S (S (S (S (6 * i))))))) by lia.
    cbn [drop]. by apply IH.
Qed.

Lemma closing_range (n : nat) (k : Z) :
  (0 < n)%nat ->
  let lastIndex := (Z.of_nat n - 1) * 2 in
  k ∈ [lastIndex; 0; lastIndex + 1] ++ [lastIndex + 1; 0; 1] ->
  0 <= k < 2 * Z.of_nat n.
Proof.
  intros Hn lastIndex Hk. subst lastIndex. simpl in Hk.
  repeat (apply elem_of_cons in Hk as [->|Hk]; [lia|]).
  by apply elem_of_nil in Hk.
Qed.

Lemma strip_indices_numerals (i : nat) :
  strip_indices i
  = [2 * Z.of_nat i; 2 * Z.of_nat i + 2; 2 * Z.of_nat i + 1;
     2 * Z.of_nat i + 1; 2 * Z.of_nat i + 2; 2 * Z.of_nat i + 3].
Proof. unfold strip_indices. cbn [app]. repeat (f_equal; try lia). Qed.

(** The six indices pushed in round [i] stand at the places [6 i] to
    [6 i + 5] of the index array. *)
Lemma strips_chunk (rest : list Z) (i : nat) : forall m, (i < m)%nat ->
  take 6 (drop (6 * i) (flat_map strip_indices (seq 0 m) ++ rest)) = strip_indices i.
Proof.
  intros m. revert rest. induction m as [|m IH]; intros rest Hi; [lia|].
  rewrite seq_S, flat_map_snoc, <- app_assoc. cbn [Nat.add].
  destruct (decide (i = m)) as [->|Hne].
  - rewrite drop_app_length' by (rewrite strips_length; lia). done.
  - apply IH. lia.
Qed.

(** An index array of [TrackMesh] over [n] samples: the strips of the
    loop, then the closing triangles. *)
Lemma closed_strip_indices (n : nat) :
  (0 < n)%nat ->
  let lastIndex := (Z.of_nat n - 1) * 2 in
  let indices :=
    flat_map strip_indices (seq 0 (n - 1))
      ++ [lastIndex; 0; lastIndex + 1] ++ [lastIndex + 1; 0; 1] in
  length indices = (6 * n)%nat
  /\ (forall i : nat, (i + 1 < n)%nat ->
        take 6 (drop (6 * i) indices) = strip_indices i)
  /\ drop (6 * (n - 1)) indices
     = [2 * Z.of_nat (n - 1); 0; 2 * Z.of_nat (n - 1) + 1;
        2 * Z.of_nat (n - 1) + 1; 0; 1]
  /\ forall k, k ∈ indices -> 0 <= k < 2 * Z.of_nat n.
Proof.
  intros Hn lastIndex indices. subst indices.
  split; [|split; [|split]].
  - rewrite length_app, strips_length. cbn [app length]. lia.
  - intros i Hi. apply strips_chunk. lia.
  - rewrite drop_app_length' by (rewrite strips_length; lia).
    subst lastIndex. cbn [app]. repeat (f_equal; try lia).
  - intros k [Hk|Hk]%elem_of_app.
    + apply strips_range in Hk. lia.
    + by apply closing_range in Hk.
Qed.

(** X19: the two geometries of [TrackMesh] are closed strips, each
    over its own samples of the curve (the plane samples it in
    [validPoints.length * 4] segments, the ribbon in
    [trackData.length * 4]).  For non-empty lists of samples the plane
    loop and the ribbon loop return; each array holds two vertices per
    sample (3 numbers per position and normal, 4 per colour); over n
    samples the index array holds 2n triangles: for every i with
    i + 1 < n the six indices 2i, 2i+2, 2i+1, 2i+1, 2i+2, 2i+3 at
    the places 6i to 6i+5, and at the end the six indices
    2(n-1), 0, 2(n-1)+1, 2(n-1)+1, 0, 1, which join the last vertex
    pair to the first; every index refers to an existing vertex; and
    the plane holds each sample followed by its projection to the
    ground level 0. *)
Theorem TrackMesh_buffers_closed_strip (planePoints ribbonPoints : list Vector3.t)
    (gradientRGB : Triple) (trackWidth : num) :
  planePoints <> [] -> ribbonPoints <> [] ->
  let closed_strip (n : nat) (indices : list Z) :=
    length indices = (6 * n)%nat
    /\ (forall i : nat, (i + 1 < n)%nat ->
          take 6 (drop (6 * i) indices)
          = [2 * Z.of_nat i; 2 * Z.of_nat i + 2; 2 * Z.of_nat i + 1;
             2 * Z.of_nat i + 1; 2 * Z.of_nat i + 2; 2 * Z.of_nat i + 3])
    /\ drop (6 * (n - 1)) indices
       = [2 * Z.of_nat (n - 1); 0; 2 * Z.of_nat (n - 1) + 1;
          2 * Z.of_nat (n - 1) + 1; 0; 1]
    /\ forall k, k ∈ indices -> 0 <= k < 2 * Z.of_nat n in
  exists plane ribbonVertices,
    TrackMesh_planeGeometry planePoints gradientRGB = Some plane
    /\ TrackMesh_ribbonVertices ribbonPoints trackWidth = Some ribbonVertices
    /\ length (plane_vertices plane) = (3 * (2 * length planePoints))%nat
    /\ length (plane_normals plane) = (3 * (2 * length planePoints))%nat
    /\ length (plane_colors plane) = (4 * (2 * length planePoints))%nat
    /\ length ribbonVertices = (3 * (2 * length ribbonPoints))%nat
    /\ closed_strip (length planePoints) (plane_indices plane)
    /\ closed_strip (length ribbonPoints) (TrackMesh_ribbonIndices ribbonPoints)
    /\ forall i point, planePoints !! i = Some point ->
         vertex_pair_at (plane_vertices plane) i = curtain point.
Proof.
  intros Hplane Hribbon closed_strip.
  assert (forall n, (0 < n)%nat ->
            closed_strip n
              (flat_map strip_indices (seq 0 (n - 1))
                 ++ [(Z.of_nat n - 1) * 2; 0; (Z.of_nat n - 1) * 2 + 1]
                 ++ [(Z.of_nat n - 1) * 2 + 1; 0; 1])) as Hclosed.
  { intros n Hn. destruct (closed_strip_indices n Hn) as (Hlen & Hstrips & Hlast & Hrange).
    split; [exact Hlen|]. split; [|split; [exact Hlast|exact Hrange]].
    intros i Hi. rewrite <- strip_indices_numerals. by apply Hstrips. }
  assert (0 < length planePoints)%nat as Hn
    by (destruct planePoints; [done|simpl; lia]).
  assert (0 < length ribbonPoints)%nat as Hm
    by (destruct ribbonPoints; [done|simpl; lia]).
  destruct (ribbonVertices_pairs ribbonPoints trackWidth)
    as (ribbonVertices & Hvertices & _ & Hrlen & _).
  unfold TrackMesh_planeGeometry, TrackMesh_ribbonIndices.
  rewrite ribbon_index_loop.
  rewrite (plane_loop planePoints (Z.of_nat (length planePoints) - 1) gradientRGB
             (length planePoints)) by done.
  cbn [mbind option_bind plane_vertices plane_indices plane_normals plane_colors].
  eexists _, ribbonVertices. split; [done|]. split; [done|].
  cbn [plane_vertices plane_indices plane_normals plane_colors].
  rewrite !Nat.min_r by lia. rewrite firstn_all.
  rewrite curtains_length, !flat_map_const_length, length_seq. cbn [length].
  replace (Z.to_nat (Z.of_nat (length planePoints) - 1))
    with (length planePoints - 1)%nat by lia.
  replace (Z.to_nat (Z.of_nat (length ribbonPoints) - 1))
    with (length ribbonPoints - 1)%nat by lia.
  split; [lia|]. split; [lia|]. split; [lia|]. split; [lia|].
  split; [by apply Hclosed|]. split; [by apply Hclosed|].
  apply curtains_vertex_pair.
Qed.

(** X20: the plane loop of [AlternateRouteTrack] reads the samples 0
    to [numSegments] and throws unless the sampled path has more than
    [numSegments] points, hence more than 100 points and more than 20
    per point of the route; when it returns, plane and ribbon are
    open strips whose arrays hold two vertices per sample read and
    whose indices all refer to existing vertices. *)
Theorem AlternateRouteTrack_buffers_open_strip (segmentPoints : list Vector3.t)
    (numSegments : nat) (gradientRGB : Triple) :
  (is_Some (AlternateRouteTrack_planeGeometry segmentPoints numSegments gradientRGB)
   <-> (numSegments < length segmentPoints)%nat)
  /\ (forall allPoints, numSegments = AlternateRouteTrack_numSegments allPoints ->
        (numSegments < length segmentPoints)%nat ->
        (100 < length segmentPoints)%nat
        /\ (20 * length allPoints < length segmentPoints)%nat)
  /\ (forall plane,
        AlternateRouteTrack_planeGeometry segmentPoints numSegments gradientRGB = Some plane ->
        length (plane_vertices plane) = (3 * (2 * (numSegments + 1)))%nat
        /\ length (plane_normals plane) = (3 * (2 * (numSegments + 1)))%nat
        /\ length (plane_colors plane) = (4 * (2 * (numSegments + 1)))%nat
        /\ length (plane_indices plane) = (3 * (2 * numSegments))%nat
        /\ (forall k, k ∈ plane_indices plane -> 0 <= k < 2 * (Z.of_nat numSegments + 1))
        /\ forall i point, (i <= numSegments)%nat -> segmentPoints !! i = Some point ->
             vertex_pair_at (plane_vertices plane) i = curtain point)
  /\ length (AlternateRouteTrack_ribbonIndices segmentPoints)
     = (3 * (2 * (length segmentPoints - 1)))%nat
  /\ forall k, k ∈ AlternateRouteTrack_ribbonIndices segmentPoints ->
       0 <= k < 2 * Z.of_nat (length segmentPoints).
Proof.
  unfold AlternateRouteTrack_planeGeometry.
  split; [|split; [|split; [|split]]].
  - split.
    + intros Hsome. destruct (Nat.lt_ge_cases numSegments (length segmentPoints)); [done|].
      rewrite plane_loop_overrun in Hsome by lia. by destruct Hsome.
    + intros Hlt. rewrite plane_loop by lia. done.
  - intros allPoints -> Hlt. unfold AlternateRouteTrack_numSegments in Hlt. lia.
  - intros plane Hplane.
    destruct (Nat.lt_ge_cases numSegments (length segmentPoints)) as [Hlt|Hge];
      [|by rewrite plane_loop_overrun in Hplane by lia].
    rewrite plane_loop in Hplane by lia. simplify_eq.
    cbn [plane_vertices plane_indices plane_normals plane_colors].
    rewrite Nat.min_r by lia.
    rewrite curtains_length, !flat_map_const_length, length_seq, strips_length.
    rewrite length_take. cbn [length].
    split; [lia|]. split; [lia|]. split; [lia|]. split; [lia|]. split.
    + intros k Hk. apply strips_range in Hk. lia.
    + intros i point Hi Hpoint. apply curtains_vertex_pair.
      rewrite lookup_take_lt by lia. done.
  - unfold AlternateRouteTrack_ribbonIndices.
    rewrite ribbon_index_loop, strips_length. rewrite Nat.min_r by lia. lia.
  - intros k Hk. unfold AlternateRouteTrack_ribbonIndices in Hk.
    rewrite ribbon_index_loop in Hk. rewrite Nat.min_r in Hk by lia.
    destruct segmentPoints as [|p l]; [by apply elem_of_nil in Hk|].
    apply strips_range in Hk. simpl length in *. lia.
Qed.
End GeometryFacts.

(** ** The start/finish line *)

Section LineIndices.
Context {N : JSNumber}.

(** The search never leaves the array. *)
Lemma closest_search_in_range (dist : TrackPoint.t -> num) (l : list TrackPoint.t) :
  l <> [] -> ((closest_search dist l).1 < length l)%nat.
Proof.
  induction l as [|p l IH] using rev_ind; [done|]. intros _.
  rewrite closest_search_snoc, length_app. simpl.
  unfold closest_step. destruct (lt _ _); simpl; [lia|].
  destruct l as [|q l]; [simpl; lia|].
  specialize (IH ltac:(done)). lia.
Qed.

Lemma StartFinishLine_closestIndex_in_range (position : Triple)
    (trackData : list TrackPoint.t) (elevationMultiplier : num) (smoothingLevel : Z)
    (groundOffset : num) :
  StartFinishLine_processedPoints trackData smoothingLevel <> [] ->
  (StartFinishLine_closestIndex position trackData elevationMultiplier smoothingLevel
     groundOffset
   < length (StartFinishLine_processedPoints trackData smoothingLevel))%nat.
Proof. intros Hne. unfold StartFinishLine_closestIndex. by apply closest_search_in_range. Qed.

(** The neighbours the line is computed from, for an index inside a
    non-empty array. *)
Lemma lineGeometry_neighbours (position : Triple) (trackWidth : num)
    (trackData : list TrackPoint.t) (elevationMultiplier : num) (smoothingLevel : Z)
    (groundOffset : num) :
  let processedPoints := StartFinishLine_processedPoints trackData smoothingLevel in
  let closestIndex :=
    StartFinishLine_closestIndex position trackData elevationMultiplier smoothingLevel
      groundOffset in
  let n := length processedPoints in
  processedPoints <> [] ->
  exists prevPoint nextPoint,
    processedPoints !! ((closestIndex + n - 1) mod n)%nat = Some prevPoint
    /\ processedPoints !! ((closestIndex + 1) mod n)%nat = Some nextPoint
    /\ StartFinishLine_lineGeometry position trackWidth trackData elevationMultiplier
         smoothingLevel groundOffset
       = Some (start_finish_line position trackWidth prevPoint nextPoint).
Proof.
  intros processedPoints closestIndex n Hne.
  assert (0 < n)%nat as Hn by (subst n; destruct processedPoints; [done|simpl; lia]).
  pose proof (StartFinishLine_closestIndex_in_range position trackData elevationMultiplier
                smoothingLevel groundOffset Hne) as Hc.
  fold processedPoints closestIndex n in Hc.
  destruct (lookup_lt_is_Some_2 processedPoints ((closestIndex + n - 1) mod n))
    as [prevPoint Hprev]; [apply Nat.mod_upper_bound; lia|].
  destruct (lookup_lt_is_Some_2 processedPoints ((closestIndex + 1) mod n))
    as [nextPoint Hnext]; [apply Nat.mod_upper_bound; lia|].
  exists prevPoint, nextPoint. split; [done|]. split; [done|].
  unfold StartFinishLine_lineGeometry. fold processedPoints closestIndex n.
  rewrite !Z.rem_mod_nonneg by lia.
  replace ((Z.of_nat closestIndex - 1 + Z.of_nat n) `mod` Z.of_nat n)
    with (Z.of_nat ((closestIndex + n - 1) mod n)); cycle 1.
  { rewrite Nat2Z.inj_mod. f_equal. lia. }
  replace ((Z.of_nat closestIndex + 1) `mod` Z.of_nat n)
    with (Z.of_nat ((closestIndex + 1) mod n)); cycle 1.
  { rewrite Nat2Z.inj_mod. f_equal. lia. }
  unfold lookupZ.
  destruct (Z.ltb_spec (Z.of_nat ((closestIndex + n - 1) mod n)) 0); [lia|].
  destruct (Z.ltb_spec (Z.of_nat ((closestIndex + 1) mod n)) 0); [lia|].
  rewrite !Nat2Z.id, Hprev, Hnext. done.
Qed.

(** X22: the neighbour indices of [StartFinishLine].  For the empty
    list both are [NaN], no neighbour is found and the read of
    [prevPoint.x] throws.  For a non-empty list, whatever the points
    hold, the index the search leaves in [closestIndex] and the two
    indices [(closestIndex - 1 + n) % n] and [(closestIndex + 1) % n]
    are positions of the processed list of length n, so that both
    neighbours exist and the line is computed from them.  (The spread
    call [Math.min(...)] before the search is taken to return; the
    engine's limit on the number of arguments is not modelled.) *)
Theorem StartFinishLine_neighbours_in_range (position : Triple) (trackWidth : num)
    (trackData : list TrackPoint.t) (elevationMultiplier : num) (smoothingLevel : Z)
    (groundOffset : num) :
  let processedPoints := StartFinishLine_processedPoints trackData smoothingLevel in
  let closestIndex :=
    Z.of_nat (StartFinishLine_closestIndex position trackData elevationMultiplier
                smoothingLevel groundOffset) in
  let len := Z.of_nat (length processedPoints) in
  let prevIndex := Z.rem (closestIndex - 1 + len) len in
  let nextIndex := Z.rem (closestIndex + 1) len in
  (trackData = [] ->
     lookupZ processedPoints prevIndex = None
     /\ lookupZ processedPoints nextIndex = None
     /\ StartFinishLine_lineGeometry position trackWidth trackData elevationMultiplier
          smoothingLevel groundOffset = None)
  /\ (trackData <> [] ->
        0 <= closestIndex < len /\ 0 <= prevIndex < len /\ 0 <= nextIndex < len
        /\ exists prevPoint nextPoint,
             lookupZ processedPoints prevIndex = Some prevPoint
             /\ lookupZ processedPoints nextIndex = Some nextPoint
             /\ StartFinishLine_lineGeometry position trackWidth trackData
                  elevationMultiplier smoothingLevel groundOffset
                = Some (start_finish_line position trackWidth prevPoint nextPoint)).
Proof.
  intros processedPoints closestIndex len prevIndex nextIndex.
  assert (processedPoints = [] <-> trackData = []) as Hempty.
  { subst processedPoints. unfold StartFinishLine_processedPoints.
    destruct (0 <? smoothingLevel); [apply smoothPoints_empty|done]. }
  split.
  - intros Hnil. apply Hempty in Hnil.
    assert (forall index, lookupZ processedPoints index = None) as Hnone.
    { intros index. rewrite Hnil. unfold lookupZ. by destruct (index <? 0). }
    split; [apply Hnone|]. split; [apply Hnone|].
    unfold StartFinishLine_lineGeometry. fold processedPoints.
    rewrite !Hnone. reflexivity.
  - intros Hne.
    assert (processedPoints <> []) as Hpne by (by rewrite Hempty).
    pose proof (StartFinishLine_closestIndex_in_range position trackData elevationMultiplier
                  smoothingLevel groundOffset Hpne) as Hc.
    fold processedPoints in Hc.
    assert (0 <= closestIndex < len) as Hclosest by (subst closestIndex len; lia).
    assert (0 <= prevIndex < len) as Hprev.
    { subst prevIndex. rewrite Z.rem_mod_nonneg by lia. apply Z.mod_pos_bound. lia. }
    assert (0 <= nextIndex < len) as Hnext.
    { subst nextIndex. rewrite Z.rem_mod_nonneg by lia. apply Z.mod_pos_bound. lia. }
    assert (forall index, 0 <= index < len -> is_Some (lookupZ processedPoints index))
      as Hread.
    { intros index Hindex. unfold lookupZ.
      destruct (Z.ltb_spec index 0); [lia|].
      apply lookup_lt_is_Some_2. subst len. lia. }
    destruct (Hread prevIndex Hprev) as [prevPoint HprevPoint].
    destruct (Hread nextIndex Hnext) as [nextPoint HnextPoint].
    split; [done|]. split; [done|]. split; [done|].
    exists prevPoint, nextPoint. split; [done|]. split; [done|].
    unfold StartFinishLine_lineGeometry.
    fold processedPoints closestIndex len prevIndex nextIndex.
    by rewrite HprevPoint, HnextPoint.
Qed.
End LineIndices.

Section ExactLine.
Local Existing Instance Exact.number.
Import Exact.
Local Open Scope R_scope.

(** The line for neighbours that differ in x or z. *)
Lemma start_finish_line_real (px py pz w ax az bx bz : R) (prevPoint nextPoint : TrackPoint.t) :
  TrackPoint.x prevPoint = Some (Fin ax) -> TrackPoint.z prevPoint = Some (Fin az) ->
  TrackPoint.x nextPoint = Some (Fin bx) -> TrackPoint.z nextPoint = Some (Fin bz) ->
  let dx := bx - ax in
  let dz := bz - az in
  let rho := R_sqrt.sqrt (dx * dx + dz * dz) in
  dx <> 0 \/ dz <> 0 ->
  start_finish_line (Fin px, Fin py, Fin pz) (Fin w) prevPoint nextPoint
  = (real_vector (px + - dz / rho * (w * (3 / 4)), py, pz + dx / rho * (w * (3 / 4))),
     real_vector (px - - dz / rho * (w * (3 / 4)), py, pz - dx / rho * (w * (3 / 4)))).
Proof.
  intros Hax Haz Hbx Hbz dx dz rho Hstep.
  assert (0 < dx * dx + dz * dz) as Hrho2.
  { destruct Hstep as [Hnz|Hnz]; apply Rsqr_pos_lt in Hnz; unfold Rsqr in Hnz; nra. }
  pose proof (sqrt_lt_R0 _ Hrho2) as Hrho. fold rho in Hrho.
  unfold start_finish_line. rewrite Hax, Haz, Hbx, Hbz.
  match goal with
  | |- context [Vector3.normalize (Vector3.new (sub ?a ?b) ?c ?d)] =>
      change (Vector3.new (sub a b) c d) with (real_vector (bx + - ax, 0, bz + - az))
  end.
  replace (bx + - ax) with dx by (subst dx; ring).
  replace (bz + - az) with dz by (subst dz; ring).
  rewrite normalize_real by nra.
  replace (dx * dx + 0 * 0 + dz * dz) with (dx * dx + dz * dz) by ring. fold rho.
  change (Vector3.new (neg (Vector3.z (real_vector (dx * (1 / rho), 0 * (1 / rho), dz * (1 / rho)))))
                      zero
                      (Vector3.x (real_vector (dx * (1 / rho), 0 * (1 / rho), dz * (1 / rho)))))
    with (real_vector (- (dz * (1 / rho)), 0, dx * (1 / rho))).
  assert (0 < 1 / rho) as Hs by (apply Rdiv_lt_0_compat; lra).
  rewrite normalize_real; cycle 1.
  { replace (- (dz * (1 / rho)) * - (dz * (1 / rho)) + 0 * 0 + dx * (1 / rho) * (dx * (1 / rho)))
      with ((dx * dx + dz * dz) * ((1 / rho) * (1 / rho))) by ring.
    apply Rmult_lt_0_compat; nra. }
  rewrite perpendicular_length by lra. fold rho.
  unfold real_vector. simpl. unfold Reqb.
  destruct (Req_dec_T (1 + 1) 0); [lra|]. simpl.
  f_equal; apply real_vector_eq; field; lra.
Qed.

(** The line for neighbours with the same x and z: both ends are the
    position. *)
Lemma start_finish_line_null (px py pz w ax az bx bz : R) (prevPoint nextPoint : TrackPoint.t) :
  TrackPoint.x prevPoint = Some (Fin ax) -> TrackPoint.z prevPoint = Some (Fin az) ->
  TrackPoint.x nextPoint = Some (Fin bx) -> TrackPoint.z nextPoint = Some (Fin bz) ->
  bx - ax = 0 -> bz - az = 0 ->
  start_finish_line (Fin px, Fin py, Fin pz) (Fin w) prevPoint nextPoint
  = (real_vector (px, py, pz), real_vector (px, py, pz)).
Proof.
  intros Hax Haz Hbx Hbz Hdx Hdz.
  unfold start_finish_line. rewrite Hax, Haz, Hbx, Hbz.
  match goal with
  | |- context [Vector3.normalize (Vector3.new (sub ?a ?b) ?c ?d)] =>
      change (Vector3.new (sub a b) c d) with (real_vector (bx + - ax, 0, bz + - az))
  end.
  replace (bx + - ax) with 0 by lra. replace (bz + - az) with 0 by lra.
  rewrite normalize_null by ring.
  change (Vector3.new (neg (Vector3.z (real_vector (0 * (1 / 1), 0 * (1 / 1), 0 * (1 / 1)))))
                      zero
                      (Vector3.x (real_vector (0 * (1 / 1), 0 * (1 / 1), 0 * (1 / 1)))))
    with (real_vector (- (0 * (1 / 1)), 0, 0 * (1 / 1))).
  rewrite normalize_null by ring.
  unfold real_vector. simpl. unfold Reqb.
  destruct (Req_dec_T (1 + 1) 0); [lra|]. simpl.
  f_equal; apply real_vector_eq; field.
Qed.

Lemma StartFinishLine_processed_finite (trackData : list TrackPoint.t) (smoothingLevel : Z) :
  Forall (fun p => finite_point p = true) trackData ->
  Forall (fun p => finite_point p = true)
    (StartFinishLine_processedPoints trackData smoothingLevel)
  /\ length (StartFinishLine_processedPoints trackData smoothingLevel) = length trackData.
Proof.
  intros Hfin. unfold StartFinishLine_processedPoints.
  destruct (Z.ltb_spec 0 smoothingLevel); [|done]. split.
  - by apply smoothPoints_finite.
  - apply smoothPoints_length; [lia|].
    eapply Forall_impl; [exact Hfin|]. apply finite_point_all_numbers.
Qed.

(** X21: for a non-empty list of points with real coordinates, the
    start/finish line is drawn through the given position, at its
    height and centred on it, across the chord between the two
    neighbours of the nearest processed point (the previous and the
    next one, around the loop): when the neighbours differ in x or z,
    its ends lie 0.75 times the track width to either side along the
    horizontal unit vector at a right angle to the chord, so that the
    line is 1.5 track widths long; when they do not, both ends are the
    position. *)
Theorem StartFinishLine_line_across_chord (px py pz w : R)
    (trackData : list TrackPoint.t) (elevationMultiplier : num) (smoothingLevel : Z)
    (groundOffset : num) :
  trackData <> [] ->
  Forall (fun p => finite_point p = true) trackData ->
  let position : Triple := (Fin px, Fin py, Fin pz) in
  let processedPoints := StartFinishLine_processedPoints trackData smoothingLevel in
  let closestIndex :=
    StartFinishLine_closestIndex position trackData elevationMultiplier smoothingLevel
      groundOffset in
  let n := length processedPoints in
  exists prevPoint nextPoint (ax az bx bz : R) ends,
    processedPoints !! ((closestIndex + n - 1) mod n)%nat = Some prevPoint
    /\ processedPoints !! ((closestIndex + 1) mod n)%nat = Some nextPoint
    /\ TrackPoint.x prevPoint = Some (Fin ax) /\ TrackPoint.z prevPoint = Some (Fin az)
    /\ TrackPoint.x nextPoint = Some (Fin bx) /\ TrackPoint.z nextPoint = Some (Fin bz)
    /\ StartFinishLine_lineGeometry position (Fin w) trackData elevationMultiplier
         smoothingLevel groundOffset = Some ends
    /\ let dx := bx - ax in
       let dz := bz - az in
       let rho := R_sqrt.sqrt (dx * dx + dz * dz) in
       let ux := - dz / rho in
       let uz := dx / rho in
       (dx <> 0 \/ dz <> 0 ->
          ends = (real_vector (px + ux * (w * (3 / 4)), py, pz + uz * (w * (3 / 4))),
                  real_vector (px - ux * (w * (3 / 4)), py, pz - uz * (w * (3 / 4))))
          /\ ux * ux + uz * uz = 1
          /\ ux * dx + uz * dz = 0)
       /\ (dx = 0 /\ dz = 0 ->
           ends = (real_vector (px, py, pz), real_vector (px, py, pz))).
Proof.
  intros Hne Hfin position processedPoints closestIndex n.
  destruct (StartFinishLine_processed_finite trackData smoothingLevel Hfin) as [Hpfin Hplen].
  fold processedPoints in Hpfin, Hplen.
  assert (processedPoints <> []) as Hpne.
  { intros Hnil. rewrite Hnil in Hplen. by destruct trackData. }
  destruct (lineGeometry_neighbours position (Fin w) trackData elevationMultiplier
              smoothingLevel groundOffset Hpne)
    as (prevPoint & nextPoint & Hprev & Hnext & Hline).
  fold processedPoints closestIndex n in Hprev, Hnext.
  rewrite Forall_forall in Hpfin.
  destruct (finite_point_fields prevPoint) as (ax & ay & az & Hax & _ & Haz).
  { apply Hpfin. by eapply list_elem_of_lookup_2. }
  destruct (finite_point_fields nextPoint) as (bx & b_y & bz & Hbx & _ & Hbz).
  { apply Hpfin. by eapply list_elem_of_lookup_2. }
  exists prevPoint, nextPoint, ax, az, bx, bz, (start_finish_line position (Fin w) prevPoint nextPoint).
  repeat (split; [done|]).
  intros dx dz rho ux uz. split.
  - intros Hstep. split; [|by apply unit_perpendicular].
    by apply (start_finish_line_real px py pz w ax az bx bz).
  - intros [Hdx Hdz]. by apply (start_finish_line_null px py pz w ax az bx bz).
Qed.
End ExactLine.

(** ** The further code on concrete inputs *)

Section FurtherOnBinary64.
#[local] Set Warnings "-inexact-float".
Local Existing Instance Float64.number.
Local Open Scope float_scope.

(** The quotients standing for the decimal literals are those
    literals. *)
Example tenths_are_literals :
  (tenths 3, tenths 6, tenths 7, tenths 8, div (of_nat 3) (of_nat 2))
  = (0.3, 0.6, 0.7, 0.8, 1.5).
Proof. vm_compute. reflexivity. Qed.

(** X1 at the route ["bypass-2"], which has one control point. *)
Lemma handleSceneClick_then_delete_bypass_2 :
  deleteControlPoint "bypass-2" 1
    (handleSceneClick true (Some "bypass-2"%string) ((1, 2, 3) : Triple)
       [Data.bypass_2; Data.bypass_3])
    !! 0%nat
  = Some Data.bypass_2.
Proof.
  apply (handleSceneClick_then_delete (N := Float64.number) true "bypass-2" (1, 2, 3)
           [Data.bypass_2; Data.bypass_3] 0 Data.bypass_2).
  - reflexivity.
  - simpl. discriminate.
Defined.

(** A route with an empty array of control points comes back without
    the array. *)
Example handleSceneClick_then_delete_empty_array :
  let route := AlternateRoute.with_controlPoints SceneData.chicane_bypass_1 (Some []) in
  deleteControlPoint "chicane-bypass-1" 0
    (handleSceneClick true (Some "chicane-bypass-1"%string) ((1, 2, 3) : Triple) [route])
  = [SceneData.chicane_bypass_1].
Proof. vm_compute. reflexivity. Qed.

(** X3 at the second control point of ["bypass-3"]: its x and its z. *)
Lemma updateControlPoint_commute_bypass_3 :
  updateControlPoint "bypass-3" 1 coord0 5 [Data.bypass_2; Data.bypass_3]
    ≫= updateControlPoint "bypass-3" 1 coord2 7
  = updateControlPoint "bypass-3" 1 coord2 7 [Data.bypass_2; Data.bypass_3]
    ≫= updateControlPoint "bypass-3" 1 coord0 5.
Proof.
  apply (updateControlPoint_commute (N := Float64.number)
           "bypass-3" "bypass-3" 1 1 coord0 coord2 5 7
           [Data.bypass_2; Data.bypass_3]).
  discriminate.
Defined.

(** X6 at two routes of [ALTERNATE_ROUTES], with a parser that
    returns 0. *)
Lemma route_edits_keep_points_nonempty_routes :
  let routes := [Data.bypass_2; Data.bypass_3; SceneData.chicane_bypass_1] in
  let Number_parseFloat := fun _ : string => 0 in
  (forall x y z routeId,
     no_empty_controlPoints (addControlPoint Number_parseFloat x y z routeId routes))
  /\ (forall mode selected position,
        no_empty_controlPoints (handleSceneClick mode selected position routes))
  /\ (forall routeId k, no_empty_controlPoints (deleteControlPoint routeId k routes))
  /\ (forall routeId k c v routes',
        updateControlPoint routeId k c v routes = Some routes' ->
        no_empty_controlPoints routes').
Proof.
  apply (route_edits_keep_points_nonempty (N := Float64.number) (fun _ : string => 0)
           [Data.bypass_2; Data.bypass_3; SceneData.chicane_bypass_1]).
  repeat constructor; simpl; discriminate.
Defined.

(** The scene that [Home] mounts has the 18 turn callouts. *)
Example home_scene_turnCallouts :
  length (scene_turnCallouts SceneData.home_scene) = 18%nat.
Proof. reflexivity. Qed.

(** X9 at the scene of [Home]: a click on the callout of turn 1, on
    the start/finish callout and on the callout of turn 18. *)
Lemma TrackScene_turnHud_defined_home :
  exists st hud,
    TrackScene_run PrimFloat.abs SceneData.home_scene initial_hud
      [click_callout 0; click_callout 18; click_callout 17] = Some st
    /\ RaceTrack3D_turnHud (turn_prop st) = Some hud
    /\ match selectedTurn st with
       | Some i => exists detail, TURN_DETAILS !! i = Some detail /\ hud = Some detail
       | None => hud = None
       end.
Proof.
  apply (TrackScene_turnHud_defined (N := Float64.number) PrimFloat.abs SceneData.home_scene
           [click_callout 0; click_callout 18; click_callout 17]).
  vm_compute. lia.
Defined.

(** Those three clicks, one after the other: the details of turn 1,
    then the track information alone, then the details of turn 18
    alone. *)
Example TrackScene_home_clicks :
  let run := TrackScene_run PrimFloat.abs SceneData.home_scene initial_hud in
  (selectedTurn <$> run [click_callout 0], showTrackInfo <$> run [click_callout 0])
  = (Some (Some 0%nat), Some false)
  /\ (selectedTurn <$> run [click_callout 0; click_callout 18],
      showTrackInfo <$> run [click_callout 0; click_callout 18])
     = (Some None, Some true)
  /\ (selectedTurn <$> run [click_callout 0; click_callout 18; click_callout 17],
      showTrackInfo <$> run [click_callout 0; click_callout 18; click_callout 17])
     = (Some (Some 17%nat), Some false).
Proof. vm_compute. auto. Qed.

(** X10 at the four points, with the level -2. *)
Lemma smoothPoints_nonpositive_level_four_points :
  smoothPoints Data.four_points (-2) = Data.four_points.
Proof. apply (smoothPoints_nonpositive_level Data.four_points (-2)). lia. Defined.

(** X12 at the four points, smoothed with level 2, seen from the
    position [(10, 5, 0)]. *)
Lemma StartFinishLine_measures_mesh_points_four_points :
  let position : Triple := (10, 5, 0) in
  let processedPoints := StartFinishLine_processedPoints Data.four_points 2 in
  let yOffset := sub (mul (processed_min_y processedPoints) 2) 3 in
  exists points,
    TrackMesh_curve Data.four_points 2 2 3 = CatmullRomCurve3 points true centripetal half
    /\ length points = length processedPoints
    /\ forall i point, processedPoints !! i = Some point ->
         exists V, points !! i = Some V
           /\ start_finish_dist position 2 yOffset point
              = Math_sqrt
                  (add (add (Math_pow2 (sub (Vector3.x V) position.1.1))
                            (Math_pow2 (sub (Vector3.y V) position.1.2)))
                       (Math_pow2 (sub (Vector3.z V) position.2))).
Proof.
  apply (StartFinishLine_measures_mesh_points (N := Float64.number) (10, 5, 0)
           Data.four_points 2 2 3).
  - repeat constructor.
  - simpl. lia.
Defined.

(** X13 at the four points, with a rounding that changes nothing. *)
Lemma trackStats_elevation_skips_first_four_points :
  stats_elevation (trackStats (fun v => v) Float64Math.max2 Data.four_points)
  = panel_elevation (fun v => v) Float64Math.max2 (tail Data.four_points).
Proof.
  apply (trackStats_elevation_skips_first (N := Float64.number) (fun v => v)
           Float64Math.max2 Data.four_points).
  simpl. lia.
Defined.

(** The heights of the four points are 0, 1, 2 and 3: the statistics
    of [StartFinishLine] round a range of 2, the information panel of
    [RaceTrack3D] a range of 3. *)
Example trackStats_four_points (Math_round : float -> float) :
  stats_elevation (trackStats Math_round Float64Math.max2 Data.four_points)
  = div (Math_round 20) 10
  /\ panel_elevation Math_round Float64Math.max2 Data.four_points
     = div (Math_round 30) 10.
Proof. split; vm_compute; reflexivity. Qed.

(** The bounds of the four points and the camera position over them. *)
Example trackBounds_four_points :
  trackBounds Float64Math.max2 Data.four_points = mkBounds (15, 1.5, 0) 30
  /\ cameraPosition (trackBounds Float64Math.max2 Data.four_points) = (39, 18, 24).
Proof. split; vm_compute; reflexivity. Qed.

(** A height that is [NaN] is left out of the range of heights
    only. *)
Example trackBounds_nan_height :
  trackBounds Float64Math.max2 Data.nan_height_points = mkBounds (10, 0.5, 0) 20.
Proof. vm_compute. reflexivity. Qed.

(** X19 at two samples for the plane and three for the ribbon. *)
Lemma TrackMesh_buffers_closed_strip_two_and_three_samples :
  let planePoints := Data.vertical_step in
  let ribbonPoints := Vector3.new 1 0 0 :: Data.vertical_step in
  exists plane ribbonVertices,
    TrackMesh_planeGeometry planePoints ((1, 0.5, 0.25) : Triple) = Some plane
    /\ TrackMesh_ribbonVertices ribbonPoints 3 = Some ribbonVertices
    /\ length (plane_vertices plane) = 12%nat
    /\ length ribbonVertices = 18%nat
    /\ plane_indices plane = [0; 2; 1; 1; 2; 3; 2; 0; 3; 3; 0; 1]%Z
    /\ TrackMesh_ribbonIndices ribbonPoints
       = [0; 2; 1; 1; 2; 3; 2; 4; 3; 3; 4; 5; 4; 0; 5; 5; 0; 1]%Z.
Proof.
  intros planePoints ribbonPoints.
  destruct (TrackMesh_buffers_closed_strip (N := Float64.number) planePoints ribbonPoints
              (1, 0.5, 0.25) 3 ltac:(discriminate) ltac:(discriminate))
    as (plane & ribbonVertices & Hplane & Hribbon & Hlen & _ & _ & Hrlen & _).
  exists plane, ribbonVertices.
  split; [exact Hplane|]. split; [exact Hribbon|].
  split; [exact Hlen|]. split; [exact Hrlen|].
  split; [|vm_compute; reflexivity].
  vm_compute in Hplane. injection Hplane as <-. reflexivity.
Defined.

(** Of five points of which the first three lack a coordinate, the
    window of position 1 holds no numeric point: smoothing at level 1
    gives four points, for the positions 0, 2, 3 and 4. *)
Example smoothPoints_gap_points :
  smoothPoints SceneData.gap_points 1
  = [TrackPoint.new (Some 4) (Some 4) (Some 0) (Some 0) None;
     TrackPoint.new (Some 3) (Some 2) (Some 0) (Some 2) None;
     TrackPoint.new (Some 3.5) (Some 3) (Some 0) (Some 3) None;
     TrackPoint.new (Some 3.5) (Some 3) (Some 0) (Some 4) None].
Proof. vm_compute. reflexivity. Qed.

(** Without samples, which [getPoints] never gives, the closing
    triangles of [TrackMesh] have negative indices. *)
Example TrackMesh_planeGeometry_no_samples :
  plane_indices <$> TrackMesh_planeGeometry [] ((1, 0.5, 0.25) : Triple)
  = Some [-2; 0; -1; -1; 0; 1]%Z.
Proof. vm_compute. reflexivity. Qed.

(** The start/finish line of the four points at [(10, 5, 0)], for the
    track width 3: 4.5 long, across the track. *)
Example StartFinishLine_lineGeometry_four_points :
  StartFinishLine_lineGeometry ((10, 5, 0) : Triple) 3 Data.four_points 2 2 3
  = Some (Vector3.new 10 5 (-2.25), Vector3.new 10 5 2.25).
Proof. vm_compute. reflexivity. Qed.
End FurtherOnBinary64.

Section FurtherOnReals.
Local Existing Instance Exact.number.
Import Exact ExactMath.
Local Open Scope R_scope.

(** X14 at two real points. *)
Lemma trackBounds_encloses_two_points :
  exists cx cy cz s ylo yhi : R,
    trackBounds xmax2 RealData.two_points = mkBounds (Fin cx, Fin cy, Fin cz) (Fin s)
    /\ 0 <= s /\ cy = (ylo + yhi) / 2
    /\ (forall p x y z, p ∈ RealData.two_points ->
          TrackPoint.x p = Some (Fin x) -> TrackPoint.y p = Some (Fin y) ->
          TrackPoint.z p = Some (Fin z) ->
          Rabs (x - cx) <= s / 2 /\ Rabs (z - cz) <= s / 2 /\ ylo <= y <= yhi)
    /\ (exists p q a b, p ∈ RealData.two_points /\ q ∈ RealData.two_points /\ b - a = s
         /\ ((TrackPoint.x p = Some (Fin a) /\ TrackPoint.x q = Some (Fin b))
             \/ (TrackPoint.z p = Some (Fin a) /\ TrackPoint.z q = Some (Fin b))))
    /\ exists p q, p ∈ RealData.two_points /\ q ∈ RealData.two_points
         /\ TrackPoint.y p = Some (Fin ylo) /\ TrackPoint.y q = Some (Fin yhi).
Proof.
  apply (trackBounds_encloses RealData.two_points).
  - discriminate.
  - repeat constructor.
Defined.

(** X15 at two real points. *)
Lemma cameraPosition_beyond_track_two_points :
  exists camX camY camZ s : R,
    cameraPosition (trackBounds xmax2 RealData.two_points) = (Fin camX, Fin camY, Fin camZ)
    /\ size (trackBounds xmax2 RealData.two_points) = Fin s
    /\ 0 <= s /\ camY = s * (6 / 10)
    /\ forall p x z, p ∈ RealData.two_points ->
         TrackPoint.x p = Some (Fin x) -> TrackPoint.z p = Some (Fin z) ->
         x + s * (3 / 10) <= camX /\ z + s * (3 / 10) <= camZ.
Proof.
  apply (cameraPosition_beyond_track RealData.two_points).
  - discriminate.
  - repeat constructor.
Defined.

(** X16 at an animation of one second from the origin to
    [(10, 20, 30)]. *)
Lemma useFrame_on_segment_one_second :
  let frame t :=
    useFrame (Fin t)
      (mkCamera (real_vector (0, 0, 0)) (real_vector (1, 1, 1))
         (Some (real_animation true 0 1000 (0, 0, 0) (10, 20, 30) (1, 1, 1) (2, 2, 2)))) in
  exists e : R -> R,
    e 0 = 0
    /\ (forall t t', 0 <= t <= t' -> 0 <= e t <= e t' /\ e t' <= 1)
    /\ forall t, 0 <= t ->
         frame t
         = mkCamera (real_vector (real_lerp (0, 0, 0) (10, 20, 30) (e t)))
             (real_vector (real_lerp (1, 1, 1) (2, 2, 2) (e t)))
             (Some (real_animation (if Rlt_dec t (0 + 1000) then true else false)
                      0 1000 (0, 0, 0) (10, 20, 30) (1, 1, 1) (2, 2, 2))).
Proof.
  apply (useFrame_on_segment (0, 0, 0) (1, 1, 1) (0, 0, 0) (10, 20, 30) (1, 1, 1) (2, 2, 2)
           0 1000).
  lra.
Defined.

(** X17 at that animation, 1.5 seconds after its start. *)
Lemma useFrame_lands_and_stops_one_second :
  let landed :=
    mkCamera (real_vector (10, 20, 30)) (real_vector (2, 2, 2))
      (Some (real_animation false 0 1000 (0, 0, 0) (10, 20, 30) (1, 1, 1) (2, 2, 2))) in
  useFrame (Fin 1500)
    (mkCamera (real_vector (0, 0, 0)) (real_vector (1, 1, 1))
       (Some (real_animation true 0 1000 (0, 0, 0) (10, 20, 30) (1, 1, 1) (2, 2, 2))))
  = landed
  /\ forall later : num, useFrame later landed = landed.
Proof.
  apply (useFrame_lands_and_stops (0, 0, 0) (1, 1, 1) (0, 0, 0) (10, 20, 30) (1, 1, 1)
           (2, 2, 2) 0 1000 1500); lra.
Defined.

(** X18 for a click on the one turn callout, at [(1, 3, 2)], of a
    track of two points, whose bounds have size 2: the camera is sent
    around the callout, for 2000 ms. *)
Lemma handleCalloutClick_camera_rest_turn :
  let Math_PI := Fin PI in
  let Math_cos := fun _ : num => Fin (cos (PI * (3 / 10))) in
  let Math_sin := fun _ : num => Fin (sin (PI * (3 / 10))) in
  let position : Triple := (Fin 1, Fin 3, Fin 2) in
  let turnCallouts := [Callout.new position "1"] in
  let d := 2 * (3 / 10) in
  some (fun callout => within_5 xabs (Callout.position callout) position) turnCallouts
  = true
  /\ size (trackBounds xmax2 RealData.two_points) = Fin 2
  /\ exists resting,
    useFrame (Fin 2000)
      (handleCalloutClick_animation Math_PI Math_cos Math_sin xabs turnCallouts
         (trackBounds xmax2 RealData.two_points) position (Fin 0)
         (mkCamera (real_vector (80, 60, 80)) (real_vector (0, 0, 0)) None))
    = mkCamera
        (real_vector (1 + cos (PI * (3 / 10)) * d, 3 + d * (6 / 10),
                      2 + sin (PI * (3 / 10)) * d))
        (real_vector (1, 3, 2))
        (Some resting)
    /\ active resting = false.
Proof.
  intros Math_PI Math_cos Math_sin position turnCallouts d.
  assert (some (fun callout => within_5 xabs (Callout.position callout) position)
            turnCallouts = true) as Hturn.
  { unfold some, turnCallouts. cbn [existsb Callout.position].
    unfold position. by rewrite within_5_same. }
  assert (size (trackBounds xmax2 RealData.two_points) = Fin 2) as Hsize.
  { by rewrite trackBounds_two_points. }
  split; [exact Hturn|]. split; [exact Hsize|].
  pose proof (handleCalloutClick_camera_rest Math_PI Math_cos Math_sin
                xabs turnCallouts (@trackBounds number xmax2 RealData.two_points)
                (80, 60, 80) (0, 0, 0) None
                1 3 2 2 (cos (PI * (3 / 10))) (sin (PI * (3 / 10))) 0 2000
                Hsize eq_refl eq_refl) as Hrest.
  cbv zeta in Hrest. fold position in Hrest. rewrite Hturn in Hrest.
  apply Hrest. lra.
Defined.

(** X21 at the three corners of a triangle, for a line through
    [(1, 0, 0)] on a track of width 4: whichever corner is nearest,
    its two neighbours differ in x or z, and the line is 6 long,
    across their chord. *)
Lemma StartFinishLine_line_across_chord_triangle :
  let position : Triple := (Fin 1, Fin 0, Fin 0) in
  exists (ends : Vector3.t * Vector3.t) (ux uz : R),
    StartFinishLine_lineGeometry position (Fin 4) RealSceneData.triangle (Fin 1) 0 (Fin 0)
    = Some ends
    /\ ux * ux + uz * uz = 1
    /\ ends = (real_vector (1 + ux * (4 * (3 / 4)), 0, 0 + uz * (4 * (3 / 4))),
               real_vector (1 - ux * (4 * (3 / 4)), 0, 0 - uz * (4 * (3 / 4)))).
Proof.
  intros position.
  destruct (StartFinishLine_line_across_chord 1 0 0 4 RealSceneData.triangle (Fin 1) 0 (Fin 0)
              ltac:(discriminate) ltac:(repeat constructor))
    as (prevPoint & nextPoint & ax & az & bx & bz & ends
        & Hprev & Hnext & Hax & Haz & Hbx & Hbz & Hline & Hcases).
  pose proof (StartFinishLine_closestIndex_in_range position RealSceneData.triangle
                (Fin 1) 0 (Fin 0) ltac:(discriminate)) as Hindex.
  change (StartFinishLine_processedPoints RealSceneData.triangle 0)
    with RealSceneData.triangle in Hprev, Hnext, Hindex.
  fold position in Hprev, Hnext.
  set (closestIndex := StartFinishLine_closestIndex position
                         RealSceneData.triangle (Fin 1) 0 (Fin 0)) in Hprev, Hnext, Hindex.
  clearbody closestIndex.
  exists ends, (- (bz - az) / R_sqrt.sqrt ((bx - ax) * (bx - ax) + (bz - az) * (bz - az))),
    ((bx - ax) / R_sqrt.sqrt ((bx - ax) * (bx - ax) + (bz - az) * (bz - az))).
  split; [exact Hline|].
  assert (bx - ax <> 0 \/ bz - az <> 0) as Hstep.
  { destruct closestIndex as [|[|[|c]]]; [| | |simpl in Hindex; lia];
      vm_compute in Hprev, Hnext; simplify_eq; simpl in Hax, Haz, Hbx, Hbz;
      simplify_eq; lra. }
  destruct (proj1 Hcases Hstep) as (Hends & Hunit & _).
  split; [exact Hunit|exact Hends].
Defined.
End FurtherOnReals.
